(** * Insurance data cleaning pipeline (cleaning.py)

    A shallow embedding of the cleaning pipeline and the properties of its
    steps.  The pipeline is written against pandas; the part of pandas the
    code calls is embedded here with the behaviour of pandas 1.x / 2.x
    (text columns have dtype [object]).

    Conventions of the embedding:
    - a column is a tagged union of its dtype and its values: [Int64] holds
      integers, [Float64] holds numbers or the missing marker NaN, [Object]
      holds text or the missing marker; tables with columns of other
      dtypes are outside the embedding;
    - a finite floating-point value is represented by the exact rational it
      denotes; NaN is [None].  A [Float64] column holds no infinity, and
      arithmetic on its values is exact where binary64 arithmetic rounds
      or overflows.  The properties that depend on this say so: they bound
      the magnitude of the values ([floats_below]), which leaves out the
      infinities and the sums that overflow, and they state a computed
      value up to its rounding ([rounded_mean], [rounding_of]);
    - text is a string of bytes; the code points below 128 are the ASCII
      characters, and the properties about letter case are stated for
      ASCII labels ([ascii_text]);
    - an [Int64] value is a [Z]; the one place where the code produces
      integers from other numbers (the cast in [convert_numeric_to_int])
      has its range written out;
    - a raised Python exception is the [Raise] result. *)

From Stdlib Require Import ZArith QArith Qabs Qpower String Ascii List Bool Lia Lqa.
From Stdlib Require Import Sorted Permutation.
From stdpp Require Import gmap strings list.

Import ListNotations.
Local Open Scope string_scope.
Local Open Scope list_scope.
Local Open Scope Z_scope.

(** ** Exceptions *)

Inductive exn : Type :=
| ValueError
| KeyError
| AttributeError
| IntCastingNaNError
| FileNotFoundError.

Inductive result (A : Type) : Type :=
| Ok (a : A)
| Raise (e : exn).

Arguments Ok {A} a.
Arguments Raise {A} e.

Definition bind {A B : Type} (c : result A) (k : A -> result B) : result B :=
  match c with
  | Ok a => k a
  | Raise e => Raise e
  end.

Notation "'let*' x ':=' c 'in' k" := (bind c (fun x => k))
  (at level 10, x name, c at level 100, k at level 200).

(** ** Text *)

(** [str.lower] on the ASCII range: the letters A to Z become a to z.
    Python lower-cases the letters of other alphabets too; the bytes of
    their encoding are left as they are here, so on a text with such
    letters the embedding departs from the code. *)
Definition lower_char (c : ascii) : ascii :=
  let n := nat_of_ascii c in
  if ((65 <=? n)%nat && (n <=? 90)%nat)%bool then ascii_of_nat (n + 32) else c.

Fixpoint str_lower (s : string) : string :=
  match s with
  | EmptyString => EmptyString
  | String c s' => String (lower_char c) (str_lower s')
  end.

(** [str.replace(old, new)] for a one-character [old], the only form the
    code uses ([" "] and ["%"]). *)
Fixpoint str_replace (old : ascii) (new : string) (s : string) : string :=
  match s with
  | EmptyString => EmptyString
  | String c s' =>
      if Ascii.eqb c old then (new ++ str_replace old new s')%string
      else String c (str_replace old new s')
  end.

(** [str.split(sep)] for a one-character separator: the pieces between
    the separators, at least one piece. *)
Fixpoint str_split (sep : ascii) (s : string) : list string :=
  match s with
  | EmptyString => [EmptyString]
  | String c s' =>
      if Ascii.eqb c sep then EmptyString :: str_split sep s'
      else match str_split sep s' with
           | p :: ps => String c p :: ps
           | [] => [String c EmptyString]
           end
  end.

(** ** Tables *)

Inductive column : Type :=
| Int64 (vs : list Z)
| Float64 (vs : list (option Q))
| Object (vs : list (option string)).

Record DataFrame : Type := mkDF {
  index : list Z;
  cols : list (string * column)
}.

Definition col_len (c : column) : nat :=
  match c with
  | Int64 vs => length vs
  | Float64 vs => length vs
  | Object vs => length vs
  end.

(** [df.columns] *)
Definition columns (df : DataFrame) : list string := map fst (cols df).

(** A well-formed table: unique labels, every column as long as the index.
    For a label that occurs twice [df[name]] is a table, not a column;
    such tables are outside the embedding. *)
Definition wf (df : DataFrame) : Prop :=
  NoDup (columns df) /\
  Forall (fun c => col_len c = length (index df)) (map snd (cols df)).

(** [df.copy()]: on values a copy is the value itself; the object store
    below is where a copy is a new object. *)
Definition copy (df : DataFrame) : DataFrame := df.

(** [df.columns = names]; pandas raises [ValueError] on a length mismatch. *)
Definition set_columns (names : list string) (df : DataFrame) : result DataFrame :=
  if (length names =? length (cols df))%nat
  then Ok (mkDF (index df) (combine names (map snd (cols df))))
  else Raise ValueError.

(** [name in df.columns] *)
Definition has_column (name : string) (df : DataFrame) : bool :=
  existsb (String.eqb name) (columns df).

(** [df[name]] in a table with unique labels. *)
Fixpoint lookup_col (name : string) (cs : list (string * column)) : option column :=
  match cs with
  | [] => None
  | (n, c) :: cs' => if String.eqb n name then Some c else lookup_col name cs'
  end.

Definition getitem (name : string) (df : DataFrame) : result column :=
  match lookup_col name (cols df) with
  | Some c => Ok c
  | None => Raise KeyError
  end.

(** [df[name] = c] for a label that is present: the column is replaced in
    place; an absent label is appended as a new column. *)
Fixpoint assign_col (name : string) (c : column) (cs : list (string * column))
  : list (string * column) :=
  match cs with
  | [] => [(name, c)]
  | (n, c0) :: cs' =>
      if String.eqb n name then (n, c) :: cs'
      else (n, c0) :: assign_col name c cs'
  end.

Definition setitem (name : string) (c : column) (df : DataFrame) : DataFrame :=
  mkDF (index df) (assign_col name c (cols df)).

(** [df[name] = f(df[name])], the shape of every column update in the code. *)
Definition update_col (name : string) (f : column -> result column)
  (df : DataFrame) : result DataFrame :=
  let* c := getitem name df in
  let* c' := f c in
  Ok (setitem name c' df).

(** [for col in names: body], where the body updates the table. *)
Fixpoint for_each (names : list string)
  (body : string -> DataFrame -> result DataFrame)
  (df : DataFrame) : result DataFrame :=
  match names with
  | [] => Ok df
  | n :: ns => let* df' := body n df in for_each ns body df'
  end.

(** [df.select_dtypes(include=...).columns]: the labels of the columns
    whose dtype is selected, in table order. *)
Definition select_dtypes (include : column -> bool) (df : DataFrame) : list string :=
  map fst (List.filter (fun nc => include (snd nc)) (cols df)).

(** [include=["int64", "float64"]] *)
Definition is_numeric (c : column) : bool :=
  match c with
  | Int64 _ | Float64 _ => true
  | Object _ => false
  end.

(** [include=["object"]] *)
Definition is_object (c : column) : bool :=
  match c with
  | Object _ => true
  | _ => false
  end.

(** A single value of a column. *)
Inductive cell : Type :=
| CInt (z : Z)
| CFloat (q : option Q)
| CObj (s : option string).

Definition cells (c : column) : list cell :=
  match c with
  | Int64 vs => map CInt vs
  | Float64 vs => map CFloat vs
  | Object vs => map CObj vs
  end.

Definition is_missing (x : cell) : bool :=
  match x with
  | CInt _ => false
  | CFloat None | CObj None => true
  | _ => false
  end.

(** [series.isna().any()] *)
Definition isna_any (c : column) : bool := existsb is_missing (cells c).

(** ** 4.2 Column Normalizer *)

Definition normalize_name (c : string) : string :=
  str_replace " "%char "_" (str_lower c).

Definition rename_st (col : string) : string :=
  if String.eqb col "st" then "state" else col.

(** [df.columns.str]: the text accessor of the column index.  It exists on
    an index that holds text; the column index of a table without columns
    holds none (it is pandas' default index, a range), and asking for
    [.str] raises [AttributeError].  A table without columns that was cut
    down from a table with text labels keeps a text index; the embedding
    does not tell the two apart and takes the default, and the properties
    of the step are stated for tables with at least one column or for the
    calls that return. *)
Definition columns_str (df : DataFrame) : result (list string) :=
  match columns df with
  | [] => Raise AttributeError
  | names => Ok names
  end.

Definition clean_column_names (df : DataFrame) : result DataFrame :=
  let df := copy df in
  let* names := columns_str df in
  let* df := set_columns (map normalize_name names) df in
  let* df := set_columns (map rename_st (columns df)) df in
  Ok df.

(** ** 4.3 Value Normalizer *)

Fixpoint dict_get (k : string) (d : list (string * string)) : option string :=
  match d with
  | [] => None
  | (k', v) :: d' => if String.eqb k' k then Some v else dict_get k d'
  end.

(** [Series.replace(dict)] with text keys: a text cell equal to a key gets
    the key's value; missing markers and numbers match no text key. *)
Definition replace_values (d : list (string * string)) (c : column) : column :=
  match c with
  | Object vs =>
      Object (map (option_map (fun s => match dict_get s d with
                                        | Some v => v
                                        | None => s
                                        end)) vs)
  | _ => c
  end.

(** [Series.str.replace(old, new, regex=False)]: the [.str] accessor exists
    on text columns only; it raises [AttributeError] on a numeric column.
    Missing markers stay missing. *)
Definition str_accessor_replace (old : ascii) (new : string) (c : column)
  : result column :=
  match c with
  | Object vs => Ok (Object (map (option_map (str_replace old new)) vs))
  | _ => Raise AttributeError
  end.

Definition gender_map : list (string * string) :=
  [("Male", "M"); ("female", "F"); ("Femal", "F")].

Definition state_map : list (string * string) :=
  [("AZ", "Arizona"); ("Cali", "California"); ("WA", "Washington")].

Definition education_map : list (string * string) :=
  [("Bachelors", "Bachelor")].

Definition vehicle_class_map : list (string * string) :=
  [("Sports Car", "Luxury"); ("Luxury SUV", "Luxury"); ("Luxury Car", "Luxury")].

Definition clean_invalid_values (df : DataFrame) : result DataFrame :=
  let df := copy df in
  let* df :=
    if has_column "gender" df
    then update_col "gender" (fun c => Ok (replace_values gender_map c)) df
    else Ok df in
  let* df :=
    if has_column "state" df
    then update_col "state" (fun c => Ok (replace_values state_map c)) df
    else Ok df in
  let* df :=
    if has_column "education" df
    then update_col "education" (fun c => Ok (replace_values education_map c)) df
    else Ok df in
  let* df :=
    if has_column "customer_lifetime_value" df
    then update_col "customer_lifetime_value"
           (str_accessor_replace "%"%char "") df
    else Ok df in
  let* df :=
    if has_column "vehicle_class" df
    then update_col "vehicle_class"
           (fun c => Ok (replace_values vehicle_class_map c)) df
    else Ok df in
  Ok df.

(** ** Numbers as text *)

Definition is_space (c : ascii) : bool :=
  let n := nat_of_ascii c in
  ((n =? 32)%nat || ((9 <=? n)%nat && (n <=? 13)%nat))%bool.

Definition digit_of (c : ascii) : option Z :=
  let n := nat_of_ascii c in
  if ((48 <=? n)%nat && (n <=? 57)%nat)%bool then Some (Z.of_nat (n - 48)) else None.

Fixpoint skip_spaces (s : string) : string :=
  match s with
  | String c s' => if is_space c then skip_spaces s' else s
  | EmptyString => s
  end.

(** Reads a run of digits: the number read so far, how many digits were
    read, and the rest of the text. *)
Fixpoint read_digits (s : string) (acc : Z) (n : nat) : Z * nat * string :=
  match s with
  | String c s' =>
      match digit_of c with
      | Some d => read_digits s' (10 * acc + d) (S n)
      | None => (acc, n, s)
      end
  | EmptyString => (acc, n, s)
  end.

Definition read_sign (s : string) : bool * string :=
  match s with
  | String "-" s' => (true, s')
  | String "+" s' => (false, s')
  | _ => (false, s)
  end.

Inductive number : Type :=
| NInt (z : Z)
| NFloat (q : Q).

Definition number_value (n : number) : Q :=
  match n with
  | NInt z => inject_Z z
  | NFloat q => q
  end.

Definition INT64_MIN : Z := - 2 ^ 63.
Definition INT64_MAX : Z := 2 ^ 63 - 1.

Definition in_int64 (z : Z) : bool := (INT64_MIN <=? z) && (z <=? INT64_MAX).

(** The value [m * 10^e]. *)
Definition scale10 (m e : Z) : Q :=
  if 0 <=? e then inject_Z (m * 10 ^ e)
  else Qmake m (Z.to_pos (10 ^ (- e))).

(** The digits of a number with an optional decimal point: the number the
    digits write without the point, how many digits there are, how many of
    them after the point, whether there is a point, and the rest of the
    text. *)
Definition read_mantissa (s : string) : Z * nat * nat * bool * string :=
  let '(ip, ni, s) := read_digits s 0 0 in
  match s with
  | String "." s' =>
      let '(m, nf, s2) := read_digits s' ip 0 in (m, (ni + nf)%nat, nf, true, s2)
  | _ => (ip, ni, 0%nat, false, s)
  end.

(** The exponent, when the text goes on with one: the mark [e] or [E], an
    optional sign and at least one digit.  Whether there is one, its
    value, and the rest of the text. *)
Definition read_exponent (s : string) : bool * Z * string :=
  match s with
  | String c s' =>
      if (Ascii.eqb c "e" || Ascii.eqb c "E")%bool then
        let '(eneg, s2) := read_sign s' in
        let '(ev, ne, s3) := read_digits s2 0 0 in
        if (ne =? 0)%nat then (false, 0, s)
        else (true, if eneg then - ev else ev, s3)
      else (false, 0, s)
  | EmptyString => (false, 0, s)
  end.

(** The largest finite binary64 number is [2^1024 - 2^971]; a number of
    magnitude [2^1024 - 2^970] or more rounds to infinity. *)
Definition overflows (q : Q) : bool :=
  Qle_bool (inject_Z (2 ^ 1024 - 2 ^ 970)) (Qabs q).

(** The number a text denotes for [pd.to_numeric]: blanks, an optional
    sign, digits with an optional decimal point (at least one digit), an
    optional exponent with at least one digit, blanks, and nothing else.
    A text without point and exponent is an integer when it fits int64;
    every other accepted text is a floating-point number, and a text whose
    number is too large for binary64 is refused.  [None] is a text that is
    not a number.

    Where the embedding departs from pandas: the number is exact here,
    pandas rounds it to binary64 (to the nearest one for a text of up to 15
    digits and a power of ten up to 22, close to it otherwise); the texts
    ["inf"] and ["infinity"], in any case and with a sign, are infinities
    for pandas and [None] here, since a column of the embedding holds
    finite numbers only.  The properties below are stated for the texts on
    which the two agree. *)
Definition parse_number (s : string) : option number :=
  let '(neg, s) := read_sign (skip_spaces s) in
  let '(m, nd, nf, point, s) := read_mantissa s in
  if (nd =? 0)%nat then None else
  let '(expo, e, s) := read_exponent s in
  match skip_spaces s with
  | EmptyString =>
      let m := if neg then - m else m in
      if (negb point && negb expo && in_int64 m)%bool then Some (NInt m)
      else
        let q := scale10 m (e - Z.of_nat nf) in
        if overflows q then None else Some (NFloat q)
  | _ => None
  end.

Definition digit_char (d : Z) : ascii :=
  match d with
  | 0 => "0" | 1 => "1" | 2 => "2" | 3 => "3" | 4 => "4"
  | 5 => "5" | 6 => "6" | 7 => "7" | 8 => "8" | _ => "9"
  end%char.

Fixpoint nat_digits (fuel : nat) (n : Z) (acc : string) : string :=
  match fuel with
  | O => acc
  | S f =>
      let acc' := String (digit_char (n mod 10)) acc in
      if n / 10 =? 0 then acc' else nat_digits f (n / 10) acc'
  end.

(** [str(z)] for an integer. *)
Definition Z_repr (z : Z) : string :=
  ((if (z <? 0)%Z then "-" else "") ++
   nat_digits (S (Z.to_nat (Z.log2 (Z.abs z)))) (Z.abs z) "")%string.

(** The digits of [r / d] after the point, for [0 <= r < d]. *)
Fixpoint frac_digits (fuel : nat) (r d : Z) : string :=
  match fuel with
  | O => ""
  | S f =>
      if r =? 0 then ""
      else String (digit_char (10 * r / d)) (frac_digits f (10 * r mod d) d)
  end.

(** [str(x)] for a finite floating-point number: sign, integer part,
    point, and up to 17 digits after the point, at least one.  Python
    prints the shortest text that reads back as the same double and
    switches to exponent notation for very large and very small values;
    only the alphabet of the text matters to the code that uses it. *)
Definition float_repr (q : Q) : string :=
  let a := Z.abs (Qnum q) in
  let d := Zpos (Qden q) in
  let fr := frac_digits 17 (a mod d) d in
  ((if (Qnum q <? 0)%Z then "-" else "") ++
   nat_digits (S (Z.to_nat (Z.log2 (a / d)%Z))) (a / d)%Z "" ++ "." ++
   (if String.eqb fr "" then "0" else fr))%string.

(** ** 4.4 Type Formatter *)

Fixpoint all_ints (ps : list (option number)) : option (list Z) :=
  match ps with
  | [] => Some []
  | Some (NInt z) :: ps' => option_map (cons z) (all_ints ps')
  | _ => None
  end.

(** [pd.to_numeric(series, errors="coerce")]: a numeric column is returned
    as it is; in a text column every cell is read as a number and a cell
    that is missing or not a number becomes NaN.  The result is an integer
    column when every cell is an integer, a floating-point column
    otherwise.  When every cell is a non-negative integer and one of them
    is beyond int64, pandas returns a column of dtype uint64; the
    embedding has no such dtype and gives a floating-point column with the
    same numbers. *)
Definition to_numeric (c : column) : column :=
  match c with
  | Object vs =>
      let ps := map (fun v => match v with
                              | Some s => parse_number s
                              | None => None
                              end) vs in
      match all_ints ps with
      | Some zs => Int64 zs
      | None => Float64 (map (option_map number_value) ps)
      end
  | _ => c
  end.

(** [str(x)] for one cell; the missing marker prints as ["nan"]. *)
Definition cell_text (x : cell) : string :=
  match x with
  | CInt z => Z_repr z
  | CFloat (Some q) => float_repr q
  | CObj (Some s) => s
  | CFloat None | CObj None => "nan"
  end.

(** [Series.astype(str)]: every cell becomes its text. *)
Definition astype_str (c : column) : column :=
  Object (map (fun x => Some (cell_text x)) (cells c)).

(** [Series.str.split(sep).str[i]]: the piece at position [i] of every
    cell, a missing marker where the cell has no such piece.  The column of
    lists in between is not represented. *)
Definition str_split_get (sep : ascii) (i : nat) (c : column) : result column :=
  match c with
  | Object vs =>
      Ok (Object (map (fun v => match v with
                                | Some s => nth_error (str_split sep s) i
                                | None => None
                                end) vs))
  | _ => Raise AttributeError
  end.

Definition format_data_types (df : DataFrame) : result DataFrame :=
  let df := copy df in
  let* df :=
    if has_column "customer_lifetime_value" df
    then update_col "customer_lifetime_value" (fun c => Ok (to_numeric c)) df
    else Ok df in
  let* df :=
    if has_column "number_of_open_complaints" df
    then
      let* df := update_col "number_of_open_complaints"
                   (fun c => str_split_get "/"%char 1 (astype_str c)) df in
      update_col "number_of_open_complaints" (fun c => Ok (to_numeric c)) df
    else Ok df in
  Ok df.

(** ** 4.5 Null Handler *)

Section Ordered.
Context {A : Type} (eqb leb : A -> A -> bool).

Fixpoint insert_sorted (x : A) (l : list A) : list A :=
  match l with
  | [] => [x]
  | y :: l' => if leb x y then x :: l else y :: insert_sorted x l'
  end.

Definition sort (l : list A) : list A := fold_right insert_sorted [] l.

Definition count (x : A) (l : list A) : nat := length (List.filter (eqb x) l).

(** The different values of a list, in order of first appearance. *)
Fixpoint distinct (l : list A) : list A :=
  match l with
  | [] => []
  | x :: l' => x :: List.filter (fun y => negb (eqb x y)) (distinct l')
  end.

Definition max_count (l : list A) : nat :=
  fold_right Nat.max 0%nat (map (fun x => count x l) l).

(** The most frequent values, sorted. *)
Definition modes (l : list A) : list A :=
  sort (List.filter (fun x => (count x l =? max_count l)%nat) (distinct l)).
End Ordered.

Definition dropna {A : Type} (l : list (option A)) : list A :=
  flat_map (fun v => match v with Some x => [x] | None => [] end) l.

(** The values of a numeric column as numbers. *)
Definition numbers (c : column) : list (option Q) :=
  match c with
  | Int64 vs => map (fun z => Some (inject_Z z)) vs
  | Float64 vs => vs
  | Object _ => []
  end.

(** The median of a list of numbers: the middle of the sorted list, the
    mean of the two middle values for an even count, NaN for no value.
    The mean is exact here; in binary64 the sum of the two values is
    rounded, and it overflows when the values are too large (the median of
    [inf] and [-inf] is NaN). *)
Definition median_of (l : list Q) : option Q :=
  let s := sort Qle_bool l in
  let n := length s in
  if (n =? 0)%nat then None
  else if Nat.odd n then nth_error s (n / 2)
  else match nth_error s (n / 2 - 1), nth_error s (n / 2) with
       | Some a, Some b => Some (Qred ((a + b) / 2))
       | _, _ => None
       end.

(** [series.median()]: missing values are skipped. *)
Definition median (c : column) : cell := CFloat (median_of (dropna (numbers c))).

(** [series.mode(dropna=True)]: a new column with the most frequent
    values, sorted. *)
Definition mode (c : column) : column :=
  match c with
  | Int64 vs => Int64 (modes Z.eqb Z.leb vs)
  | Float64 vs => Float64 (map Some (modes Qeq_bool Qle_bool (dropna vs)))
  | Object vs => Object (map Some (modes String.eqb String.leb (dropna vs)))
  end.

(** [series[0]] on a column with the default index: the first cell;
    [KeyError] when the column is empty. *)
Definition first_item (c : column) : result cell :=
  match cells c with
  | x :: _ => Ok x
  | [] => Raise KeyError
  end.

Definition fill {A : Type} (x : A) (vs : list (option A)) : list (option A) :=
  map (fun v => match v with Some y => Some y | None => Some x end) vs.

(** [series.fillna(value)]: every missing marker is replaced by the value;
    filling with NaN changes nothing.  The code fills a column with a value
    of the column's own kind only. *)
Definition fillna (value : cell) (c : column) : column :=
  match c, value with
  | Float64 vs, CFloat (Some q) => Float64 (fill q vs)
  | Object vs, CObj (Some s) => Object (fill s vs)
  | _, _ => c
  end.

Definition handle_nulls (df : DataFrame) : result DataFrame :=
  let df := copy df in
  let numeric_cols := select_dtypes is_numeric df in
  let* df :=
    for_each numeric_cols (fun col df =>
      let* c := getitem col df in
      if isna_any c then Ok (setitem col (fillna (median c) c) df)
      else Ok df) df in
  let cat_cols := select_dtypes is_object df in
  let* df :=
    for_each cat_cols (fun col df =>
      let* c := getitem col df in
      if isna_any c then
        let* m := first_item (mode c) in
        Ok (setitem col (fillna m c) df)
      else Ok df) df in
  Ok df.

(** ** 4.6 Integer Coercer *)

(** The nearest integer, a tie going to the even neighbour. *)
Definition round_half_even (q : Q) : Z :=
  let n := Qnum q in
  let d := Zpos (Qden q) in
  let f := n / d in
  let r := n mod d in
  if 2 * r <? d then f
  else if d <? 2 * r then f + 1
  else if Z.even f then f else f + 1.

(** [series.round(0)]: an integer column is returned as it is, a
    floating-point column stays floating-point. *)
Definition round0 (c : column) : column :=
  match c with
  | Float64 vs => Float64 (map (option_map (fun q => inject_Z (round_half_even q))) vs)
  | _ => c
  end.

(** The conversion of one floating-point value to int64: the fraction is
    dropped; outside the int64 range the conversion instruction of x86-64
    yields [INT64_MIN]. *)
Definition float_to_int64 (q : Q) : Z :=
  let z := Z.quot (Qnum q) (Zpos (Qden q)) in
  if in_int64 z then z else INT64_MIN.

Fixpoint all_some {A : Type} (l : list (option A)) : option (list A) :=
  match l with
  | [] => Some []
  | Some x :: l' => option_map (cons x) (all_some l')
  | None :: _ => None
  end.

Definition parse_int (s : string) : option Z :=
  match parse_number s with
  | Some (NInt z) => Some z
  | _ => None
  end.

(** [series.astype(int)]: pandas refuses a floating-point column that holds
    NaN or an infinity ([IntCastingNaNError]); a [Float64] column of the
    embedding holds no infinity.  A text column is converted cell by cell
    with [int]. *)
Definition astype_int (c : column) : result column :=
  match c with
  | Int64 vs => Ok (Int64 vs)
  | Float64 vs =>
      match all_some vs with
      | Some qs => Ok (Int64 (map float_to_int64 qs))
      | None => Raise IntCastingNaNError
      end
  | Object vs =>
      match all_some (map (fun v => match v with
                                    | Some s => parse_int s
                                    | None => None
                                    end) vs) with
      | Some zs => Ok (Int64 zs)
      | None => Raise ValueError
      end
  end.

Definition convert_numeric_to_int (df : DataFrame) : result DataFrame :=
  let df := copy df in
  let numeric_cols := select_dtypes is_numeric df in
  let* df :=
    for_each numeric_cols (fun col df =>
      update_col col (fun c => astype_int (round0 c)) df) df in
  Ok df.

(** ** 4.7 Deduplicator *)

Definition row : Type := list cell.

(** Equality of two cells as [duplicated] sees it: missing markers are
    equal to each other. *)
Definition cell_eqb (x y : cell) : bool :=
  match x, y with
  | CInt a, CInt b => a =? b
  | CFloat (Some a), CFloat (Some b) => Qeq_bool a b
  | CFloat None, CFloat None => true
  | CObj (Some a), CObj (Some b) => String.eqb a b
  | CObj None, CObj None => true
  | _, _ => false
  end.

Fixpoint row_eqb (r1 r2 : row) : bool :=
  match r1, r2 with
  | [], [] => true
  | x :: r1', y :: r2' => cell_eqb x y && row_eqb r1' r2'
  | _, _ => false
  end.

(** One more column in front of every row. *)
Fixpoint add_cells (cs : list cell) (rs : list row) : list row :=
  match cs, rs with
  | c :: cs', r :: rs' => (c :: r) :: add_cells cs' rs'
  | _, _ => []
  end.

(** The rows of a table, one per index label: row [i] holds cell [i] of
    every column, in column order. *)
Definition rows (df : DataFrame) : list row :=
  fold_right (fun nc rs => add_cells (cells (snd nc)) rs)
    (repeat [] (length (index df))) (cols df).

(** [df.empty]: no row or no column. *)
Definition empty (df : DataFrame) : bool :=
  ((length (index df) =? 0)%nat || (length (cols df) =? 0)%nat)%bool.

(** A row is marked when an equal row comes before it. *)
Fixpoint dup_first (seen : list row) (rs : list row) : list bool :=
  match rs with
  | [] => []
  | r :: rs' => existsb (row_eqb r) seen :: dup_first (r :: seen) rs'
  end.

(** A row is marked when an equal row comes after it. *)
Fixpoint dup_last (rs : list row) : list bool :=
  match rs with
  | [] => []
  | r :: rs' => existsb (row_eqb r) rs' :: dup_last rs'
  end.

(** [df.duplicated(keep=keep)] on a table that is not empty. *)
Definition duplicated (keep : string) (df : DataFrame) : result (list bool) :=
  if String.eqb keep "first" then Ok (dup_first [] (rows df))
  else if String.eqb keep "last" then Ok (dup_last (rows df))
  else Raise ValueError.

(** The entries of [l] whose mark is [false]. *)
Fixpoint unmarked {A : Type} (marks : list bool) (l : list A) : list A :=
  match marks, l with
  | m :: marks', x :: l' =>
      if m then unmarked marks' l' else x :: unmarked marks' l'
  | _, _ => []
  end.

Definition col_unmarked (marks : list bool) (c : column) : column :=
  match c with
  | Int64 vs => Int64 (unmarked marks vs)
  | Float64 vs => Float64 (unmarked marks vs)
  | Object vs => Object (unmarked marks vs)
  end.

(** [df[-marks]]: the rows that are not marked, with their index labels. *)
Definition drop_marked (marks : list bool) (df : DataFrame) : DataFrame :=
  mkDF (unmarked marks (index df))
       (map (fun nc => (fst nc, col_unmarked marks (snd nc))) (cols df)).

(** [df.drop_duplicates(keep=keep)]: pandas returns a copy of an empty
    table before it looks at [keep]. *)
Definition drop_duplicates (keep : string) (df : DataFrame) : result DataFrame :=
  if empty df then Ok (copy df)
  else
    let* marks := duplicated keep df in
    Ok (drop_marked marks df).

(** [df.reset_index(drop=True)] *)
Definition reset_index (df : DataFrame) : DataFrame :=
  mkDF (map Z.of_nat (seq 0 (length (index df)))) (cols df).

Definition handle_duplicates (df : DataFrame) (keep : string) : result DataFrame :=
  let df := copy df in
  let* df := drop_duplicates keep df in
  Ok (reset_index df).

(** ** 4.1, 4.8, 4.9 Loader, Persister, Driver *)

(** What a Python name can be bound to where the driver calls the loader. *)
Inductive pyobj : Type :=
| PyStr (s : string)
| PyModule (name : string).

(** The files: a path is mapped to the table its delimited text holds. *)
Definition files : Type := gmap string DataFrame.

(** [pd.read_csv(src)]: a text is a path; any object that is neither a
    path nor a readable buffer is refused with [ValueError]. *)
Definition read_csv (src : pyobj) (fs : files) : result DataFrame :=
  match src with
  | PyStr path =>
      match fs !! path with
      | Some df => Ok df
      | None => Raise FileNotFoundError
      end
  | PyModule _ => Raise ValueError
  end.

(** [import csv] binds the module-level name [csv] to the standard
    library's module. *)
Definition csv : pyobj := PyModule "csv".

Definition load_data (csv : pyobj) (fs : files) : result DataFrame :=
  read_csv csv fs.

(** [df.to_csv(output_path, index=False)]: the index is not written. *)
Definition save_cleaned_data (df : DataFrame) (output_path : string) (fs : files)
  : result files :=
  Ok (<[output_path := reset_index df]> fs).

Definition main (url : string) (output_path : string) (keep_duplicates : string)
  (fs : files) : result (DataFrame * files) :=
  let* df := load_data csv fs in
  let* df := clean_column_names df in
  let* df := clean_invalid_values df in
  let* df := format_data_types df in
  let* df := handle_nulls df in
  let* df := convert_numeric_to_int df in
  let* df := handle_duplicates df keep_duplicates in
  let* fs := save_cleaned_data df output_path fs in
  Ok (df, fs).

(** ** The object store

    A Python name holds a reference to a table object; assignments to
    [df.columns] and to [df[col]] change the object in place, and
    [df.copy()], [drop_duplicates] and [reset_index] make new objects.
    The steps are embedded once more over a store of objects, statement by
    statement. *)

Module Store.

Definition loc : Type := positive.

Abbreviation heap := (gmap loc DataFrame).

(** A computation reads and changes the store and returns a value or
    raises. *)
Definition M (A : Type) : Type := heap -> result A * heap.

Definition ret {A : Type} (a : A) : M A := fun h => (Ok a, h).

Definition lift {A : Type} (r : result A) : M A := fun h => (r, h).

Definition bind {A B : Type} (m : M A) (k : A -> M B) : M B :=
  fun h =>
    match m h with
    | (Ok a, h') => k a h'
    | (Raise e, h') => (Raise e, h')
    end.

Notation "x <- m ;; k" := (bind m (fun x => k))
  (at level 100, m at next level, right associativity).
Notation "m ;; k" := (bind m (fun _ => k))
  (at level 100, right associativity).

(** The object behind a reference. *)
Definition read (l : loc) : M DataFrame :=
  fun h =>
    match h !! l with
    | Some t => (Ok t, h)
    | None => (Raise KeyError, h)
    end.

(** An in-place change of the object behind a reference. *)
Definition write (l : loc) (t : DataFrame) : M unit :=
  fun h => (Ok tt, <[l := t]> h).

(** A new object. *)
Definition alloc (t : DataFrame) : M loc :=
  fun h => let l := fresh (dom h) in (Ok l, <[l := t]> h).

(** [df.copy()] *)
Definition copy (df : loc) : M loc :=
  t <- read df ;; alloc t.

(** [df.columns] *)
Definition get_columns (df : loc) : M (list string) :=
  t <- read df ;; ret (columns t).

(** [df.columns = names] *)
Definition set_columns (df : loc) (names : list string) : M unit :=
  t <- read df ;;
  t' <- lift (set_columns names t) ;;
  write df t'.

(** [name in df.columns] *)
Definition has_column (name : string) (df : loc) : M bool :=
  t <- read df ;; ret (has_column name t).

(** [df[name]]: the column as a value. *)
Definition getitem (df : loc) (name : string) : M column :=
  t <- read df ;; lift (getitem name t).

(** [df[name] = c] *)
Definition setitem (df : loc) (name : string) (c : column) : M unit :=
  t <- read df ;; write df (setitem name c t).

(** [df.select_dtypes(include=...).columns] *)
Definition select_dtypes (include : column -> bool) (df : loc) : M (list string) :=
  t <- read df ;; ret (select_dtypes include t).

Fixpoint for_each (names : list string) (body : string -> M unit) : M unit :=
  match names with
  | [] => ret tt
  | n :: ns => body n ;; for_each ns body
  end.

(** [df.drop_duplicates(keep=keep)]: a new object. *)
Definition drop_duplicates (df : loc) (keep : string) : M loc :=
  t <- read df ;;
  t' <- lift (drop_duplicates keep t) ;;
  alloc t'.

(** [df.reset_index(drop=True)]: a new object. *)
Definition reset_index (df : loc) : M loc :=
  t <- read df ;; alloc (reset_index t).

(** [df.columns.str] *)
Definition columns_str (df : loc) : M (list string) :=
  t <- read df ;; lift (columns_str t).

Definition clean_column_names (df : loc) : M loc :=
  df <- copy df ;;
  names <- columns_str df ;;
  set_columns df (map normalize_name names) ;;
  names <- get_columns df ;;
  set_columns df (map rename_st names) ;;
  ret df.

(** [if name in df.columns: df[name] = f(df[name])] *)
Definition update_if_present (df : loc) (name : string)
  (f : column -> result column) : M unit :=
  present <- has_column name df ;;
  if present : bool then
    c <- getitem df name ;;
    c' <- lift (f c) ;;
    setitem df name c'
  else ret tt.

Definition clean_invalid_values (df : loc) : M loc :=
  df <- copy df ;;
  update_if_present df "gender" (fun c => Ok (replace_values gender_map c)) ;;
  update_if_present df "state" (fun c => Ok (replace_values state_map c)) ;;
  update_if_present df "education" (fun c => Ok (replace_values education_map c)) ;;
  update_if_present df "customer_lifetime_value"
    (str_accessor_replace "%"%char "") ;;
  update_if_present df "vehicle_class"
    (fun c => Ok (replace_values vehicle_class_map c)) ;;
  ret df.

Definition format_data_types (df : loc) : M loc :=
  df <- copy df ;;
  update_if_present df "customer_lifetime_value" (fun c => Ok (to_numeric c)) ;;
  present <- has_column "number_of_open_complaints" df ;;
  (if present : bool then
     c <- getitem df "number_of_open_complaints" ;;
     c' <- lift (str_split_get "/"%char 1 (astype_str c)) ;;
     setitem df "number_of_open_complaints" c' ;;
     c <- getitem df "number_of_open_complaints" ;;
     setitem df "number_of_open_complaints" (to_numeric c)
   else ret tt) ;;
  ret df.

Definition handle_nulls (df : loc) : M loc :=
  df <- copy df ;;
  numeric_cols <- select_dtypes is_numeric df ;;
  for_each numeric_cols (fun col =>
    c <- getitem df col ;;
    if isna_any c then setitem df col (fillna (median c) c)
    else ret tt) ;;
  cat_cols <- select_dtypes is_object df ;;
  for_each cat_cols (fun col =>
    c <- getitem df col ;;
    if isna_any c then
      m <- lift (first_item (mode c)) ;;
      setitem df col (fillna m c)
    else ret tt) ;;
  ret df.

Definition convert_numeric_to_int (df : loc) : M loc :=
  df <- copy df ;;
  numeric_cols <- select_dtypes is_numeric df ;;
  for_each numeric_cols (fun col =>
    c <- getitem df col ;;
    c' <- lift (astype_int (round0 c)) ;;
    setitem df col c') ;;
  ret df.

Definition handle_duplicates (df : loc) (keep : string) : M loc :=
  df <- copy df ;;
  df <- drop_duplicates df keep ;;
  df <- reset_index df ;;
  ret df.

End Store.

(** ** Computations on one object *)

(** Started in any store where the object [l] is the table [t], the
    computation [m] gives the result [r], leaves the table [t1] in [l] and
    changes nothing else. *)
Definition runs {A : Type} (l : Store.loc) (t : DataFrame) (m : Store.M A)
  (r : result A) (t1 : DataFrame) : Prop :=
  forall h : gmap Store.loc DataFrame, m (<[l := t]> h) = (r, <[l := t1]> h).

(** The result of a table function, with the value [a] in place of the
    table. *)
Definition returning {A : Type} (a : A) (r : result DataFrame) : result A :=
  match r with
  | Ok _ => Ok a
  | Raise e => Raise e
  end.

(** The computation [m] does to the object [l] what the table function
    [f] does to a table: it returns [a] and leaves the table of [f] in
    [l], or raises what [f] raises. *)
Definition tracks {A : Type} (l : Store.loc) (m : Store.M A)
  (f : DataFrame -> result DataFrame) (a : A) : Prop :=
  forall t, exists t1,
    runs l t m (returning a (f t)) t1 /\
    (forall t', f t = Ok t' -> t1 = t').

(** The step [step] of the store, called on the reference [df] in the
    store [h], leaves the object of [df] as it was and every other object
    of [h] too; when the table function [f] returns a table, the step
    returns a reference that was not in use in [h] and now holds that
    table; when [f] raises, the step raises the same exception. *)
Definition works_on_copy (step : Store.loc -> Store.M Store.loc)
  (f : DataFrame -> result DataFrame)
  (h : gmap Store.loc DataFrame) (df : Store.loc) (t : DataFrame) : Prop :=
  snd (step df h) !! df = Some t /\
  h ⊆ snd (step df h) /\
  match f t with
  | Ok t' => exists l, fst (step df h) = Ok l /\
                       h !! l = None /\
                       snd (step df h) !! l = Some t'
  | Raise e => fst (step df h) = Raise e
  end.

(** ** Conditions on tables *)

(** The text has no occurrence of the separator. *)
Fixpoint no_sep (sep : ascii) (s : string) : bool :=
  match s with
  | EmptyString => true
  | String c s' => negb (Ascii.eqb c sep) && no_sep sep s'
  end.

(** No numeric column holds a missing marker: the precondition of the
    Integer Coercer. *)
Definition numeric_complete (df : DataFrame) : bool :=
  forallb (fun nc => implb (is_numeric (snd nc)) (negb (isna_any (snd nc)))) (cols df).

(** ** The steps in the words of the specification

    These definitions follow the specification, not the code; the
    properties below compare the code with them. *)

(** The number of a complaint code ["A/B/C"]: the piece at position 1 of
    the text split at ["/"], read as a number; missing when there is no
    such piece or the piece is not a number. *)
Definition complaint_number (s : string) : option Q :=
  match nth_error (str_split "/"%char s) 1 with
  | Some m => option_map number_value (parse_number m)
  | None => None
  end.

(** A column has at least one value that is not missing. *)
Definition has_value (c : column) : bool :=
  existsb (fun x => negb (is_missing x)) (cells c).

(** A numeric column with its missing values replaced by the median of its
    values, a text column with its missing values replaced by its mode. *)
Definition fill_missing (c : column) : column :=
  match c with
  | Int64 vs => Int64 vs
  | Float64 vs =>
      match median_of (dropna vs) with
      | Some m => Float64 (fill m vs)
      | None => Float64 vs
      end
  | Object vs =>
      match modes String.eqb String.leb (dropna vs) with
      | m :: _ => Object (fill m vs)
      | [] => Object vs
      end
  end.

(** Every column with a missing marker has at least one value. *)
Definition fillable (df : DataFrame) : bool :=
  forallb (fun nc => implb (isna_any (snd nc)) (has_value (snd nc))) (cols df).

(** A numeric column with every value rounded half-to-even and held as an
    integer. *)
Definition rounded (c : column) : column :=
  match c with
  | Int64 vs => Int64 vs
  | Float64 vs =>
      Int64 (map (fun q => float_to_int64 (inject_Z (round_half_even q))) (dropna vs))
  | Object vs => Object vs
  end.

(** ** Sample tables *)

Definition numeric_clv_table : DataFrame :=
  mkDF [0; 1]
    [("gender", Object [Some "Male"; Some "F"]);
     ("customer_lifetime_value", Float64 [Some (Qmake 21 2); None])].

Definition all_missing_text_table : DataFrame :=
  mkDF [0; 1]
    [("income", Float64 [Some (inject_Z 100); None]);
     ("education", Object [None; None])].


Definition rounding_table : DataFrame :=
  mkDF [0; 1]
    [("premium", Float64 [Some (Qmake 5 2); Some (Qmake 7 2)]);
     ("policy", Object [Some "basic"; None]);
     ("claims", Int64 [3; 4])].

Definition nulls_table : DataFrame :=
  mkDF [0; 1; 2; 3]
    [("income", Float64 [Some (inject_Z 10); Some (inject_Z 20); None; Some (inject_Z 40)]);
     ("education", Object [Some "Master"; None; Some "Bachelor"; Some "Master"]);
     ("claims", Int64 [0; 1; 0; 2])].

Definition all_missing_numeric_table : DataFrame :=
  mkDF [0; 1] [("income", Float64 [None; None])].

Definition duplicates_table : DataFrame :=
  mkDF [10; 11; 12; 13]
    [("state", Object [Some "Arizona"; Some "Arizona"; Some "Oregon"; Some "Arizona"]);
     ("income", Float64 [Some (Qmake 1 2); Some (Qmake 2 4); None; Some (inject_Z 3)])].

Definition no_rows_table : DataFrame :=
  mkDF [] [("state", Object [])].

Definition sample_store : gmap Store.loc DataFrame :=
  {[ 1%positive := nulls_table ]}.

(** ** Further conditions and descriptions of the steps *)

Fixpoint all_chars (p : ascii -> bool) (s : string) : bool :=
  match s with
  | EmptyString => true
  | String c s' => p c && all_chars p s'
  end.

Definition is_upper (c : ascii) : bool :=
  let n := nat_of_ascii c in ((65 <=? n)%nat && (n <=? 90)%nat)%bool.

(** A label in the form the Column Normalizer produces: no space and no
    upper-case ASCII letter. *)
Definition normal_label (s : string) : bool :=
  all_chars (fun c => negb (Ascii.eqb c " ") && negb (is_upper c)) s.

(** The label a column gets from the Column Normalizer. *)
Definition new_label (n : string) : string := rename_st (normalize_name n).

(** [customer_lifetime_value] without its percent signs; a column that is
    not text is left as it is. *)
Definition strip_percent (c : column) : column :=
  match c with
  | Object vs => Object (map (option_map (str_replace "%"%char "")) vs)
  | _ => c
  end.

(** What the Value Normalizer does to the column with the label [name]. *)
Definition normalized_values (name : string) (c : column) : column :=
  if String.eqb name "gender" then replace_values gender_map c
  else if String.eqb name "state" then replace_values state_map c
  else if String.eqb name "education" then replace_values education_map c
  else if String.eqb name "customer_lifetime_value" then strip_percent c
  else if String.eqb name "vehicle_class" then replace_values vehicle_class_map c
  else c.

(** [customer_lifetime_value] is a text column or is absent. *)
Definition clv_is_text (df : DataFrame) : bool :=
  match lookup_col "customer_lifetime_value" (cols df) with
  | Some c => is_object c
  | None => true
  end.

(** The piece at position 1 of the text of every cell. *)
Definition middle_piece (c : column) : column :=
  Object (map (fun x => nth_error (str_split "/"%char (cell_text x)) 1) (cells c)).

(** What the Type Formatter does to the column with the label [name]. *)
Definition formatted (name : string) (c : column) : column :=
  if String.eqb name "customer_lifetime_value" then to_numeric c
  else if String.eqb name "number_of_open_complaints" then to_numeric (middle_piece c)
  else c.

Definition collision_table : DataFrame :=
  mkDF [0] [("ST", Object [Some "AZ"]); ("State", Object [Some "Oregon"])].

Definition values_table : DataFrame :=
  mkDF [0; 1; 2]
    [("gender", Object [Some "Male"; None; Some "F"]);
     ("customer_lifetime_value", Object [Some "12.5%"; Some "7"; None]);
     ("number_of_open_complaints", Object [Some "1/0/00"; Some "1/2/00"; Some "1/1/00"]);
     ("income", Int64 [10; 20; 30])].

(** The column with the label [n] replaced by [f] of it; a column with
    another label is kept. *)
Definition on_label (n : string) (f : column -> column)
  (nc : string * column) : string * column :=
  (fst nc, if String.eqb (fst nc) n then f (snd nc) else snd nc).

Definition values_table_cleaned : DataFrame :=
  mkDF [0; 1; 2]
    [("gender", Object [Some "M"; None; Some "F"]);
     ("customer_lifetime_value", Object [Some "12.5"; Some "7"; None]);
     ("number_of_open_complaints", Object [Some "1/0/00"; Some "1/2/00"; Some "1/1/00"]);
     ("income", Int64 [10; 20; 30])].

(** Every text column with a missing marker has at least one value: the
    Null Handler can take its mode. *)
Definition text_fillable (df : DataFrame) : bool :=
  forallb (fun nc => implb (is_object (snd nc) && isna_any (snd nc)) (has_value (snd nc)))
    (cols df).

Definition is_float (c : column) : bool :=
  match c with
  | Float64 _ => true
  | _ => false
  end.

Definition nulls_table_filled : DataFrame :=
  mkDF [0; 1; 2; 3]
    [("income", Float64 [Some (inject_Z 10); Some (inject_Z 20);
                         Some (inject_Z 20); Some (inject_Z 40)]);
     ("education", Object [Some "Master"; Some "Master"; Some "Bachelor"; Some "Master"]);
     ("claims", Int64 [0; 1; 0; 2])].

Definition rounding_table_rounded : DataFrame :=
  mkDF [0; 1]
    [("premium", Int64 [2; 4]);
     ("policy", Object [Some "basic"; None]);
     ("claims", Int64 [3; 4])].

Definition nan_premium_table : DataFrame :=
  mkDF [0; 1]
    [("claims", Int64 [3; 4]);
     ("premium", Float64 [Some (Qmake 5 2); None])].

(** No two rows of the table are equal. *)
Definition rows_distinct (df : DataFrame) : Prop :=
  forall i j r r', (i < j)%nat ->
    nth_error (rows df) i = Some r -> nth_error (rows df) j = Some r' ->
    row_eqb r r' = false.

Definition distinct_rows_table : DataFrame :=
  mkDF [7; 8; 9]
    [("state", Object [Some "Arizona"; Some "Oregon"; Some "Arizona"]);
     ("income", Float64 [Some (Qmake 1 2); None; Some (inject_Z 3)])].

Definition duplicates_table_first : DataFrame :=
  mkDF [0; 1; 2]
    [("state", Object [Some "Arizona"; Some "Oregon"; Some "Arizona"]);
     ("income", Float64 [Some (Qmake 1 2); None; Some (inject_Z 3)])].

Definition tie_table : DataFrame :=
  mkDF [0; 1; 2; 3; 4]
    [("education",
      Object [Some "Master"; Some "Bachelor"; None; Some "Master"; Some "Bachelor"])].

Definition tie_table_filled : DataFrame :=
  mkDF [0; 1; 2; 3; 4]
    [("education",
      Object [Some "Master"; Some "Bachelor"; Some "Bachelor"; Some "Master";
              Some "Bachelor"])].

(** No column that the Column Normalizer labels
    [customer_lifetime_value] is numeric. *)
Definition relabelled_clv_is_text (df : DataFrame) : bool :=
  forallb (fun nc => implb (String.eqb (new_label (fst nc)) "customer_lifetime_value")
                       (is_object (snd nc))) (cols df).

Definition raw_table : DataFrame :=
  mkDF [0; 1]
    [("ST", Object [Some "AZ"; Some "Oregon"]);
     ("Customer Lifetime Value", Object [Some "10.50%"; None])].

(** ** The labels in the words of the specification *)

(** One character of a label lower-cased and with the space replaced by
    the underscore, letter by letter. *)
Definition lowered_char (c : ascii) : ascii :=
  match c with
  | "A" => "a" | "B" => "b" | "C" => "c" | "D" => "d" | "E" => "e"
  | "F" => "f" | "G" => "g" | "H" => "h" | "I" => "i" | "J" => "j"
  | "K" => "k" | "L" => "l" | "M" => "m" | "N" => "n" | "O" => "o"
  | "P" => "p" | "Q" => "q" | "R" => "r" | "S" => "s" | "T" => "t"
  | "U" => "u" | "V" => "v" | "W" => "w" | "X" => "x" | "Y" => "y"
  | "Z" => "z"
  | " " => "_"
  | _ => c
  end%char.

(** A label after lowercasing and replacing spaces with underscores. *)
Fixpoint lowered_underscored (s : string) : string :=
  match s with
  | EmptyString => EmptyString
  | String c s' => String (lowered_char c) (lowered_underscored s')
  end.

(** The label holds ASCII characters only.  On such a label Python's
    [str.lower] changes the letters A to Z and nothing else; what it does to
    other letters is outside the embedding. *)
Definition ascii_text (s : string) : bool :=
  all_chars (fun c => (nat_of_ascii c <? 128)%nat) s.

(** The labels that read ["st"] when case is ignored. *)
Definition st_spellings : list string := ["st"; "St"; "sT"; "ST"].

(** Two labels that the Column Normalizer cannot keep apart: they agree
    up to the case of their letters and space against underscore, or one
    reads ["st"] and the other ["state"]. *)
Definition alike (a b : string) : Prop :=
  lowered_underscored a = lowered_underscored b \/
  (lowered_underscored a = "st" /\ lowered_underscored b = "state") \/
  (lowered_underscored a = "state" /\ lowered_underscored b = "st").

Definition labels_table : DataFrame :=
  mkDF [0]
    [("ST", Object [Some "AZ"]);
     ("Status", Object [Some "open"]);
     ("Customer Lifetime Value", Object [Some "10.50%"])].

(** ** Decimal numerals

    What the specification calls a numeric text, written out: the texts
    and their numbers, independently of the reader [parse_number]. *)

Definition is_digit (c : ascii) : bool :=
  let n := nat_of_ascii c in ((48 <=? n)%nat && (n <=? 57)%nat)%bool.

(** The number that a string of decimal digits writes, digit by digit
    with the place of each. *)
Fixpoint decimal (s : string) : Z :=
  match s with
  | EmptyString => 0
  | String c s' =>
      (Z.of_nat (nat_of_ascii c) - 48) * 10 ^ Z.of_nat (String.length s') + decimal s'
  end.

Definition is_sign (s : string) : bool :=
  (String.eqb s "" || String.eqb s "+" || String.eqb s "-")%bool.

Definition sign_of (s : string) : Z := if String.eqb s "-" then -1 else 1.

(** A decimal numeral: a sign, the digits before the point, the digits
    after the point when there is a point, and the exponent (its mark, its
    sign, its digits) when there is one. *)
Record numeral : Type := mkNumeral {
  num_sign : string;
  num_int : string;
  num_frac : option string;
  num_exp : option (ascii * string * string)
}.

Definition frac_of (n : numeral) : string :=
  match num_frac n with
  | Some f => f
  | None => ""
  end.

Definition exp_text (n : numeral) : string :=
  match num_exp n with
  | Some (m, sg, ds) => String m (sg ++ ds)
  | None => ""
  end.

Definition numeral_text (n : numeral) : string :=
  (num_sign n ++ num_int n ++
   match num_frac n with
   | Some f => "." ++ f ++ exp_text n
   | None => exp_text n
   end)%string.

(** The power of ten that the last digit of the numeral counts. *)
Definition numeral_exponent (n : numeral) : Z :=
  match num_exp n with
  | Some (_, sg, ds) => sign_of sg * decimal ds
  | None => 0
  end - Z.of_nat (String.length (frac_of n)).

Definition numeral_value (n : numeral) : Q :=
  inject_Z (sign_of (num_sign n) * decimal (num_int n ++ frac_of n))
  * inject_Z 10 ^ numeral_exponent n.

(** A numeral that pandas reads with one correctly rounded operation: at
    least one and at most 15 digits, and a power of ten of at most 22
    either way. *)
Definition short_numeral (n : numeral) : bool :=
  (is_sign (num_sign n) &&
   all_chars is_digit (num_int n) && all_chars is_digit (frac_of n) &&
   (1 <=? String.length (num_int n) + String.length (frac_of n))%nat &&
   (String.length (num_int n) + String.length (frac_of n) <=? 15)%nat &&
   match num_exp n with
   | Some (m, sg, ds) =>
       (Ascii.eqb m "e" || Ascii.eqb m "E") && is_sign sg &&
       all_chars is_digit ds &&
       (1 <=? String.length ds)%nat && (String.length ds <=? 15)%nat
   | None => true
   end &&
   (-22 <=? numeral_exponent n) && (numeral_exponent n <=? 22))%bool.

(** A finite binary64 number: [m * 2^e] with [|m| < 2^53] and
    [-1074 <= e <= 971]. *)
Definition binary64 (q : Q) : Prop :=
  exists m e : Z,
    Z.abs m < 2 ^ 53 /\ -1074 <= e <= 971 /\ (q == inject_Z m * inject_Z 2 ^ e)%Q.

(** [q] is [x] up to one rounding to binary64 in the normal range: the
    relative error is at most [2^-53]. *)
Definition rounding_of (x q : Q) : Prop :=
  (Qabs (q - x) <= Qabs x / inject_Z (2 ^ 53))%Q.

(** The text does not start with a character of the kind [p]. *)
Definition head_not (p : ascii -> bool) (s : string) : bool :=
  match s with
  | String c _ => negb (p c)
  | EmptyString => true
  end.

Definition is_sign_char (c : ascii) : bool := (Ascii.eqb c "+" || Ascii.eqb c "-")%bool.

(** A character that a numeral can hold. *)
Definition numeral_char (c : ascii) : bool :=
  (is_digit c || is_space c ||
   Ascii.eqb c "+" || Ascii.eqb c "-" || Ascii.eqb c "." ||
   Ascii.eqb c "e" || Ascii.eqb c "E")%bool.

Fixpoint some_char (p : ascii -> bool) (s : string) : bool :=
  match s with
  | EmptyString => false
  | String c s' => p c || some_char p s'
  end.

(** A text that is no numeral for sure: it has no digit, or it has a
    character that no numeral holds. *)
Definition not_numeral (s : string) : bool :=
  (negb (some_char is_digit s) || some_char (fun c => negb (numeral_char c)) s)%bool.

(** The text [p] occurs in the text [s]. *)
Fixpoint occurs (p s : string) : bool :=
  (String.prefix p s ||
   match s with
   | EmptyString => false
   | String _ s' => occurs p s'
   end)%bool.

(** The text spells an infinity or could: ["inf"] occurs in it, in any
    case.  pandas reads ["inf"] and ["infinity"] with an optional sign as
    infinite numbers. *)
Definition mentions_inf (s : string) : bool := occurs "inf" (str_lower s).


(** The text with every occurrence of the character [x] left out. *)
Fixpoint without_char (x : ascii) (s : string) : string :=
  match s with
  | EmptyString => EmptyString
  | String c s' =>
      if Ascii.eqb c x then without_char x s' else String c (without_char x s')
  end.

(** ** Floating-point values within bounds *)

(** Every floating-point value of the table is below [2^e] in magnitude.
    The finite binary64 numbers are below [2^1024]; the sum of two numbers
    below [2^1023] is finite. *)
Definition floats_below (e : Z) (df : DataFrame) : bool :=
  forallb (fun nc =>
             match snd nc with
             | Float64 vs =>
                 forallb (fun v => match v with
                                   | Some q => negb (Qle_bool (inject_Z (2 ^ e)) (Qabs q))
                                   | None => true
                                   end) vs
             | _ => true
             end) (cols df).

(** [m] is the mean of [a] and [b] as floating-point arithmetic gives it:
    the sum is rounded to binary64 (relative error at most [2^-53]) and
    halved (exactly, or within [2^-1075] at the bottom of the range). *)
Definition rounded_mean (a b m : Q) : Prop :=
  (Qabs (2 * m - (a + b)) <= Qabs (a + b) / inject_Z (2 ^ 53) + 1 / inject_Z (2 ^ 1074))%Q.

(** [m] is the median of the numbers [l]: the middle of [l] in increasing
    order; for an even count it lies between the two in the middle and is
    their mean. *)
Definition is_median (m : Q) (l : list Q) : Prop :=
  exists s,
    Permutation s l /\ Sorted Qle s /\
    if Nat.odd (length l) then nth_error s (length l / 2) = Some m
    else exists a b,
        nth_error s (length l / 2 - 1) = Some a /\
        nth_error s (length l / 2) = Some b /\
        (a <= m)%Q /\ (m <= b)%Q /\ rounded_mean a b m.

(** [m] is a mode of the texts [l]: one of them, and none occurs more
    often. *)
Definition is_mode (m : string) (l : list string) : Prop :=
  In m l /\ forall x, (count String.eqb x l <= count String.eqb m l)%nat.

(** The column [c'] is the column [c] with its missing values filled: an
    integer column and a column without a missing marker as they are, a
    floating-point column with its median and a text column with a mode in
    the place of every missing marker. *)
Definition filled_from (c c' : column) : Prop :=
  match c with
  | Int64 _ => c' = c
  | Float64 vs =>
      (isna_any c = false /\ c' = c) \/
      (exists m, c' = Float64 (fill m vs) /\ is_median m (dropna vs))
  | Object vs =>
      (isna_any c = false /\ c' = c) \/
      (exists m, c' = Object (fill m vs) /\ is_mode m (dropna vs))
  end.


(** * Properties *)

(** ** Checks of the embedding on concrete values *)

Example parse_ex1 : parse_number "5" = Some (NInt 5).
Proof. reflexivity. Qed.

Example parse_ex2 : parse_number " -10.50 " = Some (NFloat (Qmake (-1050) 100)).
Proof. reflexivity. Qed.

Example parse_ex3 : parse_number "1e3" = Some (NFloat (inject_Z 1000)).
Proof. reflexivity. Qed.

Example parse_ex4 : parse_number "5e" = None.
Proof. reflexivity. Qed.

Example parse_ex5 : parse_number "." = None.
Proof. reflexivity. Qed.

Example parse_ex6 : parse_number "no-slash" = None.
Proof. reflexivity. Qed.

Example repr_ex1 : Z_repr (-1205) = "-1205".
Proof. reflexivity. Qed.

Example repr_ex2 : float_repr (Qmake (-5) 2) = "-2.5".
Proof. reflexivity. Qed.

Example repr_ex3 : float_repr (inject_Z 40) = "40.0".
Proof. reflexivity. Qed.

Example repr_ex4 : Z_repr 0 = "0".
Proof. reflexivity. Qed.

Example median_ex1 :
  median (Float64 [Some (inject_Z 10); Some (inject_Z 20); None; Some (inject_Z 40)])
  = CFloat (Some (inject_Z 20)).
Proof. reflexivity. Qed.

Example median_ex2 :
  median (Float64 [Some (inject_Z 3); None; Some (inject_Z 1); Some (inject_Z 2); Some (inject_Z 6)])
  = CFloat (Some (Qmake 5 2)).
Proof. reflexivity. Qed.

Example mode_ex1 :
  mode (Object [Some "b"; None; Some "a"; Some "b"; Some "a"; Some "c"])
  = Object [Some "a"; Some "b"].
Proof. reflexivity. Qed.

Example round_ex1 : round_half_even (Qmake 5 2) = 2.
Proof. reflexivity. Qed.

Example round_ex2 : round_half_even (Qmake 7 2) = 4.
Proof. reflexivity. Qed.

Example round_ex3 : round_half_even (Qmake (-5) 2) = -2.
Proof. reflexivity. Qed.

Example round_ex4 : round_half_even (Qmake (-7) 2) = -4.
Proof. reflexivity. Qed.

Example round_ex5 : round_half_even (Qmake 1050 100) = 10.
Proof. reflexivity. Qed.

(** ** Column Normalizer *)

Section ColumnNames.

Lemma lower_char_idem (c : ascii) : lower_char (lower_char c) = lower_char c.
Proof. destruct c as [[] [] [] [] [] [] [] []]; reflexivity. Qed.

Lemma lower_char_space (c : ascii) :
  Ascii.eqb (lower_char c) " " = Ascii.eqb c " ".
Proof. destruct c as [[] [] [] [] [] [] [] []]; reflexivity. Qed.

Lemma normalize_name_cons (c : ascii) (s : string) :
  normalize_name (String c s)
  = String (if Ascii.eqb c " " then "_"%char else lower_char c) (normalize_name s).
Proof.
  unfold normalize_name. simpl. rewrite lower_char_space.
  now destruct (Ascii.eqb c " ").
Qed.

Lemma normalize_name_idem (s : string) :
  normalize_name (normalize_name s) = normalize_name s.
Proof.
  induction s as [|c s IH]; [reflexivity|].
  rewrite !normalize_name_cons, IH. f_equal.
  destruct (Ascii.eqb c " ") eqn:E; [reflexivity|].
  rewrite lower_char_space, E. apply lower_char_idem.
Qed.

Lemma set_columns_map (f : string -> string) (df : DataFrame) :
  set_columns (map f (columns df)) df
  = Ok (mkDF (index df) (map (fun nc => (f (fst nc), snd nc)) (cols df))).
Proof.
  unfold set_columns, columns.
  rewrite !length_map, Nat.eqb_refl. do 2 f_equal.
  induction (cols df) as [|[n c] l IH]; simpl; [reflexivity | now rewrite IH].
Qed.

Lemma columns_str_Ok (df : DataFrame) :
  cols df <> [] -> columns_str df = Ok (columns df).
Proof.
  unfold columns_str, columns. destruct (cols df) as [|nc cs]; [congruence | reflexivity].
Qed.

Lemma clean_column_names_eq (df : DataFrame) :
  cols df <> [] ->
  clean_column_names df
  = Ok (mkDF (index df)
          (map (fun nc => (rename_st (normalize_name (fst nc)), snd nc)) (cols df))).
Proof.
  intros H. unfold clean_column_names, copy.
  rewrite (columns_str_Ok df H). cbn [bind].
  rewrite set_columns_map; simpl.
  rewrite set_columns_map; simpl.
  now rewrite map_map.
Qed.

(** A table without columns has no text accessor on its column index. *)
Lemma clean_column_names_no_columns (df : DataFrame) :
  cols df = [] -> clean_column_names df = Raise AttributeError.
Proof.
  intros H. unfold clean_column_names, copy, columns_str, columns. now rewrite H.
Qed.

Lemma clean_column_names_Ok (df df' : DataFrame) :
  clean_column_names df = Ok df' ->
  cols df <> [] /\
  df' = mkDF (index df)
          (map (fun nc => (rename_st (normalize_name (fst nc)), snd nc)) (cols df)).
Proof.
  intros H. destruct (cols df) as [|nc cs] eqn:E.
  - rewrite clean_column_names_no_columns in H by exact E. discriminate.
  - assert (Hne : cols df <> []) by (rewrite E; discriminate).
    rewrite (clean_column_names_eq df Hne), E in H.
    split; [discriminate | congruence].
Qed.

Lemma rename_st_fires (n : string) :
  rename_st n <> n <-> n = "st".
Proof.
  unfold rename_st. destruct (String.eqb n "st") eqn:E.
  - apply String.eqb_eq in E. subst. split; [reflexivity | discriminate].
  - apply String.eqb_neq in E. split; intros H; [now elim H | contradiction].
Qed.

Lemma rename_st_state (n : string) :
  rename_st n = "state" <-> n = "st" \/ n = "state".
Proof.
  unfold rename_st. destruct (String.eqb n "st") eqn:E.
  - apply String.eqb_eq in E. tauto.
  - apply String.eqb_neq in E. split; [tauto | intros [H|H]; congruence].
Qed.

Lemma new_name_idem (n : string) :
  rename_st (normalize_name (rename_st (normalize_name n)))
  = rename_st (normalize_name n).
Proof.
  unfold rename_st at 2 3.
  destruct (String.eqb (normalize_name n) "st") eqn:E; [reflexivity|].
  rewrite normalize_name_idem. unfold rename_st. now rewrite E.
Qed.

(** The two passes of the code over a label, [lower] and then [replace],
    are the specification's one pass over its characters. *)
Lemma normalize_name_spec (s : string) : normalize_name s = lowered_underscored s.
Proof.
  induction s as [|c s IH]; [reflexivity|].
  rewrite normalize_name_cons, IH. cbn [lowered_underscored]. f_equal.
  clear. destruct c as [[] [] [] [] [] [] [] []]; reflexivity.
Qed.

Lemma lowered_char_s (c : ascii) :
  lowered_char c = "s"%char <-> c = "s"%char \/ c = "S"%char.
Proof.
  destruct c as [[] [] [] [] [] [] [] []]; cbn; split;
    first [ discriminate | intros [H|H]; discriminate H | tauto ].
Qed.

Lemma lowered_char_t (c : ascii) :
  lowered_char c = "t"%char <-> c = "t"%char \/ c = "T"%char.
Proof.
  destruct c as [[] [] [] [] [] [] [] []]; cbn; split;
    first [ discriminate | intros [H|H]; discriminate H | tauto ].
Qed.

(** Exactly four labels read ["st"]. *)
Lemma lowered_st (n : string) :
  lowered_underscored n = "st" <-> In n st_spellings.
Proof.
  unfold st_spellings. split.
  - destruct n as [|c1 [|c2 [|c3 n]]]; cbn [lowered_underscored]; try discriminate.
    intros H. injection H as H1 H2.
    apply lowered_char_s in H1. apply lowered_char_t in H2.
    destruct H1 as [-> | ->], H2 as [-> | ->]; simpl; tauto.
  - simpl. intros [<- | [<- | [<- | [<- | []]]]]; reflexivity.
Qed.

Lemma new_label_spec (n : string) :
  rename_st (normalize_name n)
  = if String.eqb (lowered_underscored n) "st" then "state" else lowered_underscored n.
Proof. unfold rename_st. now rewrite normalize_name_spec. Qed.

Lemma nth_error_columns (df : DataFrame) (f : string -> string) (i : nat) (n : string) :
  nth_error (columns df) i = Some n ->
  nth_error (columns (mkDF (index df) (map (fun nc => (f (fst nc), snd nc)) (cols df)))) i
  = Some (f n).
Proof.
  unfold columns. cbn [cols]. rewrite map_map. cbn [fst].
  rewrite <- (map_map fst f). intros H. now rewrite (map_nth_error f _ _ H).
Qed.

End ColumnNames.

(** C4. On a table with at least one column the Column Normalizer returns
    a table with the same index and the same data under new labels.  A
    column comes out as ["state"] if and only if its label, after
    lowercasing and replacing spaces with underscores, is exactly ["st"]
    or is ["state"] already; the labels that read ["st"] are ["st"],
    ["St"], ["sT"] and ["ST"] and no other.  For a label [n] of ASCII
    characters the new label is ["state"] when [n] reads ["st"] and is [n]
    lowercased with underscores for spaces otherwise, so the rename
    changes the lowercased label if and only if that label is exactly
    ["st"]; a label that reads ["status"] stays ["status"]. *)
Theorem clean_column_names_exact_rename (df : DataFrame) :
  cols df <> [] ->
  exists df',
    clean_column_names df = Ok df' /\
    index df' = index df /\
    map snd (cols df') = map snd (cols df) /\
    length (columns df') = length (columns df) /\
    forall i n, nth_error (columns df) i = Some n ->
      exists m,
        nth_error (columns df') i = Some m /\
        (m = "state" <->
         lowered_underscored n = "st" \/ lowered_underscored n = "state") /\
        (lowered_underscored n = "st" <-> In n st_spellings) /\
        (ascii_text n = true ->
         (In n st_spellings -> m = "state") /\
         (~ In n st_spellings -> m = lowered_underscored n) /\
         (m <> lowered_underscored n <-> lowered_underscored n = "st") /\
         (lowered_underscored n = "status" -> m = "status")).
Proof.
  intros Hne. eexists. split; [apply (clean_column_names_eq df Hne)|].
  cbn [index cols].
  split; [reflexivity|].
  split; [rewrite map_map; apply map_ext; now intros []|].
  split; [unfold columns; cbn [cols]; now rewrite !length_map|].
  intros i n Hi.
  exists (rename_st (normalize_name n)).
  split; [exact (nth_error_columns df (fun n => rename_st (normalize_name n)) i n Hi)|].
  rewrite new_label_spec. rewrite <- lowered_st.
  destruct (String.eqb_spec (lowered_underscored n) "st") as [E|E].
  - rewrite E. repeat split; try tauto; try congruence; try discriminate.
  - repeat split; try tauto; try congruence.
Qed.

Lemma clean_column_names_exact_rename_witness :
  exists df',
    clean_column_names labels_table = Ok df' /\
    nth_error (columns df') 0 = Some "state" /\
    nth_error (columns df') 1 = Some "status" /\
    nth_error (columns df') 2 = Some "customer_lifetime_value".
Proof.
  destruct (clean_column_names_exact_rename labels_table) as (df' & H & _ & _ & _ & Hl);
    [discriminate|].
  exists df'. split; [exact H|].
  destruct (Hl 0%nat "ST" eq_refl) as (m0 & H0 & _ & _ & A0).
  destruct (Hl 1%nat "Status" eq_refl) as (m1 & H1 & _ & _ & A1).
  destruct (Hl 2%nat "Customer Lifetime Value" eq_refl) as (m2 & H2 & _ & _ & A2).
  destruct (A0 eq_refl) as (E0 & _).
  destruct (A1 eq_refl) as (_ & _ & _ & E1).
  destruct (A2 eq_refl) as (_ & E2 & _).
  rewrite H0, H1, H2, E0, (E1 eq_refl), E2.
  - repeat split; reflexivity.
  - simpl. intros [H'|[H'|[H'|[H'|[]]]]]; discriminate H'.
  - simpl. tauto.
Defined.

(** C7. The Column Normalizer is idempotent: when it returns, a second run
    on the table it returned returns that table. *)
Theorem clean_column_names_idempotent (df df' : DataFrame) :
  clean_column_names df = Ok df' ->
  clean_column_names df' = Ok df'.
Proof.
  intros H. apply clean_column_names_Ok in H as [Hne ->].
  rewrite clean_column_names_eq.
  - cbn [index cols]. do 2 f_equal.
    rewrite map_map. apply map_ext. intros [n c]. cbn [fst snd].
    now rewrite new_name_idem.
  - cbn [cols]. destruct (cols df); [congruence | discriminate].
Qed.

Lemma clean_column_names_idempotent_witness :
  exists df',
    clean_column_names labels_table = Ok df' /\
    clean_column_names df' = Ok df'.
Proof.
  eexists. split; [reflexivity|].
  apply (clean_column_names_idempotent labels_table). reflexivity.
Defined.

(** ** Driver *)

(** The steps after the loader, on a table that is already in memory: the
    end-to-end scenario of the specification. *)
Example pipeline_scenario :
  (let* df := clean_column_names
      (mkDF [0]
         [("ST", Object [Some "AZ"]);
          ("Gender", Object [Some "female"]);
          ("Education", Object [Some "Bachelors"]);
          ("Customer Lifetime Value", Object [Some "10.50%"]);
          ("Number of Open Complaints", Object [Some "1/2/00"]);
          ("Vehicle Class", Object [Some "Sports Car"])]) in
   let* df := clean_invalid_values df in
   let* df := format_data_types df in
   let* df := handle_nulls df in
   let* df := convert_numeric_to_int df in
   handle_duplicates df "first")
  = Ok (mkDF [0]
         [("state", Object [Some "Arizona"]);
          ("gender", Object [Some "F"]);
          ("education", Object [Some "Bachelor"]);
          ("customer_lifetime_value", Int64 [10]);
          ("number_of_open_complaints", Int64 [2]);
          ("vehicle_class", Object [Some "Luxury"])]).
Proof. reflexivity. Qed.

(** C1. The driver passes the module [csv] to the loader, not its [url]
    argument: whatever the input path, the output path, the keep policy and
    the files are, the call raises [ValueError] in the loader.  No table is
    loaded from the supplied path, no step runs, nothing is written and no
    table is returned. *)
Theorem main_raises_on_every_call
  (url output_path keep_duplicates : string) (fs : files) :
  main url output_path keep_duplicates fs = Raise ValueError.
Proof. reflexivity. Qed.

(** ** Tables: lookup and assignment *)

Section TableLemmas.

Implicit Types (n m : string) (c : column) (cs : list (string * column)).

Lemma has_column_lookup n df :
  has_column n df = match lookup_col n (cols df) with Some _ => true | None => false end.
Proof.
  unfold has_column, columns.
  induction (cols df) as [|[k c] cs IH]; simpl; [reflexivity|].
  rewrite (String.eqb_sym n k). destruct (String.eqb k n); [reflexivity | exact IH].
Qed.

Lemma lookup_assign m n c cs :
  lookup_col m (assign_col n c cs) = if String.eqb n m then Some c else lookup_col m cs.
Proof.
  induction cs as [|[k c0] cs IH]; simpl.
  - destruct (String.eqb n m); reflexivity.
  - destruct (String.eqb k n) eqn:E; simpl.
    + apply String.eqb_eq in E. subst k.
      destruct (String.eqb n m); reflexivity.
    + rewrite IH. destruct (String.eqb n m) eqn:E'; [|reflexivity].
      apply String.eqb_eq in E'. subst m. now rewrite E.
Qed.

Lemma assign_same n c cs : lookup_col n cs = Some c -> assign_col n c cs = cs.
Proof.
  induction cs as [|[k c0] cs IH]; simpl; [discriminate|].
  destruct (String.eqb k n); intros H.
  - now inversion H.
  - now rewrite IH.
Qed.

Lemma names_assign n c c0 cs :
  lookup_col n cs = Some c0 -> map fst (assign_col n c cs) = map fst cs.
Proof.
  induction cs as [|[k c1] cs IH]; simpl; [discriminate|].
  destruct (String.eqb k n); intros H; simpl; [reflexivity | now rewrite IH].
Qed.

Lemma lookup_middle n c pre suf :
  n ∉ map fst pre -> lookup_col n (pre ++ (n, c) :: suf) = Some c.
Proof.
  induction pre as [|[k c0] pre IH]; simpl; intros H.
  - now rewrite String.eqb_refl.
  - apply not_elem_of_cons in H as [H1 H2].
    destruct (String.eqb k n) eqn:E; [|now apply IH].
    apply String.eqb_eq in E. congruence.
Qed.

Lemma assign_middle n c c' pre suf :
  n ∉ map fst pre ->
  assign_col n c' (pre ++ (n, c) :: suf) = pre ++ (n, c') :: suf.
Proof.
  induction pre as [|[k c0] pre IH]; simpl; intros H.
  - now rewrite String.eqb_refl.
  - apply not_elem_of_cons in H as [H1 H2].
    destruct (String.eqb k n) eqn:E; [|now rewrite IH].
    apply String.eqb_eq in E. congruence.
Qed.

Lemma update_col_Ok n (f : column -> result column) df c c' :
  lookup_col n (cols df) = Some c -> f c = Ok c' ->
  update_col n f df = Ok (setitem n c' df).
Proof. unfold update_col, getitem. intros -> H. simpl. now rewrite H. Qed.

Lemma setitem_same n c df : lookup_col n (cols df) = Some c -> setitem n c df = df.
Proof. intros H. unfold setitem. rewrite (assign_same _ _ _ H). now destruct df. Qed.

(** A loop over the columns of the selected dtypes whose body replaces the
    column it visits by a function of that column. *)
Lemma for_each_select_aux (P : column -> bool)
  (body : string -> DataFrame -> result DataFrame) (g : column -> column)
  (idx : list Z) (suf pre : list (string * column)) :
  NoDup (map fst (pre ++ suf)) ->
  (forall n c df0, P c = true -> (n, c) ∈ suf ->
     lookup_col n (cols df0) = Some c -> body n df0 = Ok (setitem n (g c) df0)) ->
  for_each (map fst (List.filter (fun nc => P (snd nc)) suf)) body (mkDF idx (pre ++ suf))
  = Ok (mkDF idx (pre ++ map (fun nc => (fst nc, if P (snd nc) then g (snd nc) else snd nc)) suf)).
Proof.
  revert pre. induction suf as [|[n c] suf IH]; intros pre ND Hb; simpl.
  - reflexivity.
  - assert (Hn : n ∉ map fst pre).
    { rewrite map_app in ND. apply NoDup_app in ND as (_ & ND & _).
      intros Hin. apply (ND n Hin). simpl. left. }
    destruct (P c) eqn:EP; simpl.
    + rewrite (Hb n c); [|assumption|left|simpl; now apply lookup_middle].
      simpl. unfold setitem. simpl. rewrite assign_middle by assumption.
      specialize (IH (pre ++ [(n, g c)])).
      rewrite <- !app_assoc in IH. simpl in IH. apply IH.
      * rewrite !map_app in *. simpl in *. exact ND.
      * intros n' c' df0 HP Hin. apply Hb; [assumption | now right].
    + specialize (IH (pre ++ [(n, c)])).
      rewrite <- !app_assoc in IH. simpl in IH. apply IH.
      * exact ND.
      * intros n' c' df0 HP Hin. apply Hb; [assumption | now right].
Qed.

Lemma for_each_select (P : column -> bool)
  (body : string -> DataFrame -> result DataFrame) (g : column -> column)
  (df : DataFrame) :
  NoDup (columns df) ->
  (forall n c df0, P c = true -> (n, c) ∈ cols df ->
     lookup_col n (cols df0) = Some c -> body n df0 = Ok (setitem n (g c) df0)) ->
  for_each (select_dtypes P df) body df
  = Ok (mkDF (index df)
          (map (fun nc => (fst nc, if P (snd nc) then g (snd nc) else snd nc)) (cols df))).
Proof.
  intros ND Hb. destruct df as [idx cs].
  apply (for_each_select_aux P body g idx cs []); assumption.
Qed.

Lemma lookup_col_elem n c cs : lookup_col n cs = Some c -> (n, c) ∈ cs.
Proof.
  induction cs as [|[k c0] cs IH]; simpl; [discriminate|].
  destruct (String.eqb k n) eqn:E.
  - apply String.eqb_eq in E. intros H. inversion H; subst. left.
  - intros H. right. now apply IH.
Qed.

(** A loop over the columns of the selected dtypes raises [e] when its body
    raises [e] on one of them and otherwise either raises [e] or replaces
    the column it visits. *)
Lemma for_each_select_raises_aux (P : column -> bool)
  (body : string -> DataFrame -> result DataFrame) (e : exn)
  (idx : list Z) (n : string) (c : column) (suf pre : list (string * column)) :
  NoDup (map fst (pre ++ suf)) ->
  (n, c) ∈ suf -> P c = true ->
  (forall df0, lookup_col n (cols df0) = Some c -> body n df0 = Raise e) ->
  (forall n' c' df0, P c' = true -> (n', c') ∈ suf ->
     lookup_col n' (cols df0) = Some c' ->
     body n' df0 = Raise e \/ exists c'', body n' df0 = Ok (setitem n' c'' df0)) ->
  for_each (map fst (List.filter (fun nc => P (snd nc)) suf)) body (mkDF idx (pre ++ suf))
  = Raise e.
Proof.
  revert pre. induction suf as [|[n0 c0] suf IH]; intros pre ND Hin HP Hr Hb.
  - now apply elem_of_nil in Hin.
  - assert (Hn : n0 ∉ map fst pre).
    { rewrite map_app in ND. apply NoDup_app in ND as (_ & ND & _).
      intros Hin0. apply (ND n0 Hin0). simpl. left. }
    assert (Hl : lookup_col n0 (cols (mkDF idx (pre ++ (n0, c0) :: suf))) = Some c0)
      by (simpl; now apply lookup_middle).
    simpl. apply elem_of_cons in Hin as [Heq|Hin].
    + inversion Heq; subst n0 c0. rewrite HP. simpl. now rewrite (Hr _ Hl).
    + destruct (P c0) eqn:EP; simpl.
      * destruct (Hb n0 c0 _ EP ltac:(left) Hl) as [-> | (c'' & ->)]; [reflexivity|].
        simpl. unfold setitem. simpl. rewrite assign_middle by assumption.
        specialize (IH (pre ++ [(n0, c'')])).
        rewrite <- !app_assoc in IH. simpl in IH. apply IH; try assumption.
        -- rewrite !map_app in *. simpl in *. exact ND.
        -- intros n' c' df0 HP' Hin'. apply Hb; [assumption | now right].
      * specialize (IH (pre ++ [(n0, c0)])).
        rewrite <- !app_assoc in IH. simpl in IH. apply IH; try assumption.
        intros n' c' df0 HP' Hin'. apply Hb; [assumption | now right].
Qed.

Lemma update_present_total (n : string) (f : column -> column) (df : DataFrame) :
  exists df1,
    (if has_column n df then update_col n (fun c => Ok (f c)) df else Ok df) = Ok df1 /\
    index df1 = index df /\
    columns df1 = columns df /\
    lookup_col n (cols df1) = option_map f (lookup_col n (cols df)) /\
    (forall m, m <> n -> lookup_col m (cols df1) = lookup_col m (cols df)).
Proof.
  rewrite has_column_lookup.
  destruct (lookup_col n (cols df)) as [c|] eqn:E.
  - exists (setitem n (f c) df).
    split; [now apply update_col_Ok with (c := c)|].
    split; [reflexivity|].
    split; [unfold columns; simpl; now apply names_assign with (c0 := c)|].
    split; simpl.
    + now rewrite lookup_assign, String.eqb_refl.
    + intros m Hm. rewrite lookup_assign.
      destruct (String.eqb n m) eqn:E'; [|reflexivity].
      apply String.eqb_eq in E'. congruence.
  - exists df. repeat split; try reflexivity. now rewrite E.
Qed.

End TableLemmas.

(** ** Value Normalizer: the text accessor *)

Ltac solve_wf :=
  split;
  [ apply (bool_decide_unpack _); vm_compute; reflexivity
  | repeat (constructor; [reflexivity|]); constructor ].

Section ValueNormalizer.

(** The table when the Value Normalizer reaches [customer_lifetime_value]:
    the three replacements before it always return and leave that column
    as it was. *)
Lemma clean_invalid_values_reaches_clv (df : DataFrame) :
  exists df3,
    clean_invalid_values df =
      (let* df4 :=
         if has_column "customer_lifetime_value" df3
         then update_col "customer_lifetime_value"
                (str_accessor_replace "%"%char "") df3
         else Ok df3 in
       let* df5 :=
         if has_column "vehicle_class" df4
         then update_col "vehicle_class"
                (fun c => Ok (replace_values vehicle_class_map c)) df4
         else Ok df4 in
       Ok df5) /\
    lookup_col "customer_lifetime_value" (cols df3)
    = lookup_col "customer_lifetime_value" (cols df).
Proof.
  unfold clean_invalid_values, copy.
  destruct (update_present_total "gender" (replace_values gender_map) df)
    as (df1 & -> & _ & _ & _ & H1).
  cbn [bind].
  destruct (update_present_total "state" (replace_values state_map) df1)
    as (df2 & -> & _ & _ & _ & H2).
  cbn [bind].
  destruct (update_present_total "education" (replace_values education_map) df2)
    as (df3 & -> & _ & _ & _ & H3).
  cbn [bind].
  exists df3. split; [reflexivity|].
  rewrite H3, H2, H1 by discriminate. reflexivity.
Qed.

(** The Value Normalizer raises on every table whose
    [customer_lifetime_value] column is numeric. *)
Lemma clean_invalid_values_numeric_clv (df : DataFrame) (c : column) :
  lookup_col "customer_lifetime_value" (cols df) = Some c ->
  is_numeric c = true ->
  clean_invalid_values df = Raise AttributeError.
Proof.
  intros Hc Hn.
  destruct (clean_invalid_values_reaches_clv df) as (df3 & -> & H3).
  rewrite <- H3 in Hc. rewrite has_column_lookup, Hc.
  unfold update_col, getitem. rewrite Hc. cbn [bind].
  destruct c; [reflexivity | reflexivity | discriminate].
Qed.

(** It returns on every table whose [customer_lifetime_value] column is a
    text column or is absent. *)
Lemma clean_invalid_values_text_clv (df : DataFrame) :
  (forall c, lookup_col "customer_lifetime_value" (cols df) = Some c ->
             is_object c = true) ->
  exists df', clean_invalid_values df = Ok df'.
Proof.
  intros Hc.
  destruct (clean_invalid_values_reaches_clv df) as (df3 & -> & H3).
  rewrite <- H3 in Hc. rewrite has_column_lookup.
  destruct (lookup_col "customer_lifetime_value" (cols df3)) as [c|] eqn:E.
  - specialize (Hc c eq_refl). destruct c as [vs|vs|vs]; try discriminate.
    rewrite (update_col_Ok "customer_lifetime_value"
               (str_accessor_replace "%" "") df3 _ _ E eq_refl).
    cbn [bind].
    destruct (update_present_total "vehicle_class" (replace_values vehicle_class_map)
                (setitem "customer_lifetime_value"
                   (Object (map (option_map (str_replace "%" "")) vs)) df3))
      as (df5 & -> & _). now exists df5.
  - cbn [bind].
    destruct (update_present_total "vehicle_class" (replace_values vehicle_class_map) df3)
      as (df5 & -> & _). now exists df5.
Qed.

End ValueNormalizer.

(** C9. There is a well-formed table with a [customer_lifetime_value]
    column of numeric type on which the Value Normalizer raises
    ([AttributeError], from the text accessor) instead of returning a
    table.  It raises on every table whose [customer_lifetime_value]
    column is numeric, and returns on every table in which that column is
    a text column or is absent. *)
Theorem clean_invalid_values_not_total :
  (exists df c,
      wf df /\
      lookup_col "customer_lifetime_value" (cols df) = Some c /\
      is_numeric c = true /\
      clean_invalid_values df = Raise AttributeError) /\
  (forall df c,
      lookup_col "customer_lifetime_value" (cols df) = Some c ->
      is_numeric c = true ->
      clean_invalid_values df = Raise AttributeError) /\
  (forall df,
      (forall c, lookup_col "customer_lifetime_value" (cols df) = Some c ->
                 is_object c = true) ->
      exists df', clean_invalid_values df = Ok df').
Proof.
  split.
  - exists numeric_clv_table, (Float64 [Some (Qmake 21 2); None]).
    split; [solve_wf|].
    split; [reflexivity|].
    split; reflexivity.
  - split; [exact clean_invalid_values_numeric_clv | exact clean_invalid_values_text_clv].
Qed.

(** ** Type Formatter *)

Section TypeFormatter.

Lemma all_ints_Some (ps : list (option number)) (zs : list Z) :
  all_ints ps = Some zs -> ps = map (fun z => Some (NInt z)) zs.
Proof.
  revert zs. induction ps as [|[[z|q]|] ps IH]; simpl; intros zs H; try discriminate.
  - now inversion H.
  - destruct (all_ints ps) as [zs'|]; [|discriminate].
    inversion H; subst. simpl. now rewrite <- IH.
Qed.

(** The numbers of [to_numeric] of a text column, whatever dtype it picks. *)
Lemma numbers_to_numeric (vs : list (option string)) :
  numbers (to_numeric (Object vs))
  = map (fun v => match v with
                  | Some s => option_map number_value (parse_number s)
                  | None => None
                  end) vs.
Proof.
  unfold to_numeric.
  destruct (all_ints _) as [zs|] eqn:E; simpl.
  - apply all_ints_Some in E.
    revert zs E. induction vs as [|v vs IH]; intros [|z zs] E; simpl in *;
      try discriminate; [reflexivity|].
    inversion E as [[E1 E2]]. rewrite <- (IH zs E2).
    destruct v as [s|]; [|discriminate]. now rewrite E1.
  - rewrite map_map. apply map_ext. now intros [s|].
Qed.

Lemma to_numeric_is_numeric (vs : list (option string)) :
  is_numeric (to_numeric (Object vs)) = true.
Proof. unfold to_numeric. now destruct (all_ints _). Qed.

Lemma str_split_no_sep (sep : ascii) (s : string) :
  no_sep sep s = true -> str_split sep s = [s].
Proof.
  induction s as [|c s IH]; simpl; [reflexivity|].
  destruct (Ascii.eqb c sep); simpl; [discriminate|].
  intros H. now rewrite IH.
Qed.

Lemma no_sep_append (sep : ascii) (s t : string) :
  no_sep sep (s ++ t)%string = no_sep sep s && no_sep sep t.
Proof.
  induction s as [|c s IH]; [reflexivity|].
  change (String c s ++ t)%string with (String c (s ++ t)%string).
  simpl. rewrite IH. now rewrite andb_assoc.
Qed.

Lemma digit_char_not_slash (d : Z) : Ascii.eqb (digit_char d) "/" = false.
Proof.
  unfold digit_char.
  repeat match goal with
         | |- context [match ?x with _ => _ end] => destruct x
         end; reflexivity.
Qed.

Lemma nat_digits_no_slash (fuel : nat) (n : Z) (acc : string) :
  no_sep "/" acc = true -> no_sep "/" (nat_digits fuel n acc) = true.
Proof.
  revert n acc. induction fuel as [|f IH]; simpl; intros n acc H; [exact H|].
  assert (H' : no_sep "/" (String (digit_char (n mod 10)) acc) = true).
  { simpl. now rewrite digit_char_not_slash, H. }
  destruct (n / 10 =? 0); [exact H' | now apply IH].
Qed.

Lemma frac_digits_no_slash (fuel : nat) (r d : Z) :
  no_sep "/" (frac_digits fuel r d) = true.
Proof.
  revert r. induction fuel as [|f IH]; simpl; intros r; [reflexivity|].
  destruct (r =? 0); [reflexivity|].
  simpl. now rewrite digit_char_not_slash, IH.
Qed.

Lemma Z_repr_no_slash (z : Z) : no_sep "/" (Z_repr z) = true.
Proof.
  unfold Z_repr. rewrite no_sep_append, nat_digits_no_slash by reflexivity.
  now destruct (z <? 0).
Qed.

Lemma float_repr_no_slash (q : Q) : no_sep "/" (float_repr q) = true.
Proof.
  unfold float_repr. rewrite !no_sep_append, nat_digits_no_slash by reflexivity.
  assert (H := frac_digits_no_slash 17 (Z.abs (Qnum q) mod Z.pos (Qden q)) (Z.pos (Qden q))).
  destruct (String.eqb _ ""); [|rewrite H]; now destruct (Qnum q <? 0).
Qed.


Lemma complaint_number_pieces (s : string) :
  complaint_number s =
  match str_split "/" s with
  | _ :: m :: _ => option_map number_value (parse_number m)
  | _ => None
  end.
Proof. unfold complaint_number. now destruct (str_split "/" s) as [|p [|m l]]. Qed.

Lemma cells_length (c : column) : length (cells c) = col_len c.
Proof. destruct c; simpl; apply length_map. Qed.

End TypeFormatter.

(** ** Numerals and their reader *)

Section Numerals.

Lemma append_cons (c : ascii) (s t : string) :
  (String c s ++ t)%string = String c (s ++ t)%string.
Proof. reflexivity. Qed.

Lemma append_nil_r (s : string) : (s ++ "")%string = s.
Proof. induction s as [|c s IH]; [reflexivity|]. now rewrite append_cons, IH. Qed.

Lemma length_append (s t : string) :
  String.length (s ++ t)%string = (String.length s + String.length t)%nat.
Proof. induction s as [|c s IH]; [reflexivity|]. rewrite append_cons. simpl. now rewrite IH. Qed.

Lemma is_digit_digit_of (c : ascii) :
  is_digit c = true -> digit_of c = Some (Z.of_nat (nat_of_ascii c) - 48).
Proof.
  unfold is_digit, digit_of. intros H. rewrite H. f_equal.
  apply andb_true_iff in H as [H1 H2].
  apply Nat.leb_le in H1. lia.
Qed.

Lemma not_digit_digit_of (c : ascii) : is_digit c = false -> digit_of c = None.
Proof. unfold is_digit, digit_of. now intros ->. Qed.

Lemma read_digits_app (ds rest : string) (acc : Z) (k : nat) :
  all_chars is_digit ds = true ->
  head_not is_digit rest = true ->
  read_digits (ds ++ rest) acc k
  = (acc * 10 ^ Z.of_nat (String.length ds) + decimal ds,
     (k + String.length ds)%nat, rest).
Proof.
  revert acc k. induction ds as [|c ds IH]; intros acc k Hd Hr.
  - change ("" ++ rest)%string with rest. simpl decimal. simpl String.length.
    rewrite Z.pow_0_r, Z.mul_1_r, Z.add_0_r, Nat.add_0_r.
    destruct rest as [|c r]; [reflexivity|]. simpl in Hr.
    apply negb_true_iff in Hr. simpl. now rewrite (not_digit_digit_of c Hr).
  - cbn [all_chars] in Hd. apply andb_true_iff in Hd as [Hc Hd].
    rewrite append_cons. cbn [read_digits]. rewrite (is_digit_digit_of c Hc).
    rewrite (IH _ _ Hd Hr). cbn [decimal String.length].
    rewrite Nat2Z.inj_succ, Z.pow_succ_r by lia.
    f_equal. f_equal; [ring | lia].
Qed.


Lemma decimal_app (a b : string) :
  decimal (a ++ b) = decimal a * 10 ^ Z.of_nat (String.length b) + decimal b.
Proof.
  induction a as [|c a IH]; [change ("" ++ b)%string with b; simpl; lia|].
  rewrite append_cons. cbn [decimal]. rewrite IH, length_append, Nat2Z.inj_add.
  rewrite Z.pow_add_r by lia. ring.
Qed.

Lemma is_digit_range (c : ascii) :
  is_digit c = true -> 0 <= Z.of_nat (nat_of_ascii c) - 48 <= 9.
Proof.
  unfold is_digit. intros H. apply andb_true_iff in H as [H1 H2].
  apply Nat.leb_le in H1, H2. lia.
Qed.

Lemma decimal_bound (s : string) :
  all_chars is_digit s = true -> 0 <= decimal s < 10 ^ Z.of_nat (String.length s).
Proof.
  induction s as [|c s IH]; intros H; [simpl; lia|].
  cbn [all_chars] in H. apply andb_true_iff in H as [Hc Hs].
  specialize (IH Hs). pose proof (is_digit_range c Hc) as Hr.
  cbn [decimal String.length]. rewrite Nat2Z.inj_succ, Z.pow_succ_r by lia.
  nia.
Qed.

Lemma skip_spaces_head (s : string) :
  head_not is_space s = true -> skip_spaces s = s.
Proof.
  destruct s as [|c s]; [reflexivity|]. simpl. intros H.
  apply negb_true_iff in H. now rewrite H.
Qed.

Lemma read_sign_head (s : string) :
  head_not is_sign_char s = true -> read_sign s = (false, s).
Proof.
  destruct s as [|c s]; [reflexivity|]. unfold head_not, is_sign_char.
  destruct c as [[] [] [] [] [] [] [] []]; simpl; intros H;
    first [reflexivity | discriminate H].
Qed.

Lemma is_digit_not_space (c : ascii) : is_digit c = true -> is_space c = false.
Proof. destruct c as [[] [] [] [] [] [] [] []]; vm_compute; congruence. Qed.

Lemma is_digit_not_sign (c : ascii) : is_digit c = true -> is_sign_char c = false.
Proof. destruct c as [[] [] [] [] [] [] [] []]; vm_compute; congruence. Qed.

Lemma is_sign_cases (s : string) :
  is_sign s = true -> s = "" \/ s = "+" \/ s = "-".
Proof.
  unfold is_sign. intros H.
  apply orb_true_iff in H as [H|H]; [apply orb_true_iff in H as [H|H]|];
    apply String.eqb_eq in H; auto.
Qed.

Lemma scale10_value (m e : Z) : (scale10 m e == inject_Z m * inject_Z 10 ^ e)%Q.
Proof.
  unfold scale10. destruct (Z.leb_spec 0 e) as [H|H].
  - rewrite inject_Z_mult. now rewrite Zpower_Qpower.
  - rewrite Qmake_Qdiv. unfold Qdiv.
    assert (E : (inject_Z 10 ^ e == / inject_Z 10 ^ (- e))%Q).
    { rewrite <- Qpower_opp. now rewrite Z.opp_involutive. }
    rewrite E, <- Zpower_Qpower by lia.
    rewrite Z2Pos.id; [reflexivity|]. apply Z.pow_pos_nonneg; lia.
Qed.


Lemma head_not_app (p : ascii -> bool) (s t : string) :
  head_not p s = true -> (s = "" -> head_not p t = true) -> head_not p (s ++ t) = true.
Proof. destruct s as [|c s]; [intros _ H; now apply H | intros H _; exact H]. Qed.

Lemma head_not_digits (p : ascii -> bool) (ds : string) :
  (forall c, is_digit c = true -> p c = false) ->
  all_chars is_digit ds = true -> head_not p ds = true.
Proof.
  intros Hp. destruct ds as [|c ds]; [reflexivity|]. cbn [all_chars head_not].
  intros H. apply andb_true_iff in H as [Hc _]. now rewrite (Hp c Hc).
Qed.

(** The sign in front of a text that does not start with a blank or a
    sign of its own. *)
Lemma read_sign_text (sg body : string) :
  is_sign sg = true ->
  head_not is_space body = true ->
  head_not is_sign_char body = true ->
  read_sign (skip_spaces (sg ++ body)) = (String.eqb sg "-", body).
Proof.
  intros Hs H1 H2. apply is_sign_cases in Hs as [-> | [-> | ->]].
  - change ("" ++ body)%string with body.
    now rewrite skip_spaces_head, read_sign_head.
  - reflexivity.
  - reflexivity.
Qed.

Lemma sign_of_neg (sg : string) (m : Z) :
  (if String.eqb sg "-" then - m else m) = sign_of sg * m.
Proof. unfold sign_of. destruct (String.eqb sg "-"); lia. Qed.

(** The digits of a numeral in front of a text that does not go on with a
    digit or a point. *)
Lemma read_mantissa_text (ip : string) (fr : option string) (X : string) :
  all_chars is_digit ip = true ->
  all_chars is_digit (match fr with Some f => f | None => "" end) = true ->
  head_not is_digit X = true ->
  head_not (Ascii.eqb ".") X = true ->
  read_mantissa (ip ++ match fr with Some f => "." ++ f ++ X | None => X end)
  = (decimal (ip ++ match fr with Some f => f | None => "" end),
     (String.length ip + String.length (match fr with Some f => f | None => "" end))%nat,
     String.length (match fr with Some f => f | None => "" end),
     match fr with Some _ => true | None => false end, X).
Proof.
  intros Hip Hf HX1 HX2. unfold read_mantissa. destruct fr as [f|].
  - change ("." ++ f ++ X)%string with (String "." (f ++ X)).
    rewrite (read_digits_app ip (String "." (f ++ X)) 0 0 Hip eq_refl).
    cbv beta iota zeta.
    rewrite (read_digits_app f X _ 0 Hf HX1).
    rewrite decimal_app, Z.mul_0_l, Z.add_0_l. reflexivity.
  - rewrite (read_digits_app ip X 0 0 Hip HX1).
    cbv beta iota zeta. rewrite append_nil_r.
    assert (E : match X with
                | String "." s' =>
                    let '(m, nf, s2) :=
                      read_digits s' (0 * 10 ^ Z.of_nat (String.length ip) + decimal ip) 0 in
                    (m, (0 + String.length ip + nf)%nat, nf, true, s2)
                | _ => (0 * 10 ^ Z.of_nat (String.length ip) + decimal ip,
                        (0 + String.length ip)%nat, 0%nat, false, X)
                end
                = (0 * 10 ^ Z.of_nat (String.length ip) + decimal ip,
                   (0 + String.length ip)%nat, 0%nat, false, X)).
    { destruct X as [|c X']; [reflexivity|].
      cbn [head_not] in HX2.
      destruct c as [[] [] [] [] [] [] [] []]; first [discriminate HX2 | reflexivity]. }
    rewrite E, Z.mul_0_l, Z.add_0_l. cbn [String.length Nat.add].
    now rewrite Nat.add_0_r.
Qed.

Lemma read_exponent_text (m : ascii) (sg ds : string) :
  (Ascii.eqb m "e" || Ascii.eqb m "E")%bool = true ->
  is_sign sg = true ->
  all_chars is_digit ds = true ->
  (1 <= String.length ds)%nat ->
  read_exponent (String m (sg ++ ds)) = (true, sign_of sg * decimal ds, "").
Proof.
  intros Hm Hs Hd Hl. unfold read_exponent. rewrite Hm.
  assert (E : read_sign (sg ++ ds) = (String.eqb sg "-", ds)).
  { rewrite <- (read_sign_text sg ds Hs).
    - f_equal. apply is_sign_cases in Hs as [-> | [-> | ->]]; try reflexivity.
      change ("" ++ ds)%string with ds. symmetry. apply skip_spaces_head.
      apply head_not_digits; [apply is_digit_not_space | exact Hd].
    - apply head_not_digits; [apply is_digit_not_space | exact Hd].
    - apply head_not_digits; [apply is_digit_not_sign | exact Hd]. }
  rewrite E. cbv beta iota zeta.
  rewrite <- (append_nil_r ds) at 1.
  rewrite (read_digits_app ds "" 0 0 Hd eq_refl). cbv beta iota zeta.
  destruct (Nat.eqb_spec (0 + String.length ds) 0) as [H0|_]; [lia|].
  rewrite sign_of_neg, Z.mul_0_l, Z.add_0_l. reflexivity.
Qed.


Lemma short_no_overflow (m e : Z) :
  Z.abs m < 10 ^ 15 -> -22 <= e <= 22 -> overflows (scale10 m e) = false.
Proof.
  intros Hm He. unfold overflows, Qle_bool, scale10.
  assert (HT : 10 ^ 15 * 10 ^ 22 < 2 ^ 1024 - 2 ^ 970) by (vm_compute; reflexivity).
  set (T := 2 ^ 1024 - 2 ^ 970) in *. clearbody T.
  apply Z.leb_gt.
  destruct (Z.leb_spec 0 e) as [H|H]; cbn [Qabs inject_Z Qnum Qden].
  - rewrite Z.abs_mul, (Z.abs_eq (10 ^ e)) by (apply Z.pow_nonneg; lia).
    assert (H1 : 0 < 10 ^ e <= 10 ^ 22).
    { split; [apply Z.pow_pos_nonneg; lia | apply Z.pow_le_mono_r; lia]. }
    set (P := 10 ^ e) in *. set (B := 10 ^ 22) in *. set (M := 10 ^ 15) in *.
    clearbody P B M. nia.
  - assert (H1 : 0 < 10 ^ (- e)) by (apply Z.pow_pos_nonneg; lia).
    rewrite Z2Pos.id by exact H1.
    assert (H2 : 0 < 10 ^ 22) by (apply Z.pow_pos_nonneg; lia).
    set (P := 10 ^ (- e)) in *. set (B := 10 ^ 22) in *. set (M := 10 ^ 15) in *.
    clearbody P B M.
    assert (H3 : M <= M * B) by nia.
    assert (H4 : T <= T * P) by nia.
    lia.
Qed.

(** The reader gives a short numeral its number. *)
Lemma parse_short_numeral (n : numeral) :
  short_numeral n = true ->
  exists x, parse_number (numeral_text n) = Some x /\
            (number_value x == numeral_value n)%Q.
Proof.
  destruct n as [sg ip fr ex]. unfold short_numeral, numeral_text, numeral_value,
    numeral_exponent, exp_text, frac_of. cbn [num_sign num_int num_frac num_exp].
  set (fp := match fr with Some f => f | None => "" end).
  set (X := match ex with Some (m, sg0, ds) => String m (sg0 ++ ds) | None => "" end).
  set (E := match ex with Some (_, sg0, ds) => sign_of sg0 * decimal ds | None => 0 end).
  intros H.
  apply andb_true_iff in H as [H Hhi]. apply andb_true_iff in H as [H Hlo].
  apply andb_true_iff in H as [H Hex]. apply andb_true_iff in H as [H H15].
  apply andb_true_iff in H as [H H1]. apply andb_true_iff in H as [H Hfp].
  apply andb_true_iff in H as [Hsg Hip].
  apply Nat.leb_le in H15, H1. apply Z.leb_le in Hlo, Hhi.
  assert (HX : head_not is_digit X = true /\ head_not (Ascii.eqb ".") X = true /\
               head_not is_space X = true /\ head_not is_sign_char X = true).
  { unfold X. destruct ex as [[[m sg0] ds]|]; [|repeat split].
    repeat (apply andb_true_iff in Hex as [Hex ?]).
    apply orb_true_iff in Hex as [Hm|Hm]; apply Ascii.eqb_eq in Hm; subst m;
      repeat split. }
  destruct HX as (HX1 & HX2 & HX3 & HX4).
  assert (HE : read_exponent X = (match ex with Some _ => true | None => false end, E, "")).
  { unfold X, E. destruct ex as [[[m sg0] ds]|]; [|reflexivity].
    repeat (apply andb_true_iff in Hex as [Hex ?]).
    apply read_exponent_text; try assumption. now apply Nat.leb_le. }
  set (body := (ip ++ match fr with Some f => "." ++ f ++ X | None => X end)%string).
  assert (Hb : forall p, (forall c, is_digit c = true -> p c = false) ->
                 p "."%char = false -> head_not p X = true ->
                 head_not p body = true).
  { intros p Hp Hpt HpX. unfold body. apply head_not_app.
    - now apply head_not_digits.
    - intros _. destruct fr as [f|]; [|exact HpX].
      change (negb (p "."%char) = true). now rewrite Hpt. }
  unfold parse_number.
  rewrite (read_sign_text sg body Hsg);
    [| apply Hb; [apply is_digit_not_space | reflexivity | exact HX3]
     | apply Hb; [apply is_digit_not_sign | reflexivity | exact HX4]].
  unfold body. rewrite (read_mantissa_text ip fr X Hip Hfp HX1 HX2). fold fp.
  destruct (Nat.eqb_spec (String.length ip + String.length fp) 0) as [H0|_]; [lia|].
  rewrite HE. cbn [skip_spaces]. rewrite sign_of_neg.
  set (M := sign_of sg * decimal (ip ++ fp)).
  assert (HM : Z.abs M < 10 ^ 15).
  { unfold M. rewrite Z.abs_mul.
    assert (Hd : all_chars is_digit (ip ++ fp) = true).
    { clear -Hip Hfp. induction ip as [|c ip IH]; [exact Hfp|].
      rewrite append_cons. cbn [all_chars] in *.
      apply andb_true_iff in Hip as [Hc Hip]. now rewrite Hc, IH. }
    pose proof (decimal_bound _ Hd) as Hbd. rewrite length_append in Hbd.
    assert (Hp : 10 ^ Z.of_nat (String.length ip + String.length fp) <= 10 ^ 15).
    { apply Z.pow_le_mono_r; lia. }
    unfold sign_of. destruct (String.eqb sg "-"); lia. }
  destruct (negb _ && negb _ && in_int64 M)%bool eqn:Ecase.
  - exists (NInt M). split; [reflexivity|].
    apply andb_true_iff in Ecase as [Ecase _]. apply andb_true_iff in Ecase as [Ep Ee].
    assert (fr = None) by (destruct fr; [discriminate Ep | reflexivity]).
    assert (ex = None) by (destruct ex; [discriminate Ee | reflexivity]).
    subst fr ex. unfold E, fp. cbn [number_value String.length Z.of_nat].
    change (0 - 0) with 0. change (inject_Z 10 ^ 0)%Q with 1%Q.
    now rewrite Qmult_1_r.
  - rewrite short_no_overflow by (try exact HM; lia).
    eexists. split; [reflexivity|]. cbn [number_value]. apply scale10_value.
Qed.


(** What the reader accepts is written in the characters of numerals and
    has a digit. *)

Lemma all_chars_app (p : ascii -> bool) (s t : string) :
  all_chars p (s ++ t) = (all_chars p s && all_chars p t)%bool.
Proof.
  induction s as [|c s IH]; [reflexivity|].
  rewrite append_cons. cbn [all_chars]. now rewrite IH, andb_assoc.
Qed.

Lemma some_char_app (p : ascii -> bool) (s t : string) :
  some_char p (s ++ t) = (some_char p s || some_char p t)%bool.
Proof.
  induction s as [|c s IH]; [reflexivity|].
  rewrite append_cons. cbn [some_char]. now rewrite IH, orb_assoc.
Qed.

Lemma some_char_not_all (p : ascii -> bool) (s : string) :
  some_char (fun c => negb (p c)) s = negb (all_chars p s).
Proof.
  induction s as [|c s IH]; [reflexivity|].
  cbn [some_char all_chars]. rewrite IH. now destruct (p c).
Qed.

Lemma all_chars_impl (p q : ascii -> bool) (s : string) :
  (forall c, p c = true -> q c = true) ->
  all_chars p s = true -> all_chars q s = true.
Proof.
  intros Hpq. induction s as [|c s IH]; [reflexivity|]. cbn [all_chars].
  intros H. apply andb_true_iff in H as [Hc Hs]. now rewrite (Hpq c Hc), IH.
Qed.

Lemma skip_spaces_split (s : string) :
  exists p, s = (p ++ skip_spaces s)%string /\ all_chars is_space p = true.
Proof.
  induction s as [|c s (p & E & Hp)]; [now exists ""|]. cbn [skip_spaces].
  destruct (is_space c) eqn:Ec; [|now exists ""].
  exists (String c p). rewrite append_cons, <- E. cbn [all_chars].
  now rewrite Ec, Hp.
Qed.

Lemma read_sign_split (s : string) :
  exists p, s = (p ++ snd (read_sign s))%string /\ all_chars numeral_char p = true.
Proof.
  destruct s as [|c s]; [now exists ""|].
  destruct c as [[] [] [] [] [] [] [] []];
    first [ now exists "" | now exists "+" | now exists "-" ].
Qed.

Lemma read_digits_split (s : string) (acc : Z) (k : nat) :
  exists ds,
    s = (ds ++ snd (read_digits s acc k))%string /\
    all_chars is_digit ds = true /\
    snd (fst (read_digits s acc k)) = (k + String.length ds)%nat.
Proof.
  revert acc k. induction s as [|c s IH]; intros acc k.
  - exists "". cbn. repeat split. lia.
  - cbn [read_digits]. destruct (is_digit c) eqn:Ec.
    + rewrite (is_digit_digit_of c Ec).
      destruct (IH (10 * acc + (Z.of_nat (nat_of_ascii c) - 48)) (S k)) as (ds & E & Hd & Hk).
      exists (String c ds). rewrite append_cons, <- E. cbn [all_chars String.length].
      rewrite Ec, Hd, Hk. repeat split. lia.
    + rewrite (not_digit_digit_of c Ec). exists "". cbn. repeat split. lia.
Qed.

Lemma is_digit_numeral_char (c : ascii) : is_digit c = true -> numeral_char c = true.
Proof. unfold numeral_char. now intros ->. Qed.

Lemma is_space_numeral_char (c : ascii) : is_space c = true -> numeral_char c = true.
Proof. unfold numeral_char. intros ->. now rewrite orb_true_r. Qed.

Lemma some_char_length (s : string) :
  all_chars is_digit s = true -> (0 < String.length s)%nat ->
  some_char is_digit s = true.
Proof.
  destruct s as [|c s]; cbn [all_chars some_char String.length]; [lia|].
  intros H _. apply andb_true_iff in H as [-> _]. reflexivity.
Qed.

Lemma read_mantissa_split (s : string) :
  exists p,
    s = (p ++ snd (read_mantissa s))%string /\
    all_chars numeral_char p = true /\
    (snd (fst (fst (fst (read_mantissa s)))) <> 0%nat -> some_char is_digit p = true).
Proof.
  unfold read_mantissa.
  destruct (read_digits_split s 0 0) as (ds & E & Hd & Hk).
  destruct (read_digits s 0 0) as [[ip ni] r] eqn:Er. cbn [fst snd] in E, Hk.
  assert (Hplain : exists p,
             s = (p ++ r)%string /\ all_chars numeral_char p = true /\
             (ni <> 0%nat -> some_char is_digit p = true)).
  { exists ds. split; [exact E|].
    split; [exact (all_chars_impl _ _ ds is_digit_numeral_char Hd)|].
    intros Hn. apply some_char_length; [exact Hd | lia]. }
  destruct r as [|c r']; [exact Hplain|].
  destruct (Ascii.eqb_spec c ".") as [->|Hc].
  - destruct (read_digits_split r' ip 0) as (fs & E2 & Hf & Hk2).
    destruct (read_digits r' ip 0) as [[m nf] r2]. cbn [fst snd] in *.
    exists (ds ++ String "." fs)%string.
    split.
    { rewrite E, E2 at 1. clear. induction ds as [|d ds IH]; [reflexivity|].
      rewrite !append_cons. now rewrite IH. }
    split.
    { rewrite all_chars_app. cbn [all_chars].
      rewrite (all_chars_impl _ _ ds is_digit_numeral_char Hd).
      now rewrite (all_chars_impl _ _ fs is_digit_numeral_char Hf). }
    intros Hn. rewrite some_char_app. cbn [some_char].
    destruct ds as [|d ds]; [|cbn [all_chars some_char] in *;
      apply andb_true_iff in Hd as [-> _]; reflexivity].
    cbn [some_char]. rewrite some_char_length; [reflexivity | exact Hf|].
    cbn [String.length] in Hk. lia.
  - assert (Em : match String c r' with
                 | String "." s' =>
                     let '(m, nf, s2) := read_digits s' ip 0 in
                     (m, (ni + nf)%nat, nf, true, s2)
                 | _ => (ip, ni, 0%nat, false, String c r')
                 end = (ip, ni, 0%nat, false, String c r')).
    { clear -Hc. destruct c as [[] [] [] [] [] [] [] []];
        first [reflexivity | now elim Hc]. }
    rewrite Em. exact Hplain.
Qed.

Lemma read_exponent_split (s : string) :
  exists p, s = (p ++ snd (read_exponent s))%string /\ all_chars numeral_char p = true.
Proof.
  unfold read_exponent. destruct s as [|c s]; [now exists ""|].
  destruct (Ascii.eqb c "e" || Ascii.eqb c "E")%bool eqn:Ec; [|now exists ""].
  destruct (read_sign_split s) as (p1 & E1 & H1).
  destruct (read_sign s) as [eneg s2]. cbn [snd] in E1.
  destruct (read_digits_split s2 0 0) as (ds & E2 & Hd & Hk).
  destruct (read_digits s2 0 0) as [[ev ne] s3]. cbn [fst snd] in E2, Hk.
  destruct (ne =? 0)%nat; [now exists ""|]. cbn [snd].
  exists (String c (p1 ++ ds)). split.
  - rewrite append_cons. f_equal. rewrite E1, E2 at 1.
    clear. induction p1 as [|d p1 IH]; [reflexivity|].
    rewrite !append_cons. now rewrite IH.
  - cbn [all_chars]. rewrite all_chars_app, H1.
    rewrite (all_chars_impl _ _ ds is_digit_numeral_char Hd).
    unfold numeral_char. apply orb_true_iff in Ec as [-> | ->];
      now rewrite ?orb_true_r.
Qed.

Lemma skip_spaces_all (s : string) :
  skip_spaces s = "" -> all_chars is_space s = true.
Proof.
  induction s as [|c s IH]; [reflexivity|]. cbn [skip_spaces all_chars].
  destruct (is_space c); [exact IH | discriminate].
Qed.

Lemma parse_number_alphabet (s : string) (x : number) :
  parse_number s = Some x ->
  all_chars numeral_char s = true /\ some_char is_digit s = true.
Proof.
  unfold parse_number.
  destruct (skip_spaces_split s) as (p0 & E0 & H0).
  destruct (read_sign_split (skip_spaces s)) as (p1 & E1 & H1).
  destruct (read_sign (skip_spaces s)) as [neg s1]. cbn [snd] in E1.
  destruct (read_mantissa_split s1) as (p2 & E2 & H2 & H2d).
  destruct (read_mantissa s1) as [[[[m nd] nf] point] s2]. cbn [fst snd] in E2, H2d.
  destruct (Nat.eqb_spec nd 0) as [|Hnd]; [discriminate|].
  destruct (read_exponent_split s2) as (p3 & E3 & H3).
  destruct (read_exponent s2) as [[expo e] s3]. cbn [snd] in E3.
  destruct (skip_spaces s3) eqn:E4; [|discriminate]. intros _.
  apply skip_spaces_all in E4.
  rewrite E0, E1, E2, E3.
  rewrite !all_chars_app, !some_char_app.
  rewrite (all_chars_impl _ _ p0 is_space_numeral_char H0), H1, H2, H3.
  rewrite (all_chars_impl _ _ s3 is_space_numeral_char E4).
  rewrite (H2d Hnd). split; [reflexivity | now rewrite !orb_true_r].
Qed.

(** A text without a digit, or with a character that no numeral holds, is
    no number for the reader. *)
Lemma not_numeral_parse (s : string) : not_numeral s = true -> parse_number s = None.
Proof.
  unfold not_numeral. rewrite some_char_not_all. intros H.
  destruct (parse_number s) as [x|] eqn:E; [|reflexivity].
  apply parse_number_alphabet in E as [E1 E2]. rewrite E1, E2 in H. discriminate.
Qed.




Lemma exact_rounding (x q : Q) : (q == x)%Q -> rounding_of x q.
Proof.
  intros E. unfold rounding_of. rewrite E.
  assert (H0 : (x - x == 0)%Q) by ring. rewrite H0. cbn [Qabs Z.abs].
  apply Qle_shift_div_l; [reflexivity|]. rewrite Qmult_0_l. apply Qabs_nonneg.
Qed.

(** The number the reader gives a short numeral, in the three ways the
    properties state it. *)
Lemma short_numeral_number (n : numeral) :
  short_numeral n = true ->
  exists q,
    option_map number_value (parse_number (numeral_text n)) = Some q /\
    rounding_of (numeral_value n) q /\
    (binary64 (numeral_value n) -> (q == numeral_value n)%Q).
Proof.
  intros H. destruct (parse_short_numeral n H) as (x & -> & E).
  exists (number_value x). split; [reflexivity|].
  split; [now apply exact_rounding | intros _; exact E].
Qed.

Lemma str_replace_without (x : ascii) (s : string) :
  str_replace x "" s = without_char x s.
Proof.
  induction s as [|c s IH]; [reflexivity|]. cbn [str_replace without_char].
  rewrite IH. now destruct (Ascii.eqb c x).
Qed.

End Numerals.




(** ** Integer Coercer *)

Section IntegerCoercer.

(** [round_half_even] is a nearest integer: twice the distance of [n/d]
    from the result is at most 1, in integers [2 |n - r d| <= d]; at
    distance one half the result is even. *)
Lemma round_half_even_nearest (q : Q) :
  let n := Qnum q in
  let d := Zpos (Qden q) in
  let r := round_half_even q in
  2 * Z.abs (n - r * d) <= d /\
  (2 * Z.abs (n - r * d) = d -> Z.even r = true).
Proof.
  unfold round_half_even.
  set (n := Qnum q). set (d := Z.pos (Qden q)). cbv zeta.
  assert (Hd : 0 < d) by (unfold d; lia).
  pose proof (Z.div_mod n d ltac:(lia)) as Hdm.
  pose proof (Z.mod_pos_bound n d Hd) as Hb.
  set (f := n / d) in *. set (r := n mod d) in *.
  destruct (Z.ltb_spec (2 * r) d) as [H1|H1].
  - split; [nia|]. intros H. nia.
  - destruct (Z.ltb_spec d (2 * r)) as [H2|H2].
    + split; [nia|]. intros H. nia.
    + assert (d = 2 * r) by lia.
      destruct (Z.even f) eqn:Ef.
      * split; [nia | intros _; exact Ef].
      * split; [nia|]. intros _.
        rewrite Z.even_add, Ef. reflexivity.
Qed.

Lemma round_half_even_Q (q : Q) :
  (Qabs (q - inject_Z (round_half_even q)) <= 1 # 2)%Q.
Proof.
  destruct (round_half_even_nearest q) as [H _]. cbv zeta in H.
  destruct q as [n d]. simpl Qnum in H. simpl Qden in H.
  unfold Qle, Qabs, Qminus, Qplus, Qopp, inject_Z. simpl Qnum. simpl Qden.
  rewrite Pos.mul_1_r.
  replace (n * 1 + - round_half_even (n # d) * Z.pos d)
    with (n - round_half_even (n # d) * Z.pos d) by lia.
  lia.
Qed.

Lemma float_to_int64_integer (z : Z) :
  in_int64 z = true -> float_to_int64 (inject_Z z) = z.
Proof.
  unfold float_to_int64, inject_Z. simpl. rewrite Z.quot_1_r. now intros ->.
Qed.

Lemma astype_int_round0 (c : column) :
  is_numeric c = true -> isna_any c = false ->
  astype_int (round0 c) = Ok (rounded c).
Proof.
  destruct c as [vs|vs|vs]; simpl; intros Hn Hm; try discriminate; [reflexivity|].
  unfold isna_any in Hm. simpl in Hm.
  assert (E : all_some (map (option_map (fun q => inject_Z (round_half_even q))) vs)
              = Some (map (fun q => inject_Z (round_half_even q)) (dropna vs))).
  { clear Hn. induction vs as [|[q|] vs IH]; simpl in *; try discriminate; [reflexivity|].
    now rewrite IH. }
  rewrite E. now rewrite map_map.
Qed.

End IntegerCoercer.

(** C5. On a well-formed table whose numeric columns hold no missing marker
    (the precondition of the step) the Integer Coercer returns a table in
    which every numeric column is an integer column holding, value by
    value, the half-to-even rounding of the input, and every other column
    is as it was.  [round_half_even] is a nearest integer whose ties go to
    the even neighbour, and the cast returns it unchanged when it fits
    int64.  A numeric cell holding 2.5 becomes 2 and one holding 3.5
    becomes 4. *)
Theorem convert_numeric_to_int_rounds (df : DataFrame) :
  wf df ->
  numeric_complete df = true ->
  exists df',
    convert_numeric_to_int df = Ok df' /\
    index df' = index df /\
    cols df' = map (fun nc => (fst nc, rounded (snd nc))) (cols df) /\
    (forall q,
        2 * Z.abs (Qnum q - round_half_even q * Zpos (Qden q)) <= Zpos (Qden q) /\
        (2 * Z.abs (Qnum q - round_half_even q * Zpos (Qden q)) = Zpos (Qden q) ->
         Z.even (round_half_even q) = true)) /\
    (forall q, (Qabs (q - inject_Z (round_half_even q)) <= 1 # 2)%Q) /\
    (forall q, in_int64 (round_half_even q) = true ->
        float_to_int64 (inject_Z (round_half_even q)) = round_half_even q) /\
    rounded (Float64 [Some (Qmake 5 2); Some (Qmake 7 2)]) = Int64 [2; 4].
Proof.
  intros [ND _] Hc. unfold convert_numeric_to_int, copy.
  rewrite (for_each_select is_numeric _ rounded df ND).
  - eexists. split; [reflexivity|]. cbn [index cols].
    split; [reflexivity|].
    split.
    { apply map_ext. intros [n c]. simpl. now destruct c. }
    split; [intros q; apply (round_half_even_nearest q)|].
    split; [exact round_half_even_Q|].
    split; [intros q; apply float_to_int64_integer|].
    reflexivity.
  - intros n c df0 Hnum Hin Hl.
    apply update_col_Ok with (c := c); [exact Hl|].
    apply astype_int_round0; [exact Hnum|].
    unfold numeric_complete in Hc. rewrite forallb_forall in Hc.
    apply list_elem_of_In in Hin. specialize (Hc _ Hin). simpl in Hc.
    rewrite Hnum in Hc. simpl in Hc. now destruct (isna_any c).
Qed.

Lemma convert_numeric_to_int_rounds_witness :
  exists df',
    convert_numeric_to_int rounding_table = Ok df' /\
    cols df' = [("premium", Int64 [2; 4]);
                ("policy", Object [Some "basic"; None]);
                ("claims", Int64 [3; 4])].
Proof.
  destruct (convert_numeric_to_int_rounds rounding_table)
    as (df' & H1 & _ & H2 & _).
  - solve_wf.
  - reflexivity.
  - exists df'. split; [exact H1 | exact H2].
Defined.

(** ** Sorting, counting and the most frequent values *)

Section OrderedLemmas.

Context {A : Type} (eqb leb : A -> A -> bool).

Lemma insert_sorted_perm (x : A) (l : list A) :
  Permutation (insert_sorted leb x l) (x :: l).
Proof.
  induction l as [|y l IH]; simpl; [reflexivity|].
  destruct (leb x y); [reflexivity|].
  rewrite IH. apply perm_swap.
Qed.

Lemma sort_perm (l : list A) : Permutation (sort leb l) l.
Proof.
  induction l as [|x l IH]; simpl; [reflexivity|].
  rewrite insert_sorted_perm. now apply perm_skip.
Qed.

Lemma sort_length (l : list A) : length (sort leb l) = length l.
Proof. apply Permutation_length, sort_perm. Qed.

Section Total.

Hypothesis leb_total : forall x y, leb x y = false -> leb y x = true.

Lemma insert_sorted_sorted (x : A) (l : list A) :
  Sorted (fun a b => leb a b = true) l ->
  Sorted (fun a b => leb a b = true) (insert_sorted leb x l).
Proof.
  induction l as [|y l IH]; simpl; intros HS.
  - repeat constructor.
  - destruct (leb x y) eqn:E.
    + constructor; [exact HS | now constructor].
    + inversion HS as [|? ? HS' Hd]; subst.
      constructor; [now apply IH|].
      destruct l as [|z l]; simpl.
      * constructor. now apply leb_total.
      * destruct (leb x z); constructor; [now apply leb_total|].
        now inversion Hd.
Qed.

Lemma sort_sorted (l : list A) : Sorted (fun a b => leb a b = true) (sort leb l).
Proof.
  induction l as [|x l IH]; simpl; [constructor | now apply insert_sorted_sorted].
Qed.

End Total.

Lemma fold_max_ge (f : A -> nat) (x : A) (l : list A) :
  In x l -> (f x <= fold_right Nat.max 0%nat (map f l))%nat.
Proof.
  induction l as [|y l IH]; simpl; [tauto|].
  intros [->|H]; [lia|]. specialize (IH H). lia.
Qed.

Lemma fold_max_attained (f : A -> nat) (l : list A) :
  l <> [] -> exists x, In x l /\ f x = fold_right Nat.max 0%nat (map f l).
Proof.
  induction l as [|y l IH]; [congruence|]. intros _.
  destruct l as [|z l].
  - exists y. simpl. split; [now left | lia].
  - destruct IH as (x & Hx & Ex); [discriminate|].
    change (fold_right Nat.max 0%nat (map f (y :: z :: l)))
      with (Nat.max (f y) (fold_right Nat.max 0%nat (map f (z :: l)))).
    rewrite <- Ex.
    destruct (Nat.max_spec (f y) (f x)) as [[_ E]|[_ E]]; rewrite E.
    + exists x. split; [now right | reflexivity].
    + exists y. split; [now left | reflexivity].
Qed.

Lemma count_le_max (x : A) (l : list A) :
  In x l -> (count eqb x l <= max_count eqb l)%nat.
Proof. intros H. apply (fold_max_ge (fun y => count eqb y l) x l H). Qed.

Lemma max_count_attained (l : list A) :
  l <> [] -> exists x, In x l /\ count eqb x l = max_count eqb l.
Proof. apply (fold_max_attained (fun y => count eqb y l)). Qed.

Section Equality.

Hypothesis eqb_eq : forall x y, eqb x y = true <-> x = y.

Lemma distinct_In (x : A) (l : list A) : In x (distinct eqb l) <-> In x l.
Proof.
  induction l as [|y l IH]; simpl; [tauto|].
  rewrite filter_In, IH. split.
  - intros [H|[H _]]; tauto.
  - intros [H|H]; [now left|].
    destruct (eqb y x) eqn:E.
    + left. now apply eqb_eq.
    + right. split; [exact H | reflexivity].
Qed.

Lemma count_pos_In (x : A) (l : list A) : count eqb x l <> 0%nat -> In x l.
Proof.
  unfold count. induction l as [|y l IH]; simpl; [congruence|].
  destruct (eqb x y) eqn:E.
  - apply eqb_eq in E. subst. now left.
  - intros H. right. now apply IH.
Qed.

Lemma modes_nonempty (l : list A) : l <> [] -> modes eqb leb l <> [].
Proof.
  intros H. destruct (max_count_attained l H) as (x & Hx & Ex).
  assert (Hin : In x (modes eqb leb l)).
  { unfold modes. apply (Permutation_in x (Permutation_sym (sort_perm _))).
    apply filter_In. split; [now apply distinct_In|].
    now apply Nat.eqb_eq. }
  intros E. rewrite E in Hin. exact Hin.
Qed.

(** Every value of [modes] is a value of the list and no value is more
    frequent. *)
Lemma modes_most_frequent (l : list A) (m : A) :
  In m (modes eqb leb l) ->
  In m l /\ forall x, (count eqb x l <= count eqb m l)%nat.
Proof.
  unfold modes. intros H.
  apply (Permutation_in m (sort_perm _)) in H.
  apply filter_In in H as [H1 H2]. apply Nat.eqb_eq in H2.
  apply (proj1 (distinct_In m l)) in H1. split; [exact H1|].
  intros x. rewrite H2.
  destruct (Nat.eq_dec (count eqb x l) 0%nat) as [E|E]; [lia|].
  now apply count_le_max, count_pos_In.
Qed.

End Equality.

End OrderedLemmas.

(** ** Null Handler *)

Section NullHandler.

Lemma median_of_Some (l : list Q) : l <> [] -> exists m, median_of l = Some m.
Proof.
  intros H. unfold median_of.
  assert (Hlen : (0 < length (sort Qle_bool l))%nat).
  { rewrite sort_length. destruct l; [congruence | simpl; lia]. }
  set (s := sort Qle_bool l) in *. set (n := length s) in *.
  destruct (Nat.eqb_spec n 0) as [E|E]; [lia|].
  assert (H2 : (n / 2 < n)%nat) by (apply Nat.div_lt; lia).
  destruct (nth_error s (n / 2)) as [b|] eqn:Eb;
    [|apply nth_error_None in Eb; fold n in Eb; lia].
  destruct (Nat.odd n); [eauto|].
  destruct (nth_error s (n / 2 - 1)) as [a|] eqn:Ea;
    [eauto | apply nth_error_None in Ea; fold n in Ea; lia].
Qed.

Lemma Qle_bool_total (x y : Q) : Qle_bool x y = false -> Qle_bool y x = true.
Proof.
  intros H. apply Qle_bool_iff.
  destruct (Qlt_le_dec y x) as [H1|H1]; [now apply Qlt_le_weak|].
  apply Qle_bool_iff in H1. congruence.
Qed.

Lemma Sorted_Qle (s : list Q) :
  Sorted (fun a b => Qle_bool a b = true) s -> Sorted Qle s.
Proof.
  induction 1 as [|a s HS IH Hd]; constructor; [exact IH|].
  destruct Hd as [|b s' Hab]; constructor. now apply Qle_bool_iff.
Qed.

(** The median is the middle of the values in increasing order, the mean
    of the two in the middle when their number is even. *)
Lemma median_of_middle (l : list Q) (m : Q) :
  median_of l = Some m ->
  exists s,
    Permutation s l /\ Sorted Qle s /\
    if Nat.odd (length l) then nth_error s (length l / 2) = Some m
    else exists a b,
        nth_error s (length l / 2 - 1) = Some a /\
        nth_error s (length l / 2) = Some b /\
        (m == (a + b) / 2)%Q.
Proof.
  unfold median_of. intros H. exists (sort Qle_bool l).
  split; [apply sort_perm|].
  split; [apply Sorted_Qle, sort_sorted, Qle_bool_total|].
  rewrite sort_length in H.
  destruct (length l =? 0)%nat; [discriminate|].
  destruct (Nat.odd (length l)); [exact H|].
  destruct (nth_error _ (length l / 2 - 1)) as [a|]; [|discriminate].
  destruct (nth_error _ (length l / 2)) as [b|]; [|discriminate].
  exists a, b. split; [reflexivity|]. split; [reflexivity|].
  inversion H. apply Qred_correct.
Qed.

(** The mode is a value of the column that no value outnumbers. *)
Lemma mode_most_frequent (l : list string) (m : string) (rest : list string) :
  modes String.eqb String.leb l = m :: rest ->
  In m l /\ forall x, (count String.eqb x l <= count String.eqb m l)%nat.
Proof.
  intros H. apply (modes_most_frequent String.eqb String.leb String.eqb_eq).
  rewrite H. now left.
Qed.

Lemma fill_complete {A : Type} (x : A) (vs : list (option A)) :
  Forall (fun v => v <> None) vs -> fill x vs = vs.
Proof.
  induction 1 as [|[y|] vs Hv _ IH]; simpl; [reflexivity | now rewrite IH | congruence].
Qed.

Lemma fill_no_missing {A : Type} (x : A) (vs : list (option A)) :
  Forall (fun v => v <> None) (fill x vs).
Proof. induction vs as [|[y|] vs IH]; simpl; constructor; auto; discriminate. Qed.

Lemma isna_any_Float64 (vs : list (option Q)) :
  isna_any (Float64 vs) = false <-> Forall (fun v => v <> None) vs.
Proof.
  unfold isna_any. simpl. induction vs as [|[q|] vs IH]; simpl.
  - split; [constructor | reflexivity].
  - rewrite IH. split; [constructor; [discriminate | assumption] | now inversion 1].
  - split; [discriminate | inversion 1; congruence].
Qed.

Lemma isna_any_Object (vs : list (option string)) :
  isna_any (Object vs) = false <-> Forall (fun v => v <> None) vs.
Proof.
  unfold isna_any. simpl. induction vs as [|[q|] vs IH]; simpl.
  - split; [constructor | reflexivity].
  - rewrite IH. split; [constructor; [discriminate | assumption] | now inversion 1].
  - split; [discriminate | inversion 1; congruence].
Qed.

Lemma has_value_Float64 (vs : list (option Q)) :
  has_value (Float64 vs) = true -> dropna vs <> [].
Proof.
  unfold has_value. simpl.
  induction vs as [|[q|] vs IH]; simpl; [discriminate | discriminate | exact IH].
Qed.

Lemma has_value_Object (vs : list (option string)) :
  has_value (Object vs) = true -> dropna vs <> [].
Proof.
  unfold has_value. simpl.
  induction vs as [|[q|] vs IH]; simpl; [discriminate | discriminate | exact IH].
Qed.

(** The update of a numeric column in the first loop is [fill_missing]. *)
Lemma fill_numeric (c : column) :
  is_numeric c = true ->
  (if isna_any c then fillna (median c) c else c) = fill_missing c.
Proof.
  destruct c as [vs|vs|vs]; simpl; intros Hn.
  - now destruct (isna_any (Int64 vs)).
  - unfold median. simpl numbers.
    destruct (isna_any (Float64 vs)) eqn:E.
    + simpl. now destruct (median_of (dropna vs)).
    + apply isna_any_Float64 in E.
      destruct (median_of (dropna vs)); [|reflexivity].
      now rewrite fill_complete.
  - discriminate.
Qed.

(** The update of a text column in the second loop is [fill_missing], when
    the column has a value to take the mode of. *)
Lemma fill_text (c : column) :
  is_object c = true ->
  implb (isna_any c) (has_value c) = true ->
  (if isna_any c
   then let* m := first_item (mode c) in Ok (fillna m c)
   else Ok c) = Ok (fill_missing c).
Proof.
  destruct c as [vs|vs|vs]; simpl; try discriminate. intros _ H.
  destruct (isna_any (Object vs)) eqn:E.
  - simpl in H. apply has_value_Object in H.
    apply (modes_nonempty String.eqb String.leb String.eqb_eq) in H.
    unfold first_item. simpl.
    destruct (modes String.eqb String.leb (dropna vs)) as [|m l]; [congruence|].
    reflexivity.
  - apply isna_any_Object in E.
    destruct (modes String.eqb String.leb (dropna vs)); [reflexivity|].
    now rewrite fill_complete.
Qed.

Lemma fill_missing_dtype (c : column) :
  is_numeric (fill_missing c) = is_numeric c /\
  is_object (fill_missing c) = is_object c.
Proof.
  destruct c as [vs|vs|vs]; simpl.
  - tauto.
  - now destruct (median_of (dropna vs)).
  - now destruct (modes String.eqb String.leb (dropna vs)).
Qed.

Lemma fill_missing_complete (c : column) :
  implb (isna_any c) (has_value c) = true -> isna_any (fill_missing c) = false.
Proof.
  destruct c as [vs|vs|vs]; simpl.
  - intros _. unfold isna_any. simpl. induction vs; simpl; auto.
  - intros H. destruct (median_of (dropna vs)) as [m|] eqn:Em.
    + apply isna_any_Float64, fill_no_missing.
    + destruct (isna_any (Float64 vs)) eqn:E; [|reflexivity].
      simpl in H. apply has_value_Float64, median_of_Some in H as [m Hm]. congruence.
  - intros H. destruct (modes String.eqb String.leb (dropna vs)) as [|m l] eqn:Em.
    + destruct (isna_any (Object vs)) eqn:E; [|reflexivity].
      simpl in H. apply has_value_Object in H.
      now apply (modes_nonempty String.eqb String.leb String.eqb_eq) in H.
    + apply isna_any_Object, fill_no_missing.
Qed.

Lemma all_missing_dropna {A : Type} (vs : list (option A)) :
  Forall (fun v => v = None) vs -> dropna vs = [].
Proof. induction 1 as [|v vs -> _ IH]; simpl; [reflexivity | exact IH]. Qed.

(** The Null Handler raises on every well-formed table with a text column
    that has cells and whose cells are all missing. *)
Lemma handle_nulls_all_missing_text (df : DataFrame) (n : string)
  (vs : list (option string)) :
  wf df ->
  lookup_col n (cols df) = Some (Object vs) ->
  vs <> [] ->
  Forall (fun v => v = None) vs ->
  handle_nulls df = Raise KeyError.
Proof.
  intros [ND _] Hl Hne Hall. unfold handle_nulls, copy.
  rewrite (for_each_select is_numeric _
             (fun c => if isna_any c then fillna (median c) c else c) df ND).
  2:{ intros n0 c df0 _ _ Hl0. unfold getitem. rewrite Hl0. cbn [bind].
      destruct (isna_any c); [reflexivity|]. now rewrite setitem_same. }
  cbn [bind].
  set (cs1 := map _ (cols df)).
  assert (Hin1 : (n, Object vs) ∈ cs1).
  { apply lookup_col_elem in Hl. apply list_elem_of_In.
    apply list_elem_of_In in Hl. unfold cs1. apply in_map_iff.
    exists (n, Object vs). split; [reflexivity | exact Hl]. }
  assert (ND1 : NoDup (map fst ([] ++ cs1))).
  { unfold cs1. simpl. rewrite map_map. simpl. exact ND. }
  unfold select_dtypes. cbn [cols].
  rewrite (for_each_select_raises_aux is_object _ KeyError (index df) n (Object vs)
             cs1 [] ND1 Hin1 eq_refl); [reflexivity| |].
  - intros df0 Hl0. unfold getitem. rewrite Hl0. cbn [bind].
    assert (E : isna_any (Object vs) = true).
    { destruct vs as [|v vs]; [congruence|]. inversion Hall; subst. reflexivity. }
    rewrite E. unfold mode. rewrite (all_missing_dropna vs Hall). reflexivity.
  - intros n' c' df0 _ _ Hl0. unfold getitem. rewrite Hl0. cbn [bind].
    destruct (isna_any c').
    + unfold first_item. destruct (cells (mode c')) as [|m ms]; [now left|].
      right. cbn [bind]. eauto.
    + right. exists c'. now rewrite setitem_same.
Qed.

End NullHandler.

Lemma Sorted_adjacent (s : list Q) (k : nat) (a b : Q) :
  Sorted Qle s -> nth_error s k = Some a -> nth_error s (S k) = Some b -> (a <= b)%Q.
Proof.
  intros HS. revert k. induction HS as [|x s HS IH Hd]; intros k Ha Hb.
  - destruct k; discriminate.
  - destruct k as [|k].
    + cbn in Ha, Hb. injection Ha as <-.
      destruct Hd as [|y s' Hxy]; [discriminate|]. cbn in Hb. now injection Hb as <-.
    + exact (IH k Ha Hb).
Qed.

(** The median the code computes is the median of the specification. *)
Lemma median_of_is_median (l : list Q) (m : Q) :
  median_of l = Some m -> is_median m l.
Proof.
  intros H. destruct (median_of_middle l m H) as (s & HP & HS & Hm).
  exists s. split; [exact HP|]. split; [exact HS|].
  destruct (Nat.odd (length l)); [exact Hm|].
  destruct Hm as (a & b & Ha & Hb & E). exists a, b.
  split; [exact Ha|]. split; [exact Hb|].
  assert (Hab : (a <= b)%Q).
  { destruct (length l / 2)%nat as [|k] eqn:Ek.
    - change (0 - 1)%nat with 0%nat in Ha. rewrite Ha in Hb.
      injection Hb as <-. apply Qle_refl.
    - replace (S k - 1)%nat with k in Ha by lia.
      exact (Sorted_adjacent s k a b HS Ha Hb). }
  assert (E0 : (2 * m - (a + b) == 0)%Q) by (rewrite E; field).
  split; [lra|]. split; [lra|].
  unfold rounded_mean.
  rewrite E0. cbn [Qabs Z.abs].
  apply Qle_trans with (0 + 0)%Q; [discriminate|].
  apply Qplus_le_compat; [|discriminate].
  apply Qle_shift_div_l; [reflexivity|]. rewrite Qmult_0_l. apply Qabs_nonneg.
Qed.

(** The fill of the code is the fill of the specification. *)
Lemma fill_missing_filled_from (c : column) :
  implb (isna_any c) (has_value c) = true -> filled_from c (fill_missing c).
Proof.
  destruct c as [vs|vs|vs]; cbn [filled_from fill_missing]; intros H.
  - reflexivity.
  - destruct (isna_any (Float64 vs)) eqn:E.
    + right. cbn [implb] in H. apply has_value_Float64, median_of_Some in H as [m Hm].
      rewrite Hm. exists m. split; [reflexivity | now apply median_of_is_median].
    + left. split; [reflexivity|]. apply isna_any_Float64 in E.
      destruct (median_of (dropna vs)); [|reflexivity]. now rewrite fill_complete.
  - destruct (isna_any (Object vs)) eqn:E.
    + right. cbn [implb] in H. apply has_value_Object in H.
      apply (modes_nonempty String.eqb String.leb String.eqb_eq) in H.
      destruct (modes String.eqb String.leb (dropna vs)) as [|m rest] eqn:Em; [congruence|].
      exists m. split; [reflexivity|]. exact (mode_most_frequent _ _ _ Em).
    + left. split; [reflexivity|]. apply isna_any_Object in E.
      destruct (modes String.eqb String.leb (dropna vs)); [reflexivity|].
      now rewrite fill_complete.
Qed.

(** C2 (as amended). On a well-formed table whose floating-point values
    are below [2^1023] in magnitude and in which every column that has a
    missing marker also has at least one value, the Null Handler returns a
    table with the same index and labels in which every column is the
    input column with its missing values filled: a floating-point column
    with the median of its values (the middle value in increasing order,
    for an even count the floating-point mean of the two in the middle), a
    text column with a mode (a most frequent value); the other cells are
    as they were.  No column of the returned table contains a missing
    marker. *)
Theorem handle_nulls_fills (df : DataFrame) :
  wf df ->
  fillable df = true ->
  floats_below 1023 df = true ->
  exists df',
    handle_nulls df = Ok df' /\
    index df' = index df /\
    columns df' = columns df /\
    Forall2 filled_from (map snd (cols df)) (map snd (cols df')) /\
    forallb (fun nc => negb (isna_any (snd nc))) (cols df') = true.
Proof.
  intros [ND _] Hf _. unfold fillable in Hf. rewrite forallb_forall in Hf.
  unfold handle_nulls, copy.
  rewrite (for_each_select is_numeric _
             (fun c => if isna_any c then fillna (median c) c else c) df ND).
  2:{ intros n c df0 _ _ Hl. unfold getitem. rewrite Hl. cbn [bind].
      destruct (isna_any c); [reflexivity|]. now rewrite setitem_same. }
  cbn [bind].
  set (df1 := mkDF (index df) _).
  assert (E1 : cols df1 = map (fun nc => (fst nc, if is_numeric (snd nc)
                                                  then fill_missing (snd nc)
                                                  else snd nc)) (cols df)).
  { unfold df1. cbn [cols]. apply map_ext_in. intros [n c] _. simpl.
    destruct (is_numeric c) eqn:En; [|reflexivity]. now rewrite fill_numeric. }
  assert (ND1 : NoDup (columns df1)).
  { unfold columns. rewrite E1, map_map. simpl. exact ND. }
  rewrite (for_each_select is_object _ fill_missing df1 ND1).
  2:{ intros n c df0 Hobj Hin Hl. unfold getitem. rewrite Hl. cbn [bind].
      assert (Hc : implb (isna_any c) (has_value c) = true).
      { rewrite E1 in Hin. apply list_elem_of_In, in_map_iff in Hin.
        destruct Hin as ([n0 c0] & E & Hin0). simpl in E.
        specialize (Hf _ Hin0). simpl in Hf.
        destruct (is_numeric c0) eqn:En; inversion E; subst; [|exact Hf].
        destruct (fill_missing_dtype c0) as [Hd _].
        rewrite En in Hd. destruct (fill_missing c0); discriminate. }
      pose proof (fill_text c Hobj Hc) as Ht.
      destruct (isna_any c).
      - destruct (first_item (mode c)) as [m|e]; simpl in *; [|discriminate].
        now inversion Ht.
      - assert (Ht' : fill_missing c = c) by congruence.
        rewrite Ht'. now rewrite setitem_same. }
  cbn [bind]. eexists. split; [reflexivity|]. cbn [index cols].
  split; [reflexivity|].
  assert (E2 : map (fun nc => (fst nc, if is_object (snd nc) then fill_missing (snd nc)
                                       else snd nc)) (cols df1)
               = map (fun nc => (fst nc, fill_missing (snd nc))) (cols df)).
  { rewrite E1, map_map. apply map_ext. intros [n c]. simpl.
    destruct c as [vs|vs|vs]; simpl; try reflexivity.
    now destruct (median_of (dropna vs)). }
  rewrite E2.
  split; [unfold columns; cbn [cols]; now rewrite map_map|].
  split.
  { rewrite map_map. cbn [snd]. clear -Hf.
    induction (cols df) as [|nc cs IH]; [constructor|]. cbn [map].
    constructor.
    - apply fill_missing_filled_from. apply Hf. now left.
    - apply IH. intros x Hx. apply Hf. now right. }
  rewrite forallb_forall. intros [n c] Hin.
  apply in_map_iff in Hin. destruct Hin as ([n0 c0] & E & Hin0).
  inversion E; subst. simpl.
  rewrite (fill_missing_complete c0); [reflexivity|]. exact (Hf _ Hin0).
Qed.

Lemma handle_nulls_fills_witness :
  exists df',
    handle_nulls nulls_table = Ok df' /\
    columns df' = ["income"; "education"; "claims"] /\
    forallb (fun nc => negb (isna_any (snd nc))) (cols df') = true.
Proof.
  destruct (handle_nulls_fills nulls_table) as (df' & H1 & _ & H2 & _ & H3).
  - solve_wf.
  - reflexivity.
  - reflexivity.
  - exists df'. split; [exact H1|]. split; [exact H2 | exact H3].
Defined.

(** C2, counterexample to the claim as stated.  A numeric column whose
    cells are all missing has the median NaN: the Null Handler returns the
    table as it was, with the missing markers in place. *)
Lemma handle_nulls_keeps_all_missing_numeric :
  wf all_missing_numeric_table /\
  handle_nulls all_missing_numeric_table = Ok all_missing_numeric_table /\
  exists c, lookup_col "income" (cols all_missing_numeric_table) = Some c /\
            isna_any c = true.
Proof.
  split; [solve_wf|]. split; [reflexivity|].
  eexists. split; reflexivity.
Qed.

(** ** Null Handler: a column without any value *)

(** C10. There is a well-formed table with a text column whose cells are
    all missing on which the Null Handler raises (the mode of the column
    is empty and has no first element) instead of returning a table.  It
    raises on every well-formed table with such a column. *)
Theorem handle_nulls_raises_on_all_missing_text :
  (exists df vs,
      wf df /\
      lookup_col "education" (cols df) = Some (Object vs) /\
      vs <> [] /\
      Forall (fun v => v = None) vs /\
      mode (Object vs) = Object [] /\
      handle_nulls df = Raise KeyError) /\
  (forall df n vs,
      wf df ->
      lookup_col n (cols df) = Some (Object vs) ->
      vs <> [] ->
      Forall (fun v => v = None) vs ->
      handle_nulls df = Raise KeyError).
Proof.
  split; [|exact handle_nulls_all_missing_text].
  exists all_missing_text_table, [None; None].
  split; [solve_wf|].
  split; [reflexivity|].
  split; [discriminate|].
  split; [repeat constructor|].
  split; reflexivity.
Qed.

(** ** Deduplicator *)

Section Deduplicator.

Lemma add_cells_nil_r (cs : list cell) : add_cells cs [] = [].
Proof. now destruct cs. Qed.

Lemma unmarked_add_cells (marks : list bool) (cs : list cell) (rs : list row) :
  unmarked marks (add_cells cs rs) = add_cells (unmarked marks cs) (unmarked marks rs).
Proof.
  revert cs rs. induction marks as [|b marks IH]; intros cs rs; [reflexivity|].
  destruct cs as [|c cs]; [now destruct rs|].
  destruct rs as [|r rs]; [simpl; now rewrite add_cells_nil_r|].
  simpl. destruct b; simpl; now rewrite IH.
Qed.

Lemma unmarked_repeat {A B : Type} (marks : list bool) (l : list A) (x : B) :
  unmarked marks (repeat x (length l)) = repeat x (length (unmarked marks l)).
Proof.
  revert l. induction marks as [|b marks IH]; intros l; [reflexivity|].
  destruct l as [|a l]; [reflexivity|].
  simpl. destruct b; simpl; now rewrite IH.
Qed.

Lemma unmarked_map {A B : Type} (f : A -> B) (marks : list bool) (l : list A) :
  unmarked marks (map f l) = map f (unmarked marks l).
Proof.
  revert l. induction marks as [|b marks IH]; intros l; [reflexivity|].
  destruct l as [|a l]; [reflexivity|].
  simpl. destruct b; simpl; now rewrite IH.
Qed.

Lemma cells_col_unmarked (marks : list bool) (c : column) :
  cells (col_unmarked marks c) = unmarked marks (cells c).
Proof. destruct c; simpl; now rewrite unmarked_map. Qed.

(** Dropping the marked rows of the table drops them from its rows. *)
Lemma rows_drop_marked (marks : list bool) (df : DataFrame) :
  rows (drop_marked marks df) = unmarked marks (rows df).
Proof.
  unfold rows, drop_marked. cbn [index cols].
  induction (cols df) as [|[n c] cs IH]; simpl.
  - now rewrite unmarked_repeat.
  - now rewrite IH, unmarked_add_cells, cells_col_unmarked.
Qed.

Lemma rows_reset_index (df : DataFrame) : rows (reset_index df) = rows df.
Proof. unfold rows, reset_index. cbn [index cols]. now rewrite length_map, length_seq. Qed.

Lemma length_add_cells (cs : list cell) (rs : list row) :
  length cs = length rs -> length (add_cells cs rs) = length rs.
Proof.
  revert rs. induction cs as [|c cs IH]; intros [|r rs]; simpl; try discriminate; auto.
Qed.

(** A table whose columns are as long as its index has one row per label. *)
Lemma length_rows (df : DataFrame) :
  Forall (fun c => col_len c = length (index df)) (map snd (cols df)) ->
  length (rows df) = length (index df).
Proof.
  unfold rows. induction (cols df) as [|[n c] cs IH]; simpl; intros H.
  - apply repeat_length.
  - inversion H as [|? ? Hc Hcs]; subst. specialize (IH Hcs).
    rewrite length_add_cells; [exact IH|].
    rewrite IH, <- Hc. destruct c; simpl; apply length_map.
Qed.

Lemma unmarked_sublist {A : Type} (marks : list bool) (l : list A) :
  sublist (unmarked marks l) l.
Proof.
  revert l. induction marks as [|b marks IH]; intros l; [apply sublist_nil_l|].
  destruct l as [|a l]; [constructor|].
  simpl. destruct b; [apply sublist_cons | apply sublist_skip]; apply IH.
Qed.

Lemma length_unmarked {A B : Type} (marks : list bool) (l : list A) (k : list B) :
  length l = length k -> length (unmarked marks l) = length (unmarked marks k).
Proof.
  revert l k. induction marks as [|b marks IH]; intros l k H; [reflexivity|].
  destruct l as [|a l], k as [|a' k]; simpl in *; try discriminate; [reflexivity|].
  destruct b; simpl; rewrite (IH l k); auto.
Qed.

Lemma length_dup_first (seen rs : list row) : length (dup_first seen rs) = length rs.
Proof. revert seen. induction rs as [|r rs IH]; intros seen; simpl; auto. Qed.

Lemma length_dup_last (rs : list row) : length (dup_last rs) = length rs.
Proof. induction rs as [|r rs IH]; simpl; auto. Qed.

(** With [keep="first"] a row is marked exactly when an equal row stands
    before it. *)
Lemma dup_first_spec (seen rs : list row) (i : nat) (r : row) :
  nth_error rs i = Some r ->
  exists b, nth_error (dup_first seen rs) i = Some b /\
    (b = true <->
     (exists s, In s seen /\ row_eqb r s = true) \/
     (exists j r', (j < i)%nat /\ nth_error rs j = Some r' /\ row_eqb r r' = true)).
Proof.
  revert seen i. induction rs as [|r0 rs IH]; intros seen i H.
  - now destruct i.
  - destruct i as [|i]; simpl in *.
    + inversion H; subst. eexists. split; [reflexivity|].
      rewrite existsb_exists. split.
      * intros (s & Hs & E). left. eauto.
      * intros [(s & Hs & E)|(j & r' & Hj & _)]; [eauto | lia].
    + destruct (IH (r0 :: seen) i H) as (b & Hb & Hiff).
      exists b. split; [exact Hb|]. rewrite Hiff. split.
      * intros [(s & [<-|Hs] & E)|(j & r' & Hj & Hr & E)].
        -- right. exists 0%nat, r0. split; [lia|]. split; [reflexivity | exact E].
        -- left. eauto.
        -- right. exists (S j), r'. split; [lia|]. split; assumption.
      * intros [(s & Hs & E)|(j & r' & Hj & Hr & E)].
        -- left. exists s. split; [now right | exact E].
        -- destruct j as [|j]; simpl in Hr.
           ++ inversion Hr; subst. left. exists r'. split; [now left | exact E].
           ++ right. exists j, r'. split; [lia|]. split; assumption.
Qed.

(** With [keep="last"] a row is marked exactly when an equal row stands
    after it. *)
Lemma dup_last_spec (rs : list row) (i : nat) (r : row) :
  nth_error rs i = Some r ->
  exists b, nth_error (dup_last rs) i = Some b /\
    (b = true <->
     exists j r', (i < j)%nat /\ nth_error rs j = Some r' /\ row_eqb r r' = true).
Proof.
  revert i. induction rs as [|r0 rs IH]; intros i H.
  - now destruct i.
  - destruct i as [|i]; simpl in *.
    + inversion H; subst. eexists. split; [reflexivity|].
      rewrite existsb_exists. split.
      * intros (s & Hs & E). apply In_nth_error in Hs as [j Hj].
        exists (S j), s. split; [lia|]. split; assumption.
      * intros (j & r' & Hj & Hr & E). destruct j as [|j]; [lia|]. simpl in Hr.
        exists r'. split; [now apply nth_error_In in Hr | exact E].
    + destruct (IH i H) as (b & Hb & Hiff).
      exists b. split; [exact Hb|]. rewrite Hiff. split.
      * intros (j & r' & Hj & Hr & E). exists (S j), r'.
        split; [lia|]. split; assumption.
      * intros (j & r' & Hj & Hr & E). destruct j as [|j]; [lia|]. simpl in Hr.
        exists j, r'. split; [lia|]. split; assumption.
Qed.

End Deduplicator.

(** ** Deduplicator: the surviving rows *)

Section RowEquality.

Lemma cell_eqb_refl (x : cell) : cell_eqb x x = true.
Proof.
  destruct x as [z|[q|]|[s|]]; simpl; auto using Z.eqb_refl, Qeq_bool_refl, String.eqb_refl.
Qed.

Lemma cell_eqb_sym (x y : cell) : cell_eqb x y = cell_eqb y x.
Proof.
  destruct x as [a|[a|]|[a|]], y as [b|[b|]|[b|]]; simpl; try reflexivity.
  - apply Z.eqb_sym.
  - destruct (Qeq_bool a b) eqn:E1, (Qeq_bool b a) eqn:E2; try reflexivity.
    + apply Qeq_bool_sym in E1. congruence.
    + apply Qeq_bool_sym in E2. congruence.
  - apply String.eqb_sym.
Qed.

Lemma cell_eqb_trans (x y z : cell) :
  cell_eqb x y = true -> cell_eqb y z = true -> cell_eqb x z = true.
Proof.
  destruct x as [a|[a|]|[a|]], y as [b|[b|]|[b|]], z as [c|[c|]|[c|]];
    simpl; try discriminate; try reflexivity.
  - rewrite !Z.eqb_eq. congruence.
  - apply Qeq_bool_trans.
  - rewrite !String.eqb_eq. congruence.
Qed.

Lemma row_eqb_refl (r : row) : row_eqb r r = true.
Proof. induction r as [|x r IH]; simpl; [reflexivity | now rewrite cell_eqb_refl]. Qed.

Lemma row_eqb_sym (r s : row) : row_eqb r s = row_eqb s r.
Proof.
  revert s. induction r as [|x r IH]; intros [|y s]; simpl; try reflexivity.
  now rewrite cell_eqb_sym, IH.
Qed.

Lemma row_eqb_trans (r s t : row) :
  row_eqb r s = true -> row_eqb s t = true -> row_eqb r t = true.
Proof.
  revert s t. induction r as [|x r IH]; intros [|y s] [|z t]; simpl;
    try discriminate; try reflexivity.
  rewrite !andb_true_iff. intros [H1 H2] [H3 H4]. split.
  - now apply cell_eqb_trans with y.
  - now apply IH with s.
Qed.

End RowEquality.

Section Survivors.

Context {A : Type}.

Lemma In_unmarked (marks : list bool) (l : list A) (i : nat) (x : A) :
  nth_error l i = Some x -> nth_error marks i = Some false -> In x (unmarked marks l).
Proof.
  revert l i. induction marks as [|b marks IH]; intros l i Hl Hm; [now destruct i|].
  destruct l as [|a l]; [now destruct i|].
  destruct i as [|i]; simpl in *.
  - inversion Hl; inversion Hm; subst. now left.
  - destruct b; [|right]; now apply IH with i.
Qed.

Lemma unmarked_position (marks : list bool) (l : list A) (i : nat) (x : A) :
  nth_error (unmarked marks l) i = Some x ->
  exists p, nth_error l p = Some x /\ nth_error marks p = Some false.
Proof.
  revert l i. induction marks as [|b marks IH]; intros l i H; [now destruct i|].
  destruct l as [|a l]; [now destruct i|].
  simpl in H. destruct b.
  - destruct (IH l i H) as (p & H1 & H2). now exists (S p).
  - destruct i as [|i]; simpl in H.
    + inversion H; subst. now exists 0%nat.
    + destruct (IH l i H) as (p & H1 & H2). now exists (S p).
Qed.

Lemma unmarked_positions (marks : list bool) (l : list A) (i j : nat) (x y : A) :
  (i < j)%nat ->
  nth_error (unmarked marks l) i = Some x ->
  nth_error (unmarked marks l) j = Some y ->
  exists p q, (p < q)%nat /\
    nth_error l p = Some x /\ nth_error marks p = Some false /\
    nth_error l q = Some y /\ nth_error marks q = Some false.
Proof.
  revert l i j. induction marks as [|b marks IH]; intros l i j Hij Hi Hj; [now destruct i|].
  destruct l as [|a l]; [now destruct i|].
  simpl in Hi, Hj. destruct b.
  - destruct (IH l i j Hij Hi Hj) as (p & q & H & H1 & H2 & H3 & H4).
    exists (S p), (S q). repeat split; try assumption. lia.
  - destruct j as [|j]; [lia|]. simpl in Hj.
    destruct i as [|i]; simpl in Hi.
    + inversion Hi; subst.
      destruct (unmarked_position marks l j y Hj) as (q & H3 & H4).
      exists 0%nat, (S q). repeat split; try assumption. lia.
    + destruct (IH l i j ltac:(lia) Hi Hj) as (p & q & H & H1 & H2 & H3 & H4).
      exists (S p), (S q). repeat split; try assumption. lia.
Qed.

End Survivors.

Section KeptOccurrence.

(** [marks] marks a row exactly when an equal row stands on the kept side
    of it; [side j i] says that position [j] is on the kept side of [i]. *)
Context (rs : list row) (marks : list bool) (side : nat -> nat -> Prop)
        (measure : nat -> nat).

Hypothesis marks_length : length marks = length rs.

Hypothesis marks_spec : forall i r, nth_error rs i = Some r ->
  (nth_error marks i = Some true <->
   exists j r', side j i /\ nth_error rs j = Some r' /\ row_eqb r r' = true).

Hypothesis side_measure : forall j i r,
  side j i -> nth_error rs j = Some r -> (measure j < measure i)%nat.

Hypothesis side_total : forall p q, (p < q)%nat -> side p q \/ side q p.

Lemma mark_false (i : nat) (r : row) :
  nth_error rs i = Some r -> nth_error marks i <> Some true ->
  nth_error marks i = Some false.
Proof.
  intros Hr Hn.
  destruct (nth_error marks i) as [[|]|] eqn:E; [congruence | reflexivity|].
  apply nth_error_None in E. rewrite marks_length in E.
  assert (nth_error rs i <> None) by congruence.
  apply nth_error_Some in H. lia.
Qed.

(** Every row has an equal row among the survivors. *)
Lemma survivors_complete (i : nat) (r : row) :
  nth_error rs i = Some r ->
  exists r', In r' (unmarked marks rs) /\ row_eqb r r' = true.
Proof.
  remember (measure i) as k eqn:Ek. revert i r Ek.
  induction k as [k IH] using lt_wf_ind. intros i r Ek Hr.
  destruct (nth_error marks i) as [[|]|] eqn:E.
  - apply (marks_spec i r Hr) in E as (j & rj & Hs & Hj & Eq).
    destruct (IH (measure j)) with (i := j) (r := rj) as (r' & Hin & Eq');
      [subst k; now apply side_measure with rj | reflexivity | exact Hj |].
    exists r'. split; [exact Hin | now apply row_eqb_trans with rj].
  - exists r. split; [now apply In_unmarked with i | apply row_eqb_refl].
  - assert (Hf : nth_error marks i = Some false) by (apply mark_false with r; congruence).
    congruence.
Qed.

(** No two survivors are equal. *)
Lemma survivors_distinct (i j : nat) (r r' : row) :
  (i < j)%nat ->
  nth_error (unmarked marks rs) i = Some r ->
  nth_error (unmarked marks rs) j = Some r' ->
  row_eqb r r' = false.
Proof.
  intros Hij Hi Hj.
  destruct (unmarked_positions marks rs i j r r' Hij Hi Hj)
    as (p & q & Hpq & Hp & Mp & Hq & Mq).
  destruct (row_eqb r r') eqn:E; [|reflexivity].
  destruct (side_total p q Hpq) as [Hs|Hs].
  - assert (H : nth_error marks q = Some true).
    { apply (marks_spec q r' Hq). exists p, r.
      split; [exact Hs|]. split; [exact Hp|]. now rewrite row_eqb_sym. }
    congruence.
  - assert (H : nth_error marks p = Some true).
    { apply (marks_spec p r Hp). exists q, r'.
      split; [exact Hs|]. split; [exact Hq | exact E]. }
    congruence.
Qed.

End KeptOccurrence.

(** C3 (as amended). On a well-formed table with at least one row and one
    column: [handle_duplicates] raises [ValueError] whenever [keep] is
    neither ["first"] nor ["last"]; for ["first"] and ["last"] it returns a
    table with the same labels whose rows are the rows of the input that
    are not marked, in their original order, where a row is marked exactly
    when a fully-equal row stands before it (["first"]) or after it
    (["last"]); every row of the input has an equal row among the
    survivors and no two survivors are equal; the index of the result is
    0, 1, ... up to the number of surviving rows, and the result is
    well-formed. *)
Theorem handle_duplicates_spec (df : DataFrame) (keep : string) :
  wf df ->
  empty df = false ->
  (keep <> "first" -> keep <> "last" ->
   handle_duplicates df keep = Raise ValueError) /\
  (keep = "first" \/ keep = "last" ->
   exists df' marks,
     handle_duplicates df keep = Ok df' /\
     columns df' = columns df /\
     length marks = length (rows df) /\
     (forall i r, nth_error (rows df) i = Some r ->
        (nth_error marks i = Some true <->
         exists j r',
           (if String.eqb keep "first" then (j < i)%nat else (i < j)%nat) /\
           nth_error (rows df) j = Some r' /\ row_eqb r r' = true)) /\
     rows df' = unmarked marks (rows df) /\
     sublist (rows df') (rows df) /\
     (forall r, In r (rows df) ->
        exists r', In r' (rows df') /\ row_eqb r r' = true) /\
     (forall i j r r', (i < j)%nat ->
        nth_error (rows df') i = Some r -> nth_error (rows df') j = Some r' ->
        row_eqb r r' = false) /\
     index df' = map Z.of_nat (seq 0 (length (rows df'))) /\
     wf df').
Proof.
  intros [ND Hlen] Hne. unfold handle_duplicates, drop_duplicates, copy.
  rewrite Hne. unfold duplicated. split.
  - intros H1 H2.
    apply String.eqb_neq in H1, H2. now rewrite H1, H2.
  - intros Hk.
    set (marks := if String.eqb keep "first" then dup_first [] (rows df)
                  else dup_last (rows df)).
    assert (Hrun : (let* marks0 :=
                      if String.eqb keep "first" then Ok (dup_first [] (rows df))
                      else if String.eqb keep "last" then Ok (dup_last (rows df))
                      else Raise ValueError in
                    Ok (drop_marked marks0 df)) = Ok (drop_marked marks df)).
    { unfold marks. destruct Hk as [-> | ->]; reflexivity. }
    rewrite Hrun. cbn [bind].
    assert (Hml : length marks = length (rows df)).
    { unfold marks. destruct (String.eqb keep "first");
        [apply length_dup_first | apply length_dup_last]. }
    assert (Hrows : rows (reset_index (drop_marked marks df)) = unmarked marks (rows df)).
    { now rewrite rows_reset_index, rows_drop_marked. }
    assert (Hcols : columns (reset_index (drop_marked marks df)) = columns df).
    { unfold columns, reset_index, drop_marked. cbn [cols].
      rewrite map_map. reflexivity. }
    assert (Hidx : length (unmarked marks (index df)) = length (unmarked marks (rows df))).
    { apply length_unmarked. symmetry. now apply length_rows. }
    assert (Hspec : forall i r, nth_error (rows df) i = Some r ->
              (nth_error marks i = Some true <->
               exists j r',
                 (if String.eqb keep "first" then (j < i)%nat else (i < j)%nat) /\
                 nth_error (rows df) j = Some r' /\ row_eqb r r' = true)).
    { intros i r Hr. unfold marks.
      destruct (String.eqb keep "first").
      - destruct (dup_first_spec [] (rows df) i r Hr) as (b & Hb & Hiff).
        rewrite Hb. split.
        + intros E. assert (Eb : b = true) by congruence.
          apply Hiff in Eb as [(s & [] & _)|H]. exact H.
        + intros H. f_equal. apply Hiff. now right.
      - destruct (dup_last_spec (rows df) i r Hr) as (b & Hb & Hiff).
        rewrite Hb. split.
        + intros E. apply Hiff. congruence.
        + intros H. f_equal. now apply Hiff. }
    set (side := fun j i : nat =>
           if String.eqb keep "first" then (j < i)%nat else (i < j)%nat).
    set (measure := fun i : nat =>
           if String.eqb keep "first" then i else (length (rows df) - i)%nat).
    assert (Hmeasure : forall j i r, side j i -> nth_error (rows df) j = Some r ->
              (measure j < measure i)%nat).
    { unfold side, measure. intros j i r Hs Hj.
      destruct (String.eqb keep "first"); [exact Hs|].
      assert (Hlt : (j < length (rows df))%nat)
        by (apply nth_error_Some; congruence).
      lia. }
    assert (Htotal : forall p q, (p < q)%nat -> side p q \/ side q p).
    { unfold side. intros p q Hpq.
      destruct (String.eqb keep "first"); [now left | now right]. }
    exists (reset_index (drop_marked marks df)), marks.
    split; [reflexivity|].
    split; [exact Hcols|].
    split; [exact Hml|].
    split; [exact Hspec|].
    split; [exact Hrows|].
    split; [rewrite Hrows; apply unmarked_sublist|].
    split.
    { intros r Hin. apply In_nth_error in Hin as [i Hi]. rewrite Hrows.
      exact (survivors_complete (rows df) marks side measure Hml Hspec Hmeasure i r Hi). }
    split.
    { rewrite Hrows. exact (survivors_distinct (rows df) marks side Hspec Htotal). }
    split.
    { rewrite Hrows. unfold reset_index, drop_marked. cbn [index].
      now rewrite Hidx. }
    split; [now rewrite Hcols|].
    unfold reset_index, drop_marked. cbn [index cols].
    rewrite length_map, length_seq, map_map. cbn [snd].
    rewrite Forall_map in Hlen |- *.
    eapply Forall_impl; [exact Hlen|].
    intros [n c] Hc. simpl in *.
    destruct c as [vs|vs|vs]; simpl in *; now apply length_unmarked.
Qed.

Lemma handle_duplicates_spec_witness :
  handle_duplicates duplicates_table "smallest" = Raise ValueError /\
  exists df',
    handle_duplicates duplicates_table "first" = Ok df' /\
    index df' = [0; 1; 2].
Proof.
  split.
  - apply (handle_duplicates_spec duplicates_table "smallest");
      [solve_wf | reflexivity | discriminate | discriminate].
  - destruct (handle_duplicates_spec duplicates_table "first") as [_ H];
      [solve_wf | reflexivity |].
    destruct H as (df' & marks & H1 & _ & _ & _ & H2 & _ & _ & _ & H3 & _); [now left|].
    exists df'. split; [exact H1|].
    rewrite H3. vm_compute in H1. inversion H1. reflexivity.
Defined.

(** C3, counterexample to the claim as stated.  On a table without rows
    [drop_duplicates] returns a copy before it looks at [keep]: a [keep]
    that is neither ["first"] nor ["last"] is accepted and the table is
    returned. *)
Lemma handle_duplicates_accepts_any_keep_on_empty :
  wf no_rows_table /\
  "smallest" <> "first" /\ "smallest" <> "last" /\
  handle_duplicates no_rows_table "smallest" = Ok no_rows_table.
Proof.
  split; [solve_wf|]. split; [discriminate|]. split; [discriminate | reflexivity].
Qed.


(** ** The object store: every step works on its own copy *)

Section StoreLemmas.

Context (l : Store.loc).

Lemma runs_ret {A : Type} (a : A) (t : DataFrame) : runs l t (Store.ret a) (Ok a) t.
Proof. intros h. reflexivity. Qed.

Lemma runs_lift {A : Type} (r : result A) (t : DataFrame) : runs l t (Store.lift r) r t.
Proof. intros h. reflexivity. Qed.

Lemma runs_read (t : DataFrame) : runs l t (Store.read l) (Ok t) t.
Proof. intros h. unfold Store.read. now rewrite lookup_insert_eq. Qed.

Lemma runs_write (t t' : DataFrame) : runs l t (Store.write l t') (Ok tt) t'.
Proof. intros h. unfold Store.write. now rewrite insert_insert_eq. Qed.

Lemma runs_bind_Ok {A B : Type} (m : Store.M A) (k : A -> Store.M B)
  (t t1 t2 : DataFrame) (a : A) (r : result B) :
  runs l t m (Ok a) t1 -> runs l t1 (k a) r t2 -> runs l t (Store.bind m k) r t2.
Proof. intros H1 H2 h. unfold Store.bind. now rewrite H1, H2. Qed.

Lemma runs_bind_Raise {A B : Type} (m : Store.M A) (k : A -> Store.M B)
  (t t1 : DataFrame) (e : exn) :
  runs l t m (Raise e) t1 -> runs l t (Store.bind m k) (Raise e) t1.
Proof. intros H1 h. unfold Store.bind. now rewrite H1. Qed.

Lemma tracks_ret {A : Type} (a : A) : tracks l (Store.ret a) Ok a.
Proof. intros t. exists t. split; [apply runs_ret | congruence]. Qed.

Lemma tracks_ext {A : Type} (m : Store.M A) (f g : DataFrame -> result DataFrame) (a : A) :
  tracks l m f a -> (forall t, f t = g t) -> tracks l m g a.
Proof. intros H E t. rewrite <- E. apply H. Qed.

(** Sequencing. *)
Lemma tracks_seq {A B : Type} (m : Store.M A) (k : A -> Store.M B)
  (f g : DataFrame -> result DataFrame) (a : A) (b : B) :
  tracks l m f a -> tracks l (k a) g b ->
  tracks l (Store.bind m k) (fun t => let* t' := f t in g t') b.
Proof.
  intros Hm Hk t. destruct (Hm t) as (t1 & R1 & E1).
  destruct (f t) as [t'|e] eqn:Ef; simpl in *.
  - rewrite (E1 t' eq_refl) in R1.
    destruct (Hk t') as (t2 & R2 & E2).
    exists t2. split; [now apply runs_bind_Ok with t' a | exact E2].
  - exists t1. split; [now apply runs_bind_Raise | discriminate].
Qed.

(** A value read from the object, then the rest. *)
Lemma tracks_read {A B : Type} (g : DataFrame -> A) (k : A -> Store.M B)
  (F : A -> DataFrame -> result DataFrame) (b : B) :
  (forall a, tracks l (k a) (F a) b) ->
  tracks l (Store.bind (Store.bind (Store.read l) (fun t => Store.ret (g t))) k)
    (fun t => F (g t) t) b.
Proof.
  intros Hk t. destruct (Hk (g t) t) as (t1 & R & E).
  exists t1. split; [|exact E].
  apply runs_bind_Ok with t (g t); [|exact R].
  apply runs_bind_Ok with t t; [apply runs_read | apply runs_ret].
Qed.

(** A value that may raise, then the rest. *)
Lemma tracks_lift {A B : Type} (r : result A) (k : A -> Store.M B)
  (F : A -> DataFrame -> result DataFrame) (b : B) :
  (forall a, tracks l (k a) (F a) b) ->
  tracks l (Store.bind (Store.lift r) k) (fun t => let* a := r in F a t) b.
Proof.
  intros Hk t. destruct r as [a|e]; simpl.
  - destruct (Hk a t) as (t1 & R & E). exists t1. split; [|exact E].
    apply runs_bind_Ok with t a; [apply runs_lift | exact R].
  - exists t. split; [|discriminate].
    apply runs_bind_Raise. apply runs_lift.
Qed.

Lemma tracks_getitem {B : Type} (n : string) (k : column -> Store.M B)
  (F : column -> DataFrame -> result DataFrame) (b : B) :
  (forall c, tracks l (k c) (F c) b) ->
  tracks l (Store.bind (Store.getitem l n) k)
    (fun t => let* c := getitem n t in F c t) b.
Proof.
  intros Hk t. destruct (getitem n t) as [c|e] eqn:Eg; simpl.
  - destruct (Hk c t) as (t1 & R & E). exists t1. split; [|exact E].
    apply runs_bind_Ok with t c; [|exact R].
    apply runs_bind_Ok with t t; [apply runs_read|]. rewrite <- Eg. apply runs_lift.
  - exists t. split; [|discriminate].
    apply runs_bind_Raise.
    apply runs_bind_Ok with t t; [apply runs_read|]. rewrite <- Eg. apply runs_lift.
Qed.

(** A value read from the object that may raise, then the rest. *)
Lemma tracks_read_lift {A B : Type} (g : DataFrame -> result A) (k : A -> Store.M B)
  (F : A -> DataFrame -> result DataFrame) (b : B) :
  (forall a, tracks l (k a) (F a) b) ->
  tracks l (Store.bind (Store.bind (Store.read l) (fun t => Store.lift (g t))) k)
    (fun t => let* a := g t in F a t) b.
Proof.
  intros Hk t. destruct (g t) as [a|e] eqn:Eg; simpl.
  - destruct (Hk a t) as (t1 & R & E). exists t1. split; [|exact E].
    apply runs_bind_Ok with t a; [|exact R].
    apply runs_bind_Ok with t t; [apply runs_read|]. rewrite <- Eg. apply runs_lift.
  - exists t. split; [|discriminate].
    apply runs_bind_Raise.
    apply runs_bind_Ok with t t; [apply runs_read|]. rewrite <- Eg. apply runs_lift.
Qed.

Lemma tracks_setitem (n : string) (c : column) :
  tracks l (Store.setitem l n c) (fun t => Ok (setitem n c t)) tt.
Proof.
  intros t. exists (setitem n c t). split; [|congruence].
  apply runs_bind_Ok with t t; [apply runs_read | apply runs_write].
Qed.

Lemma tracks_set_columns (names : list string) :
  tracks l (Store.set_columns l names) (set_columns names) tt.
Proof.
  intros t. destruct (set_columns names t) as [t'|e] eqn:E; simpl.
  - exists t'. split; [|congruence].
    apply runs_bind_Ok with t t; [apply runs_read|].
    apply runs_bind_Ok with t t'; [rewrite <- E; apply runs_lift | apply runs_write].
  - exists t. split; [|discriminate].
    apply runs_bind_Ok with t t; [apply runs_read|].
    apply runs_bind_Raise. rewrite <- E. apply runs_lift.
Qed.

Lemma tracks_for_each (names : list string) (bS : string -> Store.M unit)
  (bP : string -> DataFrame -> result DataFrame) :
  (forall n, tracks l (bS n) (bP n) tt) ->
  tracks l (Store.for_each names bS) (for_each names bP) tt.
Proof.
  intros Hb. induction names as [|n ns IH]; simpl.
  - apply tracks_ret.
  - apply (tracks_seq (bS n) (fun _ => Store.for_each ns bS) (bP n) (for_each ns bP) tt tt);
      [apply Hb | exact IH].
Qed.

End StoreLemmas.

Section StoreSteps.

Context (l : Store.loc).

Lemma tracks_update_if_present (n : string) (f : column -> result column) :
  tracks l (Store.update_if_present l n f)
    (fun t => if has_column n t then update_col n f t else Ok t) tt.
Proof.
  unfold Store.update_if_present, Store.has_column.
  apply (tracks_read l (has_column n) _
           (fun (b : bool) t => if b then update_col n f t else Ok t)).
  intros [|]; [|apply tracks_ret].
  apply (tracks_getitem l n _ (fun c t => let* c' := f c in Ok (setitem n c' t))).
  intros c.
  apply (tracks_lift l (f c) _ (fun c' t => Ok (setitem n c' t))).
  intros c'. apply tracks_setitem.
Qed.

Lemma tracks_clean_column_names :
  tracks l
    (Store.bind (Store.columns_str l) (fun names =>
     Store.bind (Store.set_columns l (map normalize_name names)) (fun _ =>
     Store.bind (Store.get_columns l) (fun names =>
     Store.bind (Store.set_columns l (map rename_st names)) (fun _ =>
     Store.ret l)))))
    clean_column_names l.
Proof.
  unfold Store.columns_str, Store.get_columns.
  apply (tracks_read_lift l columns_str _
           (fun names t =>
              let* t1 := set_columns (map normalize_name names) t in
              let* t2 := set_columns (map rename_st (columns t1)) t1 in
              Ok t2)).
  intros names.
  apply (tracks_seq l _ _ (set_columns (map normalize_name names))
           (fun t1 => let* t2 := set_columns (map rename_st (columns t1)) t1 in Ok t2)
           tt l); [apply tracks_set_columns|].
  apply (tracks_read l columns _
           (fun names t1 => let* t2 := set_columns (map rename_st names) t1 in Ok t2)).
  intros names'.
  apply (tracks_seq l _ _ (set_columns (map rename_st names')) Ok tt l);
    [apply tracks_set_columns | apply tracks_ret].
Qed.

End StoreSteps.

Section OnCopy.

Implicit Types (h : gmap Store.loc DataFrame) (t : DataFrame).

Lemma fresh_unused h : h !! fresh (dom h) = None.
Proof. apply not_elem_of_dom, is_fresh. Qed.

(** A step that copies its argument and then works on the copy only. *)
Lemma on_copy (body : Store.loc -> Store.M Store.loc)
  (f : DataFrame -> result DataFrame) h (df : Store.loc) t :
  (forall l, tracks l (body l) f l) ->
  h !! df = Some t ->
  works_on_copy (fun df => Store.bind (Store.copy df) body) f h df t.
Proof.
  intros Hb Hdf.
  set (l := fresh (dom h)).
  assert (Hl : h !! l = None) by apply fresh_unused.
  destruct (Hb l t) as (t1 & R & E).
  assert (Hrun : Store.bind (Store.copy df) body h = (returning l (f t), <[l := t1]> h)).
  { unfold Store.copy, Store.bind, Store.read, Store.alloc. rewrite Hdf. apply R. }
  unfold works_on_copy. rewrite Hrun. cbn [fst snd].
  split.
  { rewrite lookup_insert_ne; [exact Hdf | congruence]. }
  split; [now apply insert_subseteq|].
  destruct (f t) as [t'|e]; simpl; [|reflexivity].
  exists l. split; [reflexivity|]. split; [exact Hl|].
  rewrite lookup_insert_eq. f_equal. now apply E.
Qed.

Lemma clean_column_names_on_copy h (df : Store.loc) t :
  h !! df = Some t ->
  works_on_copy Store.clean_column_names clean_column_names h df t.
Proof.
  intros H. unfold Store.clean_column_names.
  apply on_copy; [|exact H]. intros l. apply tracks_clean_column_names.
Qed.

Lemma clean_invalid_values_on_copy h (df : Store.loc) t :
  h !! df = Some t ->
  works_on_copy Store.clean_invalid_values clean_invalid_values h df t.
Proof.
  intros H. unfold Store.clean_invalid_values.
  apply on_copy; [|exact H]. intros l.
  unfold clean_invalid_values, copy.
  repeat (eapply tracks_seq; [apply tracks_update_if_present|]).
  apply tracks_ret.
Qed.

Lemma format_data_types_on_copy h (df : Store.loc) t :
  h !! df = Some t ->
  works_on_copy Store.format_data_types format_data_types h df t.
Proof.
  intros H. unfold Store.format_data_types.
  apply on_copy; [|exact H]. intros l.
  unfold format_data_types, copy.
  eapply tracks_seq; [apply tracks_update_if_present|].
  unfold Store.has_column.
  apply (tracks_read l (has_column "number_of_open_complaints") _
           (fun (b : bool) t0 =>
              let* t1 :=
                if b then
                  let* t2 := update_col "number_of_open_complaints"
                               (fun c => str_split_get "/" 1 (astype_str c)) t0 in
                  update_col "number_of_open_complaints" (fun c => Ok (to_numeric c)) t2
                else Ok t0 in
              Ok t1)).
  intros b. eapply tracks_seq; [|apply tracks_ret].
  destruct b; [|apply tracks_ret].
  eapply tracks_ext.
  - apply (tracks_getitem l "number_of_open_complaints" _
             (fun c t0 =>
                let* c' := str_split_get "/" 1 (astype_str c) in
                let* t2 := Ok (setitem "number_of_open_complaints" c' t0) in
                let* c2 := getitem "number_of_open_complaints" t2 in
                Ok (setitem "number_of_open_complaints" (to_numeric c2) t2))).
    intros c.
    apply (tracks_lift l _ _
             (fun c' t0 =>
                let* t2 := Ok (setitem "number_of_open_complaints" c' t0) in
                let* c2 := getitem "number_of_open_complaints" t2 in
                Ok (setitem "number_of_open_complaints" (to_numeric c2) t2))).
    intros c'.
    eapply tracks_seq; [apply tracks_setitem|].
    apply (tracks_getitem l "number_of_open_complaints" _
             (fun c2 t2 => Ok (setitem "number_of_open_complaints" (to_numeric c2) t2))).
    intros c2. apply tracks_setitem.
  - intros t0. unfold update_col. cbn beta.
    destruct (getitem "number_of_open_complaints" t0) as [c|e]; [|reflexivity].
    cbn [bind].
    destruct (str_split_get "/" 1 (astype_str c)) as [c'|e]; [|reflexivity].
    cbn [bind].
    destruct (getitem "number_of_open_complaints" _) as [c2|e]; reflexivity.
Qed.

Lemma handle_nulls_on_copy h (df : Store.loc) t :
  h !! df = Some t ->
  works_on_copy Store.handle_nulls handle_nulls h df t.
Proof.
  intros H. unfold Store.handle_nulls.
  apply on_copy; [|exact H]. intros l.
  unfold handle_nulls, copy, Store.select_dtypes.
  apply (tracks_read l (select_dtypes is_numeric) _
           (fun numeric_cols t0 =>
              let* t1 :=
                for_each numeric_cols (fun col df0 =>
                  let* c := getitem col df0 in
                  if isna_any c then Ok (setitem col (fillna (median c) c) df0)
                  else Ok df0) t0 in
              let* t2 :=
                for_each (select_dtypes is_object t1) (fun col df0 =>
                  let* c := getitem col df0 in
                  if isna_any c then
                    let* m := first_item (mode c) in
                    Ok (setitem col (fillna m c) df0)
                  else Ok df0) t1 in
              Ok t2)).
  intros numeric_cols.
  eapply tracks_seq.
  { apply tracks_for_each. intros n.
    apply (tracks_getitem l n _
             (fun c df0 => if isna_any c then Ok (setitem n (fillna (median c) c) df0)
                           else Ok df0)).
    intros c. destruct (isna_any c); [apply tracks_setitem | apply tracks_ret]. }
  apply (tracks_read l (select_dtypes is_object) _
           (fun cat_cols t1 =>
              let* t2 :=
                for_each cat_cols (fun col df0 =>
                  let* c := getitem col df0 in
                  if isna_any c then
                    let* m := first_item (mode c) in
                    Ok (setitem col (fillna m c) df0)
                  else Ok df0) t1 in
              Ok t2)).
  intros cat_cols.
  eapply tracks_seq; [|apply tracks_ret].
  apply tracks_for_each. intros n.
  apply (tracks_getitem l n _
           (fun c df0 => if isna_any c
                         then let* m := first_item (mode c) in
                              Ok (setitem n (fillna m c) df0)
                         else Ok df0)).
  intros c. destruct (isna_any c); [|apply tracks_ret].
  apply (tracks_lift l _ _ (fun m df0 => Ok (setitem n (fillna m c) df0))).
  intros m. apply tracks_setitem.
Qed.

Lemma convert_numeric_to_int_on_copy h (df : Store.loc) t :
  h !! df = Some t ->
  works_on_copy Store.convert_numeric_to_int convert_numeric_to_int h df t.
Proof.
  intros H. unfold Store.convert_numeric_to_int.
  apply on_copy; [|exact H]. intros l.
  unfold convert_numeric_to_int, copy, Store.select_dtypes.
  apply (tracks_read l (select_dtypes is_numeric) _
           (fun numeric_cols t0 =>
              let* t1 :=
                for_each numeric_cols (fun col df0 =>
                  update_col col (fun c => astype_int (round0 c)) df0) t0 in
              Ok t1)).
  intros numeric_cols.
  eapply tracks_seq; [|apply tracks_ret].
  apply tracks_for_each. intros n. unfold update_col.
  apply (tracks_getitem l n _
           (fun c df0 => let* c' := astype_int (round0 c) in Ok (setitem n c' df0))).
  intros c.
  apply (tracks_lift l _ _ (fun c' df0 => Ok (setitem n c' df0))).
  intros c'. apply tracks_setitem.
Qed.

Lemma handle_duplicates_on_copy h (df : Store.loc) t (keep : string) :
  h !! df = Some t ->
  works_on_copy (fun df => Store.handle_duplicates df keep)
    (fun t => handle_duplicates t keep) h df t.
Proof.
  intros Hdf. unfold works_on_copy.
  set (l1 := fresh (dom h)).
  set (h1 := <[l1 := t]> h).
  assert (H1 : h !! l1 = None) by apply fresh_unused.
  assert (Hsub1 : h ⊆ h1) by now apply insert_subseteq.
  assert (Hdf1 : h1 !! df = Some t).
  { unfold h1. rewrite lookup_insert_ne; [exact Hdf | congruence]. }
  assert (Hcopy : Store.copy df h = (Ok l1, h1)).
  { unfold Store.copy, Store.bind, Store.read, Store.alloc. now rewrite Hdf. }
  assert (Hread1 : Store.read l1 h1 = (Ok t, h1)).
  { unfold Store.read, h1. now rewrite lookup_insert_eq. }
  unfold handle_duplicates, copy.
  destruct (drop_duplicates keep t) as [t'|e] eqn:Ed; cbn [bind].
  - set (l2 := fresh (dom h1)). set (h2 := <[l2 := t']> h1).
    set (l3 := fresh (dom h2)). set (h3 := <[l3 := reset_index t']> h2).
    assert (H2 : h1 !! l2 = None) by apply fresh_unused.
    assert (H3 : h2 !! l3 = None) by apply fresh_unused.
    assert (Hrun : Store.handle_duplicates df keep h = (Ok l3, h3)).
    { unfold Store.handle_duplicates, Store.bind. rewrite Hcopy.
      unfold Store.drop_duplicates, Store.bind. rewrite Hread1.
      unfold Store.lift. rewrite Ed. unfold Store.alloc. fold l2. fold h2.
      unfold Store.reset_index, Store.bind, Store.read.
      unfold h2 at 1. rewrite lookup_insert_eq. reflexivity. }
    rewrite Hrun. cbn [fst snd].
    assert (Hsub : h ⊆ h3).
    { etransitivity; [exact Hsub1|].
      etransitivity; [apply (insert_subseteq h1 l2 t' H2)|].
      apply (insert_subseteq h2 l3 (reset_index t') H3). }
    split; [exact (lookup_weaken _ _ _ _ Hdf Hsub)|].
    split; [exact Hsub|].
    exists l3. split; [reflexivity|].
    split; [|apply lookup_insert_eq].
    destruct (h !! l3) as [x|] eqn:E; [|reflexivity].
    assert (E2 : h2 !! l3 = Some x).
    { apply (lookup_weaken h h2 l3 x E).
      etransitivity; [exact Hsub1 | apply (insert_subseteq h1 l2 t' H2)]. }
    congruence.
  - assert (Hrun : Store.handle_duplicates df keep h = (Raise e, h1)).
    { unfold Store.handle_duplicates, Store.bind. rewrite Hcopy.
      unfold Store.drop_duplicates, Store.bind. rewrite Hread1.
      unfold Store.lift. now rewrite Ed. }
    rewrite Hrun. cbn [fst snd].
    split; [exact Hdf1|]. split; [exact Hsub1 | reflexivity].
Qed.

End OnCopy.

(** C8. No step changes the table it is given.  In any store [h] in which
    the reference [df] holds the table [t], each of the six steps leaves
    [df] holding [t] and leaves every other object of [h] as it was; when
    the step returns, the reference it returns was not in use in [h] and
    holds the table the step computes from [t]; when the step raises, it
    raises what the computation on [t] raises. *)
Theorem steps_work_on_a_copy
  (h : gmap Store.loc DataFrame) (df : Store.loc) (t : DataFrame) (keep : string) :
  h !! df = Some t ->
  works_on_copy Store.clean_column_names clean_column_names h df t /\
  works_on_copy Store.clean_invalid_values clean_invalid_values h df t /\
  works_on_copy Store.format_data_types format_data_types h df t /\
  works_on_copy Store.handle_nulls handle_nulls h df t /\
  works_on_copy Store.convert_numeric_to_int convert_numeric_to_int h df t /\
  works_on_copy (fun df => Store.handle_duplicates df keep)
    (fun t => handle_duplicates t keep) h df t.
Proof.
  intros H.
  split; [now apply clean_column_names_on_copy|].
  split; [now apply clean_invalid_values_on_copy|].
  split; [now apply format_data_types_on_copy|].
  split; [now apply handle_nulls_on_copy|].
  split; [now apply convert_numeric_to_int_on_copy|].
  now apply handle_duplicates_on_copy.
Qed.

Lemma steps_work_on_a_copy_witness :
  snd (Store.handle_nulls 1%positive sample_store) !! 1%positive = Some nulls_table /\
  sample_store ⊆ snd (Store.handle_duplicates 1%positive "first" sample_store).
Proof.
  destruct (steps_work_on_a_copy sample_store 1%positive nulls_table "first")
    as (_ & _ & _ & [H1 _] & _ & [_ [H2 _]]).
  - reflexivity.
  - split; [exact H1 | exact H2].
Defined.

(** * Further properties of the steps *)

(** ** Column Normalizer: the labels it produces *)

Section NormalLabels.

Lemma normalize_name_normal (s : string) : normal_label (normalize_name s) = true.
Proof.
  unfold normal_label.
  induction s as [|c s IH]; [reflexivity|].
  rewrite normalize_name_cons. cbn [all_chars]. rewrite IH, andb_true_r.
  destruct (Ascii.eqb c " ") eqn:E; [reflexivity|].
  rewrite lower_char_space, E.
  clear. destruct c as [[] [] [] [] [] [] [] []]; reflexivity.
Qed.

Lemma new_label_normal (s : string) : normal_label (new_label s) = true.
Proof.
  unfold new_label, rename_st.
  destruct (String.eqb (normalize_name s) "st"); [reflexivity|].
  apply normalize_name_normal.
Qed.

Lemma columns_clean_column_names (df : DataFrame) :
  cols df <> [] ->
  exists df',
    clean_column_names df = Ok df' /\
    columns df' = map new_label (columns df) /\
    index df' = index df /\
    map snd (cols df') = map snd (cols df).
Proof.
  intros Hne. eexists. split; [apply (clean_column_names_eq df Hne)|].
  unfold columns. cbn [cols index]. rewrite !map_map.
  split; [reflexivity|]. split; reflexivity.
Qed.

(** The labels of a list are pairwise different under [f] when no two
    entries at different positions have the same [f]. *)
Lemma NoDup_map_positions {A B : Type} (f : A -> B) (l : list A) :
  NoDup (map f l) <->
  forall i j a b, (i < j)%nat ->
    nth_error l i = Some a -> nth_error l j = Some b -> f a <> f b.
Proof.
  induction l as [|x l IH]; simpl.
  - split; [|intros _; constructor].
    intros _ i j a b _ Hi. destruct i; discriminate Hi.
  - rewrite NoDup_cons, IH. split.
    + intros [Hx Hl] i j a b Hij Hi Hj.
      destruct j as [|j]; [lia|]. destruct i as [|i]; simpl in Hi, Hj.
      * injection Hi as <-. intros E. apply Hx. rewrite E.
        apply list_elem_of_In, in_map. eapply nth_error_In, Hj.
      * apply (Hl i j a b); [lia | exact Hi | exact Hj].
    + intros H. split.
      * intros Hx. apply list_elem_of_In, in_map_iff in Hx as (b & E & Hb).
        apply In_nth_error in Hb as (j & Hj).
        apply (H 0%nat (S j) x b); [lia | reflexivity | exact Hj | now symmetry].
      * intros i j a b Hij Hi Hj. apply (H (S i) (S j) a b); [lia | exact Hi | exact Hj].
Qed.

(** Two labels get one new label exactly when they are alike. *)
Lemma new_label_alike (a b : string) : new_label a = new_label b <-> alike a b.
Proof.
  unfold new_label, alike. rewrite !new_label_spec.
  destruct (String.eqb_spec (lowered_underscored a) "st") as [Ea|Ea],
           (String.eqb_spec (lowered_underscored b) "st") as [Eb|Eb].
  - rewrite Ea, Eb. tauto.
  - rewrite Ea. split; [intros H; right; left; now split|].
    intros [H|[[_ H]|[H _]]]; congruence.
  - rewrite Eb. split; [intros H; right; right; now split|].
    intros [H|[[H _]|[H _]]]; congruence.
  - split; [now left|]. intros [H|[[H _]|[_ H]]]; congruence.
Qed.

End NormalLabels.

(** X1. On a table with at least one column the Column Normalizer returns
    a table with the same index and the same data in the same order, and
    every label of the table it returns is free of spaces and of
    upper-case ASCII letters. *)
Theorem clean_column_names_labels_normal (df : DataFrame) :
  cols df <> [] ->
  exists df',
    clean_column_names df = Ok df' /\
    index df' = index df /\
    map snd (cols df') = map snd (cols df) /\
    length (columns df') = length (columns df) /\
    Forall (fun n => normal_label n = true) (columns df').
Proof.
  intros Hne.
  destruct (columns_clean_column_names df Hne) as (df' & H & Hc & Hi & Hd).
  exists df'. split; [exact H|]. rewrite Hc.
  split; [exact Hi|]. split; [exact Hd|].
  split; [apply length_map|].
  apply List.Forall_forall. intros n Hin. apply in_map_iff in Hin as (n0 & <- & _).
  apply new_label_normal.
Qed.

Lemma clean_column_names_labels_normal_witness :
  exists df',
    clean_column_names labels_table = Ok df' /\
    Forall (fun n => normal_label n = true) (columns df').
Proof.
  destruct (clean_column_names_labels_normal labels_table) as (df' & H & _ & _ & _ & Hn);
    [discriminate|].
  exists df'. split; [exact H | exact Hn].
Defined.

(** X2. The Column Normalizer can give two columns one label.  On a
    well-formed table with at least one column and ASCII labels, the table
    it returns is well-formed (its labels are pairwise different) exactly
    when no two labels of the input are alike: agree up to the case of
    their letters and space against underscore, or read ["st"] and
    ["state"]. *)
Theorem clean_column_names_wf_iff (df : DataFrame) :
  wf df ->
  cols df <> [] ->
  Forall (fun n => ascii_text n = true) (columns df) ->
  exists df',
    clean_column_names df = Ok df' /\
    (wf df' <->
     forall i j a b, (i < j)%nat ->
       nth_error (columns df) i = Some a -> nth_error (columns df) j = Some b ->
       ~ alike a b).
Proof.
  intros [_ Hlen] Hne _.
  destruct (columns_clean_column_names df Hne) as (df' & H & Hc & Hi & Hd).
  exists df'. split; [exact H|].
  unfold wf. rewrite Hc, Hd, Hi, NoDup_map_positions.
  split.
  - intros [Hn _] i j a b Hij Ha Hb Hab.
    apply (Hn i j a b Hij Ha Hb). now apply new_label_alike.
  - intros Hn. split; [|exact Hlen].
    intros i j a b Hij Ha Hb Hab.
    apply (Hn i j a b Hij Ha Hb). now apply new_label_alike.
Qed.

Lemma clean_column_names_wf_iff_witness :
  exists df', clean_column_names collision_table = Ok df' /\ ~ wf df'.
Proof.
  destruct (clean_column_names_wf_iff collision_table) as (df' & H & Hiff).
  - solve_wf.
  - discriminate.
  - repeat constructor.
  - exists df'. split; [exact H|].
    intros Hwf. apply (proj1 Hiff Hwf 0%nat 1%nat "ST" "State"); [lia | reflexivity..|].
    right. left. split; reflexivity.
Defined.

(** ** Updates by label as maps over the columns *)

Section UpdatesAsMaps.

Implicit Types (n m : string) (c : column) (cs : list (string * column)).

Lemma map_upd_absent n f cs : n ∉ map fst cs -> map (on_label n f) cs = cs.
Proof.
  induction cs as [|[k c] cs IH]; simpl; intros H; [reflexivity|].
  apply not_elem_of_cons in H as [H1 H2]. rewrite (IH H2). unfold on_label. simpl.
  destruct (String.eqb k n) eqn:E; [|reflexivity].
  apply String.eqb_eq in E. congruence.
Qed.

Lemma lookup_None_absent n cs : lookup_col n cs = None -> n ∉ map fst cs.
Proof.
  induction cs as [|[k c] cs IH]; simpl; [intros _; apply not_elem_of_nil|].
  destruct (String.eqb k n) eqn:E; [discriminate|].
  intros H. apply not_elem_of_cons. split; [|now apply IH].
  apply String.eqb_neq in E. congruence.
Qed.

Lemma assign_as_map n f cs :
  NoDup (map fst cs) ->
  match lookup_col n cs with
  | Some c => assign_col n (f c) cs
  | None => cs
  end = map (on_label n f) cs.
Proof.
  induction cs as [|[k c0] cs IH]; simpl; intros ND; [reflexivity|].
  apply NoDup_cons in ND as [Hk ND]. unfold on_label at 1. simpl.
  destruct (String.eqb k n) eqn:E.
  - apply String.eqb_eq in E. subst k. now rewrite map_upd_absent.
  - specialize (IH ND). destruct (lookup_col n cs); now rewrite <- IH.
Qed.

Lemma map_upd_labels n f cs : map fst (map (on_label n f) cs) = map fst cs.
Proof. rewrite map_map. reflexivity. Qed.

Lemma lookup_upd m n f cs :
  lookup_col m (map (on_label n f) cs)
  = option_map (fun c => if String.eqb m n then f c else c) (lookup_col m cs).
Proof.
  induction cs as [|[k c0] cs IH]; simpl; [reflexivity|].
  destruct (String.eqb k m) eqn:E; [|exact IH].
  apply String.eqb_eq in E. subst k. reflexivity.
Qed.

(** [if n in df.columns: df[n] = f(df[n])] on a table with unique labels. *)
Lemma update_present_map n (f : column -> column) df :
  NoDup (columns df) ->
  (if has_column n df then update_col n (fun c => Ok (f c)) df else Ok df)
  = Ok (mkDF (index df) (map (on_label n f) (cols df))).
Proof.
  intros ND. rewrite has_column_lookup.
  pose proof (assign_as_map n f (cols df) ND) as H.
  destruct (lookup_col n (cols df)) as [c|] eqn:E.
  - rewrite (update_col_Ok n (fun c => Ok (f c)) df c (f c) E eq_refl).
    unfold setitem. now rewrite H.
  - rewrite <- H. now destruct df.
Qed.

(** The same for an update that may raise but does not raise on the
    column that is there. *)
Lemma update_present_map_partial n (g : column -> result column)
  (f : column -> column) df :
  NoDup (columns df) ->
  (forall c, lookup_col n (cols df) = Some c -> g c = Ok (f c)) ->
  (if has_column n df then update_col n g df else Ok df)
  = Ok (mkDF (index df) (map (on_label n f) (cols df))).
Proof.
  intros ND Hg. rewrite has_column_lookup.
  pose proof (assign_as_map n f (cols df) ND) as H.
  destruct (lookup_col n (cols df)) as [c|] eqn:E.
  - rewrite (update_col_Ok n g df c (f c) E (Hg c eq_refl)).
    unfold setitem. now rewrite H.
  - rewrite <- H. now destruct df.
Qed.

End UpdatesAsMaps.

(** ** Value Normalizer: what it returns *)

Section ValueNormalizerResult.

Lemma str_accessor_replace_text (c : column) :
  is_object c = true -> str_accessor_replace "%" "" c = Ok (strip_percent c).
Proof. destruct c; simpl; [discriminate | discriminate | reflexivity]. Qed.

Lemma clv_is_text_on_label (n : string) (f : column -> column)
  (idx idx' : list Z) (cs : list (string * column)) :
  n <> "customer_lifetime_value" ->
  clv_is_text (mkDF idx (map (on_label n f) cs)) = clv_is_text (mkDF idx' cs).
Proof.
  intros Hn. unfold clv_is_text. cbn [cols]. rewrite lookup_upd.
  destruct (lookup_col _ cs) as [c|]; [|reflexivity]. cbn [option_map].
  destruct (String.eqb_spec "customer_lifetime_value" n); [congruence | reflexivity].
Qed.

(** On a table with unique labels whose [customer_lifetime_value] is not
    numeric, the five updates of the Value Normalizer are one map over the
    columns. *)
Lemma clean_invalid_values_map (df : DataFrame) :
  NoDup (columns df) ->
  clv_is_text df = true ->
  clean_invalid_values df
  = Ok (mkDF (index df)
          (map (fun nc => (fst nc, normalized_values (fst nc) (snd nc))) (cols df))).
Proof.
  intros ND Ht. unfold clean_invalid_values, copy.
  rewrite (update_present_map "gender" (replace_values gender_map) df ND).
  cbn [bind].
  rewrite (update_present_map "state" (replace_values state_map));
    [|unfold columns; cbn [cols]; now rewrite map_upd_labels].
  cbn [bind index cols].
  rewrite (update_present_map "education" (replace_values education_map));
    [|unfold columns; cbn [cols]; now rewrite !map_upd_labels].
  cbn [bind index cols].
  rewrite (update_present_map_partial "customer_lifetime_value"
             (str_accessor_replace "%" "") strip_percent).
  2:{ unfold columns; cbn [cols]; now rewrite !map_upd_labels. }
  2:{ intros c Hc. apply str_accessor_replace_text.
      assert (H : clv_is_text
                    (mkDF (index df)
                       (map (on_label "education" (replace_values education_map))
                          (map (on_label "state" (replace_values state_map))
                             (map (on_label "gender" (replace_values gender_map))
                                (cols df))))) = true).
      { rewrite !(clv_is_text_on_label _ _ (index df) (index df)) by discriminate.
        now destruct df. }
      unfold clv_is_text in H. cbn [cols] in *. now rewrite Hc in H. }
  cbn [bind index cols].
  rewrite (update_present_map "vehicle_class" (replace_values vehicle_class_map));
    [|unfold columns; cbn [cols]; now rewrite !map_upd_labels].
  cbn [bind index cols]. do 2 f_equal.
  rewrite !map_map. apply map_ext. intros [n c].
  unfold on_label, normalized_values. cbn [fst snd]. f_equal.
  destruct (String.eqb_spec n "gender") as [->|_]; [reflexivity|].
  destruct (String.eqb_spec n "state") as [->|_]; [reflexivity|].
  destruct (String.eqb_spec n "education") as [->|_]; [reflexivity|].
  destruct (String.eqb_spec n "customer_lifetime_value") as [->|_]; [reflexivity|].
  reflexivity.
Qed.

Lemma replace_values_shape (d : list (string * string)) (c : column) :
  map is_missing (cells (replace_values d c)) = map is_missing (cells c) /\
  is_object (replace_values d c) = is_object c.
Proof.
  destruct c as [vs|vs|vs]; simpl; try (split; reflexivity).
  split; [|reflexivity]. rewrite !map_map. apply map_ext. now intros [s|].
Qed.

Lemma strip_percent_shape (c : column) :
  map is_missing (cells (strip_percent c)) = map is_missing (cells c) /\
  is_object (strip_percent c) = is_object c.
Proof.
  destruct c as [vs|vs|vs]; simpl; try (split; reflexivity).
  split; [|reflexivity]. rewrite !map_map. apply map_ext. now intros [s|].
Qed.

(** The Value Normalizer keeps the dtype of a column and the places of its
    missing markers. *)
Lemma normalized_values_shape (n : string) (c : column) :
  map is_missing (cells (normalized_values n c)) = map is_missing (cells c) /\
  is_object (normalized_values n c) = is_object c.
Proof.
  unfold normalized_values.
  repeat match goal with
         | |- context [if String.eqb n ?k then _ else _] => destruct (String.eqb n k)
         end;
    auto using replace_values_shape, strip_percent_shape.
Qed.

Lemma same_missing_same_length (c c' : column) :
  map is_missing (cells c') = map is_missing (cells c) -> col_len c' = col_len c.
Proof.
  intros H. rewrite <- !cells_length.
  rewrite <- (length_map is_missing (cells c')), H. apply length_map.
Qed.

End ValueNormalizerResult.

(** X3. On a well-formed table whose [customer_lifetime_value] column is a
    text column or is absent, the Value Normalizer returns a well-formed
    table with the same index and labels; every column is changed by the
    rule of its own label only (a column with another label than the five
    named ones is returned as it is), it keeps its dtype, and its missing
    markers stay exactly where they were. *)
Theorem clean_invalid_values_result (df : DataFrame) :
  wf df ->
  clv_is_text df = true ->
  exists df',
    clean_invalid_values df = Ok df' /\
    index df' = index df /\
    columns df' = columns df /\
    cols df' = map (fun nc => (fst nc, normalized_values (fst nc) (snd nc))) (cols df) /\
    wf df' /\
    (forall n c,
        map is_missing (cells (normalized_values n c)) = map is_missing (cells c) /\
        is_object (normalized_values n c) = is_object c) /\
    (forall n c,
        n <> "gender" -> n <> "state" -> n <> "education" ->
        n <> "customer_lifetime_value" -> n <> "vehicle_class" ->
        normalized_values n c = c).
Proof.
  intros [ND Hlen] Ht.
  rewrite (clean_invalid_values_map df ND Ht).
  eexists. split; [reflexivity|]. cbn [index cols].
  assert (Hc : columns (mkDF (index df)
                  (map (fun nc => (fst nc, normalized_values (fst nc) (snd nc))) (cols df)))
               = columns df).
  { unfold columns. cbn [cols]. rewrite map_map. reflexivity. }
  split; [reflexivity|].
  split; [exact Hc|].
  split; [reflexivity|].
  split.
  { split; [now rewrite Hc|]. cbn [index cols].
    rewrite map_map. cbn [snd].
    rewrite Forall_map in Hlen |- *.
    eapply Forall_impl; [exact Hlen|]. intros [n c] H. cbn [fst snd] in *.
    rewrite <- H. apply same_missing_same_length, normalized_values_shape. }
  split; [exact normalized_values_shape|].
  intros n c H1 H2 H3 H4 H5. unfold normalized_values.
  apply String.eqb_neq in H1, H2, H3, H4, H5. now rewrite H1, H2, H3, H4, H5.
Qed.

Lemma clean_invalid_values_result_witness :
  exists df',
    clean_invalid_values values_table = Ok df' /\
    cols df' =
      [("gender", Object [Some "M"; None; Some "F"]);
       ("customer_lifetime_value", Object [Some "12.5"; Some "7"; None]);
       ("number_of_open_complaints", Object [Some "1/0/00"; Some "1/2/00"; Some "1/1/00"]);
       ("income", Int64 [10; 20; 30])].
Proof.
  destruct (clean_invalid_values_result values_table) as (df' & H & _ & _ & Hc & _).
  - solve_wf.
  - reflexivity.
  - exists df'. split; [exact H | exact Hc].
Defined.

Section ValueNormalizerTwice.

Lemma replace_values_idem (d : list (string * string)) (c : column) :
  (forall k v, dict_get k d = Some v -> dict_get v d = None) ->
  replace_values d (replace_values d c) = replace_values d c.
Proof.
  intros Hd. destruct c as [vs|vs|vs]; simpl; try reflexivity.
  f_equal. rewrite map_map. apply map_ext. intros [s|]; [|reflexivity]. simpl.
  f_equal. destruct (dict_get s d) as [v|] eqn:E.
  - now rewrite (Hd s v E).
  - now rewrite E.
Qed.

Ltac dict_values_are_not_keys :=
  intros k v; cbn [dict_get];
  repeat match goal with
         | |- context [String.eqb ?a k] => destruct (String.eqb a k)
         end;
  intros H; inversion H; reflexivity.

Lemma gender_map_stable k v :
  dict_get k gender_map = Some v -> dict_get v gender_map = None.
Proof. revert k v. unfold gender_map. dict_values_are_not_keys. Qed.

Lemma state_map_stable k v :
  dict_get k state_map = Some v -> dict_get v state_map = None.
Proof. revert k v. unfold state_map. dict_values_are_not_keys. Qed.

Lemma education_map_stable k v :
  dict_get k education_map = Some v -> dict_get v education_map = None.
Proof. revert k v. unfold education_map. dict_values_are_not_keys. Qed.

Lemma vehicle_class_map_stable k v :
  dict_get k vehicle_class_map = Some v -> dict_get v vehicle_class_map = None.
Proof. revert k v. unfold vehicle_class_map. dict_values_are_not_keys. Qed.

Lemma str_remove_idem (a : ascii) (s : string) :
  str_replace a "" (str_replace a "" s) = str_replace a "" s.
Proof.
  induction s as [|c s IH]; [reflexivity|]. cbn [str_replace].
  destruct (Ascii.eqb c a) eqn:E.
  - exact IH.
  - cbn [str_replace]. now rewrite E, IH.
Qed.

Lemma strip_percent_idem (c : column) : strip_percent (strip_percent c) = strip_percent c.
Proof.
  destruct c as [vs|vs|vs]; simpl; try reflexivity.
  f_equal. rewrite map_map. apply map_ext. intros [s|]; [|reflexivity]. simpl.
  now rewrite str_remove_idem.
Qed.

Lemma normalized_values_idem (n : string) (c : column) :
  normalized_values n (normalized_values n c) = normalized_values n c.
Proof.
  unfold normalized_values.
  repeat match goal with
         | |- context [if String.eqb n ?k then _ else _] => destruct (String.eqb n k)
         end;
    first [ reflexivity
          | apply strip_percent_idem
          | apply replace_values_idem;
            first [ exact gender_map_stable | exact state_map_stable
                  | exact education_map_stable | exact vehicle_class_map_stable ] ].
Qed.

Lemma clean_invalid_values_Ok_text (df df' : DataFrame) :
  clean_invalid_values df = Ok df' -> clv_is_text df = true.
Proof.
  intros H. unfold clv_is_text.
  destruct (lookup_col "customer_lifetime_value" (cols df)) as [c|] eqn:E; [|reflexivity].
  destruct (is_object c) eqn:Eo; [reflexivity|].
  rewrite (clean_invalid_values_numeric_clv df c E) in H; [discriminate|].
  now destruct c.
Qed.

End ValueNormalizerTwice.

(** X4. The Value Normalizer is idempotent: on a well-formed table on which
    it returns, a second run on the returned table returns that table.
    No replacement value is itself a value to replace, and a text without
    percent signs has none to remove. *)
Theorem clean_invalid_values_idempotent (df df' : DataFrame) :
  wf df ->
  clean_invalid_values df = Ok df' ->
  clean_invalid_values df' = Ok df'.
Proof.
  intros [ND _] H.
  pose proof (clean_invalid_values_Ok_text df df' H) as Ht.
  rewrite (clean_invalid_values_map df ND Ht) in H. inversion H as [E]. clear H.
  set (cs' := map (fun nc => (fst nc, normalized_values (fst nc) (snd nc))) (cols df)).
  assert (ND' : NoDup (columns (mkDF (index df) cs'))).
  { unfold columns, cs'. cbn [cols]. rewrite map_map. exact ND. }
  assert (Ht' : clv_is_text (mkDF (index df) cs') = true).
  { unfold clv_is_text in *. cbn [cols]. unfold cs'.
    clear -Ht. induction (cols df) as [|[k c] cs IH]; [reflexivity|].
    simpl in *. destruct (String.eqb k "customer_lifetime_value"); [|exact (IH Ht)].
    now rewrite (proj2 (normalized_values_shape k c)). }
  rewrite (clean_invalid_values_map _ ND' Ht'). cbn [index cols]. do 2 f_equal.
  unfold cs'. rewrite map_map. apply map_ext. intros [n c]. cbn [fst snd].
  now rewrite normalized_values_idem.
Qed.

Lemma clean_invalid_values_idempotent_witness :
  clean_invalid_values values_table_cleaned = Ok values_table_cleaned.
Proof.
  apply (clean_invalid_values_idempotent values_table values_table_cleaned).
  - solve_wf.
  - reflexivity.
Defined.

(** ** Type Formatter: what it returns *)

Section TypeFormatterResult.

Lemma assign_assign (n : string) (c1 c2 : column) (cs : list (string * column)) :
  assign_col n c2 (assign_col n c1 cs) = assign_col n c2 cs.
Proof.
  induction cs as [|[k c] cs IH]; simpl.
  - now rewrite String.eqb_refl.
  - destruct (String.eqb k n) eqn:E; simpl; rewrite E; [reflexivity | now rewrite IH].
Qed.

Lemma str_split_get_astype_str (c : column) :
  str_split_get "/" 1 (astype_str c) = Ok (middle_piece c).
Proof. unfold astype_str, str_split_get, middle_piece. now rewrite map_map. Qed.

(** On a table with unique labels, the updates of the Type Formatter are
    one map over the columns. *)
Lemma format_data_types_map (df : DataFrame) :
  NoDup (columns df) ->
  format_data_types df
  = Ok (mkDF (index df) (map (fun nc => (fst nc, formatted (fst nc) (snd nc))) (cols df))).
Proof.
  intros ND. unfold format_data_types, copy.
  rewrite (update_present_map "customer_lifetime_value" to_numeric df ND).
  cbn [bind].
  set (df1 := mkDF (index df) (map (on_label "customer_lifetime_value" to_numeric) (cols df))).
  assert (ND1 : NoDup (map fst (cols df1))).
  { unfold df1. cbn [cols]. now rewrite map_upd_labels. }
  pose proof (assign_as_map "number_of_open_complaints"
                (fun c => to_numeric (middle_piece c)) (cols df1) ND1) as Hmap.
  rewrite has_column_lookup.
  destruct (lookup_col "number_of_open_complaints" (cols df1)) as [c|] eqn:E.
  - rewrite (update_col_Ok "number_of_open_complaints" _ df1 c (middle_piece c) E
               (str_split_get_astype_str c)).
    cbn [bind].
    rewrite (update_col_Ok "number_of_open_complaints" (fun c => Ok (to_numeric c))
               (setitem "number_of_open_complaints" (middle_piece c) df1)
               (middle_piece c) (to_numeric (middle_piece c))); [|
      unfold setitem; cbn [cols]; now rewrite lookup_assign, String.eqb_refl | reflexivity].
    cbn [bind]. unfold setitem. cbn [index cols]. rewrite assign_assign, Hmap.
    unfold df1. cbn [index cols]. do 2 f_equal.
    rewrite map_map. apply map_ext. intros [n c0].
    unfold on_label, formatted. cbn [fst snd]. f_equal.
    destruct (String.eqb_spec n "customer_lifetime_value") as [->|_]; reflexivity.
  - cbn [bind]. unfold df1 in *. cbn [index cols] in *. do 2 f_equal.
    rewrite Hmap. rewrite map_map. apply map_ext. intros [n c0].
    unfold on_label, formatted. cbn [fst snd]. f_equal.
    destruct (String.eqb_spec n "customer_lifetime_value") as [->|_]; reflexivity.
Qed.

Lemma all_ints_length (ps : list (option number)) (zs : list Z) :
  all_ints ps = Some zs -> length zs = length ps.
Proof. intros H. apply all_ints_Some in H. subst ps. now rewrite length_map. Qed.

Lemma col_len_to_numeric (c : column) : col_len (to_numeric c) = col_len c.
Proof.
  destruct c as [vs|vs|vs]; try reflexivity. unfold to_numeric.
  destruct (all_ints _) as [zs|] eqn:E; simpl.
  - rewrite (all_ints_length _ _ E). apply length_map.
  - now rewrite !length_map.
Qed.

Lemma col_len_formatted (n : string) (c : column) : col_len (formatted n c) = col_len c.
Proof.
  unfold formatted.
  destruct (String.eqb n "customer_lifetime_value"); [apply col_len_to_numeric|].
  destruct (String.eqb n "number_of_open_complaints"); [|reflexivity].
  rewrite col_len_to_numeric. unfold middle_piece. simpl.
  rewrite length_map. apply cells_length.
Qed.

Lemma map_const_None {A B : Type} (g : A -> option B) (l : list A) :
  (forall x, In x l -> g x = None) -> map g l = repeat None (length l).
Proof.
  induction l as [|x l IH]; intros H; [reflexivity|]. simpl.
  rewrite (H x) by now left. f_equal. apply IH. intros y Hy. apply H. now right.
Qed.

(** A numeric column has no cell with a second piece: as
    [number_of_open_complaints] it comes out all missing. *)
Lemma formatted_complaints_numeric (c : column) :
  is_numeric c = true ->
  numbers (to_numeric (middle_piece c)) = repeat None (col_len c).
Proof.
  intros Hn. unfold middle_piece. rewrite numbers_to_numeric, map_map.
  assert (H : forall x, In x (cells c) ->
                nth_error (str_split "/" (cell_text x)) 1 = None).
  { intros x Hx. rewrite str_split_no_sep; [reflexivity|].
    destruct c as [vs|vs|vs]; try discriminate; simpl in Hx;
      apply in_map_iff in Hx as (v & <- & _); simpl.
    - apply Z_repr_no_slash.
    - destruct v; [apply float_repr_no_slash | reflexivity]. }
  rewrite <- cells_length. apply map_const_None.
  intros x Hx. now rewrite (H x Hx).
Qed.

End TypeFormatterResult.

Lemma lookup_col_map_labelled (g : string -> column -> column) (n : string)
  (cs : list (string * column)) :
  lookup_col n (map (fun nc => (fst nc, g (fst nc) (snd nc))) cs)
  = option_map (g n) (lookup_col n cs).
Proof.
  induction cs as [|[k c] cs IH]; simpl; [reflexivity|].
  destruct (String.eqb_spec k n) as [->|_]; [reflexivity | exact IH].
Qed.

(** What [to_numeric] makes of the cells of a text column. *)
Lemma to_numeric_cells (vs : list (option string)) (i : nat) (v : option string) :
  nth_error vs i = Some v ->
  exists w,
    nth_error (numbers (to_numeric (Object vs))) i = Some w /\
    (v = None -> w = None) /\
    (forall s, v = Some s -> not_numeral s = true -> mentions_inf s = false ->
               w = None) /\
    (forall n, v = Some (numeral_text n) -> short_numeral n = true ->
       exists q, w = Some q /\
                 rounding_of (numeral_value n) q /\
                 (binary64 (numeral_value n) -> (q == numeral_value n)%Q)).
Proof.
  intros Hv. rewrite numbers_to_numeric.
  eexists. split; [exact (map_nth_error _ _ _ Hv)|]. cbv beta.
  split; [now intros ->|].
  split; [intros s -> Hs _; now rewrite (not_numeral_parse s Hs)|].
  intros n -> Hn. now apply short_numeral_number.
Qed.

(** X5. On every well-formed table the Type Formatter returns a
    well-formed table with the same index and labels.  A column with
    another label than [customer_lifetime_value] and
    [number_of_open_complaints] is returned as it is, and so is a
    [customer_lifetime_value] column that is already numeric.  A text
    [customer_lifetime_value] column comes out with one number or missing
    marker for every cell: a missing cell stays missing; a text that is no
    numeral (no digit, or a character that no numeral holds) and does not
    spell an infinity becomes missing; a decimal numeral of at most 15
    digits with a power of ten of at most 22 becomes its number, rounded
    to binary64, and the number itself when that is a binary64 number. *)
Theorem format_data_types_result (df : DataFrame) :
  wf df ->
  exists df',
    format_data_types df = Ok df' /\
    index df' = index df /\
    columns df' = columns df /\
    wf df' /\
    (forall n, n <> "customer_lifetime_value" -> n <> "number_of_open_complaints" ->
               lookup_col n (cols df') = lookup_col n (cols df)) /\
    (forall c, is_numeric c = true ->
               lookup_col "customer_lifetime_value" (cols df) = Some c ->
               lookup_col "customer_lifetime_value" (cols df') = Some c) /\
    (forall vs,
        lookup_col "customer_lifetime_value" (cols df) = Some (Object vs) ->
        exists c',
          lookup_col "customer_lifetime_value" (cols df') = Some c' /\
          length (numbers c') = length vs /\
          forall i v, nth_error vs i = Some v ->
            exists w,
              nth_error (numbers c') i = Some w /\
              (v = None -> w = None) /\
              (forall s, v = Some s -> not_numeral s = true ->
                         mentions_inf s = false -> w = None) /\
              (forall n, v = Some (numeral_text n) -> short_numeral n = true ->
                 exists q, w = Some q /\
                           rounding_of (numeral_value n) q /\
                           (binary64 (numeral_value n) -> (q == numeral_value n)%Q))).
Proof.
  intros [ND Hlen]. rewrite (format_data_types_map df ND).
  eexists. split; [reflexivity|]. cbn [index cols].
  assert (Hc : columns (mkDF (index df)
                  (map (fun nc => (fst nc, formatted (fst nc) (snd nc))) (cols df)))
               = columns df).
  { unfold columns. cbn [cols]. rewrite map_map. reflexivity. }
  split; [reflexivity|].
  split; [exact Hc|].
  split.
  { split; [now rewrite Hc|]. cbn [index cols]. rewrite map_map. cbn [snd].
    rewrite Forall_map in Hlen |- *.
    eapply Forall_impl; [exact Hlen|]. intros [n c] H. cbn [fst snd] in *.
    now rewrite col_len_formatted. }
  split.
  { intros n H1 H2. rewrite lookup_col_map_labelled.
    destruct (lookup_col n (cols df)) as [c|]; [|reflexivity]. cbn [option_map].
    unfold formatted. apply String.eqb_neq in H1, H2. now rewrite H1, H2. }
  split.
  { intros c Hn Hl. rewrite lookup_col_map_labelled, Hl. cbn [option_map].
    f_equal. unfold formatted. cbn. now destruct c. }
  intros vs Hl. exists (to_numeric (Object vs)).
  split; [now rewrite lookup_col_map_labelled, Hl|].
  split; [now rewrite numbers_to_numeric, length_map|].
  intros i v Hv. now apply to_numeric_cells.
Qed.

Lemma format_data_types_result_witness :
  exists df' c' q,
    format_data_types values_table_cleaned = Ok df' /\
    lookup_col "income" (cols df') = Some (Int64 [10; 20; 30]) /\
    lookup_col "customer_lifetime_value" (cols df') = Some c' /\
    nth_error (numbers c') 0 = Some (Some q) /\ (q == 25 # 2)%Q /\
    nth_error (numbers c') 2 = Some None.
Proof.
  destruct (format_data_types_result values_table_cleaned)
    as (df' & H & _ & _ & _ & Ho & _ & Ht); [solve_wf|].
  destruct (Ht [Some "12.5"; Some "7"; None] eq_refl) as (c' & Hc & _ & Hcells).
  destruct (Hcells 0%nat (Some "12.5") eq_refl) as (w0 & E0 & _ & _ & N0).
  destruct (N0 (mkNumeral "" "12" (Some "5") None) eq_refl eq_refl) as (q & -> & _ & Eq).
  destruct (Hcells 2%nat None eq_refl) as (w2 & E2 & M2 & _).
  rewrite (M2 eq_refl) in E2.
  exists df', c', q.
  split; [exact H|].
  split; [rewrite Ho by discriminate; reflexivity|].
  split; [exact Hc|]. split; [exact E0|]. split; [|exact E2].
  rewrite Eq; [reflexivity|].
  exists 25, (-1). split; [reflexivity|]. split; [lia | reflexivity].
Defined.

(** X6. A second run of the Type Formatter erases
    [number_of_open_complaints]: on a well-formed table with that column,
    the first run makes the column numeric, and the run on its result
    returns the column with every cell missing (the text of a number has
    no ["/"]). *)
Theorem format_data_types_twice_erases_complaints (df : DataFrame) (c : column) :
  wf df ->
  lookup_col "number_of_open_complaints" (cols df) = Some c ->
  exists df1 df2 c2,
    format_data_types df = Ok df1 /\
    format_data_types df1 = Ok df2 /\
    lookup_col "number_of_open_complaints" (cols df2) = Some c2 /\
    numbers c2 = repeat None (col_len c).
Proof.
  intros [ND _] Hc.
  set (f := fun nc : string * column => (fst nc, formatted (fst nc) (snd nc))).
  assert (ND1 : NoDup (columns (mkDF (index df) (map f (cols df))))).
  { unfold columns. cbn [cols]. rewrite map_map. exact ND. }
  assert (Hl : forall cs c0, lookup_col "number_of_open_complaints" cs = Some c0 ->
                 lookup_col "number_of_open_complaints" (map f cs)
                 = Some (to_numeric (middle_piece c0))).
  { induction cs as [|[k c1] cs IH]; simpl; [discriminate|]. intros c0.
    destruct (String.eqb_spec k "number_of_open_complaints") as [->|_]; [|apply IH].
    intros H. inversion H. reflexivity. }
  pose proof (Hl _ _ Hc) as H1. pose proof (Hl _ _ H1) as H2.
  exists (mkDF (index df) (map f (cols df))),
         (mkDF (index df) (map f (map f (cols df)))),
         (to_numeric (middle_piece (to_numeric (middle_piece c)))).
  split; [exact (format_data_types_map df ND)|].
  split; [exact (format_data_types_map _ ND1)|].
  split; [exact H2|].
  rewrite formatted_complaints_numeric by apply to_numeric_is_numeric.
  f_equal. rewrite col_len_to_numeric. unfold middle_piece. simpl.
  rewrite length_map. apply cells_length.
Qed.

Lemma format_data_types_twice_erases_complaints_witness :
  exists df1 df2 c2,
    format_data_types values_table_cleaned = Ok df1 /\
    format_data_types df1 = Ok df2 /\
    lookup_col "number_of_open_complaints" (cols df2) = Some c2 /\
    numbers c2 = [None; None; None].
Proof.
  apply (format_data_types_twice_erases_complaints values_table_cleaned
           (Object [Some "1/0/00"; Some "1/2/00"; Some "1/1/00"])).
  - solve_wf.
  - reflexivity.
Defined.

(** ** Value Normalizer, then Type Formatter *)

(** X7. The percent signs are removed before the numbers are read: on a
    well-formed table with a text [customer_lifetime_value] column, the
    Value Normalizer and then the Type Formatter return, and the column
    holds one number or missing marker for every cell.  A missing cell
    stays missing; a text that without its percent signs is a decimal
    numeral of at most 15 digits with a power of ten of at most 22 becomes
    the number of that numeral (rounded to binary64); a text that without
    its percent signs is no numeral and does not spell an infinity becomes
    missing. *)
Theorem percent_stripped_then_parsed (df : DataFrame) (vs : list (option string)) :
  wf df ->
  lookup_col "customer_lifetime_value" (cols df) = Some (Object vs) ->
  exists df1 df2 c2,
    clean_invalid_values df = Ok df1 /\
    format_data_types df1 = Ok df2 /\
    lookup_col "customer_lifetime_value" (cols df2) = Some c2 /\
    length (numbers c2) = length vs /\
    forall i v, nth_error vs i = Some v ->
      exists w,
        nth_error (numbers c2) i = Some w /\
        (v = None -> w = None) /\
        (forall s, v = Some s -> not_numeral (without_char "%" s) = true ->
                   mentions_inf (without_char "%" s) = false -> w = None) /\
        (forall s n, v = Some s -> without_char "%" s = numeral_text n ->
           short_numeral n = true ->
           exists q, w = Some q /\
                     rounding_of (numeral_value n) q /\
                     (binary64 (numeral_value n) -> (q == numeral_value n)%Q)).
Proof.
  intros [ND _] Hc.
  assert (Ht : clv_is_text df = true) by (unfold clv_is_text; now rewrite Hc).
  set (cs1 := map (fun nc => (fst nc, normalized_values (fst nc) (snd nc))) (cols df)).
  assert (ND1 : NoDup (columns (mkDF (index df) cs1))).
  { unfold columns, cs1. cbn [cols]. rewrite map_map. exact ND. }
  set (vs1 := map (option_map (str_replace "%" "")) vs).
  exists (mkDF (index df) cs1),
         (mkDF (index df) (map (fun nc => (fst nc, formatted (fst nc) (snd nc))) cs1)),
         (to_numeric (Object vs1)).
  split; [exact (clean_invalid_values_map df ND Ht)|].
  split; [exact (format_data_types_map _ ND1)|].
  split.
  { cbn [cols]. unfold cs1. rewrite !lookup_col_map_labelled, Hc. reflexivity. }
  split; [unfold vs1; now rewrite numbers_to_numeric, !length_map|].
  intros i v Hv.
  destruct (to_numeric_cells vs1 i (option_map (str_replace "%" "") v))
    as (w & Hw & Hm & Hn & Hs).
  { unfold vs1. exact (map_nth_error _ _ _ Hv). }
  exists w. split; [exact Hw|].
  split; [intros ->; now apply Hm|].
  split.
  - intros s -> H1 H2. apply (Hn (without_char "%" s)); [|exact H1 | exact H2].
    cbn [option_map]. now rewrite str_replace_without.
  - intros s n -> H1 H2. apply (Hs n); [|exact H2].
    cbn [option_map]. now rewrite str_replace_without, H1.
Qed.

Lemma percent_stripped_then_parsed_witness :
  exists df1 df2 c2 q,
    clean_invalid_values values_table = Ok df1 /\
    format_data_types df1 = Ok df2 /\
    lookup_col "customer_lifetime_value" (cols df2) = Some c2 /\
    nth_error (numbers c2) 0 = Some (Some q) /\ (q == 25 # 2)%Q.
Proof.
  destruct (percent_stripped_then_parsed values_table [Some "12.5%"; Some "7"; None])
    as (df1 & df2 & c2 & H1 & H2 & H3 & _ & Hcells).
  - solve_wf.
  - reflexivity.
  - destruct (Hcells 0%nat (Some "12.5%") eq_refl) as (w & Hw & _ & _ & Hn).
    destruct (Hn "12.5%" (mkNumeral "" "12" (Some "5") None) eq_refl eq_refl eq_refl)
      as (q & -> & _ & Eq).
    exists df1, df2, c2, q. repeat split; try assumption.
    rewrite Eq; [reflexivity|].
    exists 25, (-1). split; [reflexivity|]. split; [lia | reflexivity].
Defined.

(** ** Null Handler: when it returns and what it keeps *)

Section NullHandlerResult.

Lemma elem_lookup (n : string) (c : column) (cs : list (string * column)) :
  NoDup (map fst cs) -> (n, c) ∈ cs -> lookup_col n cs = Some c.
Proof.
  induction cs as [|[k c0] cs IH]; simpl; intros ND Hin.
  - now apply elem_of_nil in Hin.
  - apply NoDup_cons in ND as [Hk ND].
    apply elem_of_cons in Hin as [Heq|Hin].
    + inversion Heq; subst. now rewrite String.eqb_refl.
    + destruct (String.eqb_spec k n) as [->|_]; [|now apply IH].
      exfalso. apply Hk. apply list_elem_of_In, in_map_iff.
      exists (n, c). split; [reflexivity | now apply list_elem_of_In].
Qed.

(** On a table with unique labels in which the mode of every text column
    with a missing marker exists, the two loops of the Null Handler are one
    map over the columns. *)
Lemma handle_nulls_map (df : DataFrame) :
  NoDup (columns df) ->
  text_fillable df = true ->
  handle_nulls df
  = Ok (mkDF (index df) (map (fun nc => (fst nc, fill_missing (snd nc))) (cols df))).
Proof.
  intros ND Hf. unfold text_fillable in Hf. rewrite forallb_forall in Hf.
  unfold handle_nulls, copy.
  rewrite (for_each_select is_numeric _
             (fun c => if isna_any c then fillna (median c) c else c) df ND).
  2:{ intros n c df0 _ _ Hl. unfold getitem. rewrite Hl. cbn [bind].
      destruct (isna_any c); [reflexivity|]. now rewrite setitem_same. }
  cbn [bind].
  set (df1 := mkDF (index df) _).
  assert (E1 : cols df1 = map (fun nc => (fst nc, if is_numeric (snd nc)
                                                  then fill_missing (snd nc)
                                                  else snd nc)) (cols df)).
  { unfold df1. cbn [cols]. apply map_ext_in. intros [n c] _. simpl.
    destruct (is_numeric c) eqn:En; [|reflexivity]. now rewrite fill_numeric. }
  assert (ND1 : NoDup (columns df1)).
  { unfold columns. rewrite E1, map_map. simpl. exact ND. }
  rewrite (for_each_select is_object _ fill_missing df1 ND1).
  2:{ intros n c df0 Hobj Hin Hl. unfold getitem. rewrite Hl. cbn [bind].
      assert (Hc : implb (isna_any c) (has_value c) = true).
      { rewrite E1 in Hin. apply list_elem_of_In, in_map_iff in Hin.
        destruct Hin as ([n0 c0] & E & Hin0). simpl in E.
        specialize (Hf _ Hin0). simpl in Hf.
        destruct (is_numeric c0) eqn:En; inversion E; subst.
        - destruct (fill_missing_dtype c0) as [Hd _].
          rewrite En in Hd. destruct (fill_missing c0); discriminate.
        - now rewrite Hobj in Hf. }
      pose proof (fill_text c Hobj Hc) as Ht.
      destruct (isna_any c).
      - destruct (first_item (mode c)) as [m|e]; simpl in *; [|discriminate].
        now inversion Ht.
      - assert (Ht' : fill_missing c = c) by congruence.
        rewrite Ht'. now rewrite setitem_same. }
  cbn [bind index]. do 2 f_equal.
  rewrite E1, map_map. apply map_ext. intros [n c]. simpl.
  destruct c as [vs|vs|vs]; simpl; try reflexivity.
  now destruct (median_of (dropna vs)).
Qed.

Lemma no_value_all_missing (vs : list (option string)) :
  has_value (Object vs) = false -> Forall (fun v => v = None) vs.
Proof.
  unfold has_value. simpl.
  induction vs as [|[s|] vs IH]; simpl; intros H; [constructor | discriminate|].
  constructor; [reflexivity | now apply IH].
Qed.

Lemma handle_nulls_raises (df : DataFrame) :
  wf df -> text_fillable df = false -> handle_nulls df = Raise KeyError.
Proof.
  intros Hwf Hf. unfold text_fillable in Hf.
  assert (H : exists nc, In nc (cols df) /\
                implb (is_object (snd nc) && isna_any (snd nc)) (has_value (snd nc)) = false).
  { clear Hwf. induction (cols df) as [|nc cs IH]; simpl in Hf; [discriminate|].
    destruct (implb _ _) eqn:E.
    - destruct (IH Hf) as (nc' & Hin & E'). exists nc'. split; [now right | exact E'].
    - exists nc. split; [now left | exact E]. }
  destruct H as ([n c] & Hin & E). simpl in E.
  destruct c as [vs|vs|vs]; simpl in E; try discriminate.
  destruct (isna_any (Object vs)) eqn:Ena; [|discriminate].
  destruct (has_value (Object vs)) eqn:Ehv; [discriminate|].
  apply (handle_nulls_all_missing_text df n vs Hwf).
  - apply elem_lookup; [exact (proj1 Hwf) | now apply list_elem_of_In].
  - intros ->. discriminate.
  - now apply no_value_all_missing.
Qed.

Lemma fill_length {A : Type} (x : A) (vs : list (option A)) :
  length (fill x vs) = length vs.
Proof. apply length_map. Qed.

Lemma col_len_fill_missing (c : column) : col_len (fill_missing c) = col_len c.
Proof.
  destruct c as [vs|vs|vs]; simpl; [reflexivity| |].
  - destruct (median_of (dropna vs)); simpl; [apply fill_length | reflexivity].
  - destruct (modes _ _ (dropna vs)); simpl; [reflexivity | apply fill_length].
Qed.

Lemma fill_keeps {A : Type} (x : A) (vs : list (option A)) (i : nat) (y : A) :
  nth_error vs i = Some (Some y) -> nth_error (fill x vs) i = Some (Some y).
Proof.
  unfold fill. intros H. rewrite nth_error_map, H. reflexivity.
Qed.

(** Filling changes no value. *)
Lemma fill_missing_keeps (c : column) (i : nat) (x : cell) :
  nth_error (cells c) i = Some x -> is_missing x = false ->
  nth_error (cells (fill_missing c)) i = Some x.
Proof.
  destruct c as [vs|vs|vs]; simpl; [tauto| |].
  - destruct (median_of (dropna vs)) as [m|]; [|tauto]. simpl.
    rewrite !nth_error_map. destruct (nth_error vs i) as [[q|]|] eqn:E; simpl;
      intros H Hm; inversion H; subst; try discriminate.
    now rewrite (fill_keeps m vs i q E).
  - destruct (modes _ _ (dropna vs)) as [|m ms]; [tauto|]. simpl.
    rewrite !nth_error_map. destruct (nth_error vs i) as [[q|]|] eqn:E; simpl;
      intros H Hm; inversion H; subst; try discriminate.
    now rewrite (fill_keeps m vs i q E).
Qed.

Lemma fill_missing_idem (c : column) : fill_missing (fill_missing c) = fill_missing c.
Proof.
  destruct c as [vs|vs|vs]; simpl; [reflexivity| |].
  - destruct (median_of (dropna vs)) as [m|] eqn:E; simpl; [|now rewrite E].
    destruct (median_of (dropna (fill m vs))); [|reflexivity].
    now rewrite (fill_complete _ _ (fill_no_missing m vs)).
  - destruct (modes _ _ (dropna vs)) as [|m ms] eqn:E; simpl; [now rewrite E|].
    destruct (modes _ _ (dropna (fill m vs))); [reflexivity|].
    now rewrite (fill_complete _ _ (fill_no_missing m vs)).
Qed.

Lemma text_fillable_filled (df : DataFrame) :
  text_fillable df = true ->
  text_fillable
    (mkDF (index df) (map (fun nc => (fst nc, fill_missing (snd nc))) (cols df))) = true.
Proof.
  unfold text_fillable. cbn [cols]. rewrite !forallb_forall.
  intros H nc Hin. apply in_map_iff in Hin as ([n c] & <- & Hin). cbn [fst snd].
  specialize (H _ Hin). cbn [snd] in H.
  destruct c as [vs|vs|vs]; try reflexivity.
  - simpl. now destruct (median_of (dropna vs)).
  - simpl in *. destruct (modes _ _ (dropna vs)) as [|m ms]; [exact H|].
    assert (E : isna_any (Object (fill m vs)) = false)
      by (apply isna_any_Object, fill_no_missing).
    now rewrite E.
Qed.

Lemma wf_filled (df : DataFrame) :
  wf df ->
  wf (mkDF (index df) (map (fun nc => (fst nc, fill_missing (snd nc))) (cols df))).
Proof.
  intros [ND Hlen]. split.
  - unfold columns. cbn [cols]. rewrite map_map. exact ND.
  - cbn [index cols]. rewrite map_map. cbn [snd].
    rewrite Forall_map in Hlen |- *.
    eapply Forall_impl; [exact Hlen|]. intros [n c] H. cbn [snd] in *.
    now rewrite col_len_fill_missing.
Qed.

End NullHandlerResult.



(** X9. The Null Handler changes no value: when it returns on a
    well-formed table, every column of the input is found under the same
    label in the result, with the same length and the same kind (numeric
    or text), and every cell that was not missing is unchanged at its
    position. *)
Theorem handle_nulls_keeps_values (df df' : DataFrame) :
  wf df ->
  handle_nulls df = Ok df' ->
  index df' = index df /\
  columns df' = columns df /\
  forall n c, lookup_col n (cols df) = Some c ->
    exists c',
      lookup_col n (cols df') = Some c' /\
      col_len c' = col_len c /\
      is_numeric c' = is_numeric c /\
      forall i x, nth_error (cells c) i = Some x -> is_missing x = false ->
                  nth_error (cells c') i = Some x.
Proof.
  intros Hwf H.
  destruct (text_fillable df) eqn:Hf;
    [|rewrite (handle_nulls_raises df Hwf Hf) in H; discriminate].
  rewrite (handle_nulls_map df (proj1 Hwf) Hf) in H. inversion H. clear H.
  cbn [index cols]. split; [reflexivity|].
  split; [unfold columns; cbn [cols]; now rewrite map_map|].
  intros n c Hc. exists (fill_missing c).
  split; [rewrite (lookup_col_map_labelled (fun _ => fill_missing)), Hc; reflexivity|].
  split; [apply col_len_fill_missing|].
  split; [apply fill_missing_dtype|].
  intros i x. apply fill_missing_keeps.
Qed.

Lemma handle_nulls_keeps_values_witness :
  exists c',
    lookup_col "income" (cols nulls_table_filled) = Some c' /\
    col_len c' = 4%nat /\
    nth_error (cells c') 3 = Some (CFloat (Some (inject_Z 40))).
Proof.
  destruct (handle_nulls_keeps_values nulls_table nulls_table_filled) as (_ & _ & H).
  - solve_wf.
  - reflexivity.
  - destruct (H "income" _ eq_refl) as (c' & H1 & H2 & _ & H3).
    exists c'. split; [exact H1|]. split; [exact H2|].
    apply H3; reflexivity.
Defined.

(** X10. The Null Handler is idempotent: when it returns on a well-formed
    table, a second run on the returned table returns that table. *)
Theorem handle_nulls_idempotent (df df' : DataFrame) :
  wf df ->
  handle_nulls df = Ok df' ->
  handle_nulls df' = Ok df'.
Proof.
  intros Hwf H.
  destruct (text_fillable df) eqn:Hf;
    [|rewrite (handle_nulls_raises df Hwf Hf) in H; discriminate].
  rewrite (handle_nulls_map df (proj1 Hwf) Hf) in H. inversion H. clear H.
  rewrite handle_nulls_map;
    [|exact (proj1 (wf_filled df Hwf)) | now apply text_fillable_filled].
  cbn [index cols]. do 2 f_equal. rewrite map_map. apply map_ext.
  intros [n c]. cbn [fst snd]. now rewrite fill_missing_idem.
Qed.

Lemma handle_nulls_idempotent_witness :
  handle_nulls nulls_table_filled = Ok nulls_table_filled.
Proof.
  apply (handle_nulls_idempotent nulls_table nulls_table_filled).
  - solve_wf.
  - reflexivity.
Defined.

(** ** Integer Coercer: when it returns *)

Section IntegerCoercerResult.

Lemma convert_numeric_to_int_map (df : DataFrame) :
  NoDup (columns df) ->
  numeric_complete df = true ->
  convert_numeric_to_int df
  = Ok (mkDF (index df) (map (fun nc => (fst nc, rounded (snd nc))) (cols df))).
Proof.
  intros ND Hc. unfold convert_numeric_to_int, copy.
  rewrite (for_each_select is_numeric _ rounded df ND).
  - cbn [bind]. do 2 f_equal. apply map_ext. intros [n c]. simpl. now destruct c.
  - intros n c df0 Hnum Hin Hl.
    apply update_col_Ok with (c := c); [exact Hl|].
    apply astype_int_round0; [exact Hnum|].
    unfold numeric_complete in Hc. rewrite forallb_forall in Hc.
    apply list_elem_of_In in Hin. specialize (Hc _ Hin). simpl in Hc.
    rewrite Hnum in Hc. simpl in Hc. now destruct (isna_any c).
Qed.

Lemma astype_int_round0_numeric (c : column) :
  is_numeric c = true ->
  astype_int (round0 c) = Raise IntCastingNaNError \/
  exists c', astype_int (round0 c) = Ok c'.
Proof.
  destruct c as [vs|vs|vs]; simpl; [eauto | | discriminate]. intros _.
  destruct (all_some _); eauto.
Qed.

Lemma astype_int_round0_missing (c : column) :
  is_numeric c = true -> isna_any c = true ->
  astype_int (round0 c) = Raise IntCastingNaNError.
Proof.
  destruct c as [vs|vs|vs]; simpl; intros Hn Hm; try discriminate.
  - exfalso. unfold isna_any in Hm. simpl in Hm.
    induction vs; simpl in Hm; [discriminate | auto].
  - unfold isna_any in Hm. simpl in Hm.
    assert (E : all_some (map (option_map (fun q => inject_Z (round_half_even q))) vs) = None).
    { clear Hn. induction vs as [|[q|] vs IH]; simpl in *; [discriminate | | reflexivity].
      now rewrite IH. }
    now rewrite E.
Qed.

Lemma convert_numeric_to_int_raises (df : DataFrame) :
  NoDup (columns df) ->
  numeric_complete df = false ->
  convert_numeric_to_int df = Raise IntCastingNaNError.
Proof.
  intros ND Hc. unfold numeric_complete in Hc.
  assert (H : exists nc, In nc (cols df) /\ is_numeric (snd nc) = true /\
                         isna_any (snd nc) = true).
  { clear ND. induction (cols df) as [|nc cs IH]; simpl in Hc; [discriminate|].
    destruct (is_numeric (snd nc)) eqn:E1, (isna_any (snd nc)) eqn:E2; simpl in Hc;
      try (destruct (IH Hc) as (nc' & Hin & H'); exists nc'; split; [now right | exact H']).
    exists nc. split; [now left | now split]. }
  destruct H as ([n c] & Hin & Hn & Hm). cbn [snd] in *.
  unfold convert_numeric_to_int, copy, select_dtypes.
  destruct df as [idx cs]. cbn [cols] in *.
  rewrite (for_each_select_raises_aux is_numeric _ IntCastingNaNError idx n c cs []);
    [reflexivity | exact ND | now apply list_elem_of_In | exact Hn | |].
  - intros df0 Hl. unfold update_col, getitem. rewrite Hl. cbn [bind].
    now rewrite astype_int_round0_missing.
  - intros n' c' df0 Hn' _ Hl. unfold update_col, getitem. rewrite Hl. cbn [bind].
    destruct (astype_int_round0_numeric c' Hn') as [-> | (c'' & ->)];
      [now left | right; cbn [bind]; eauto].
Qed.

Lemma rounded_shape (c : column) :
  isna_any c = false \/ is_numeric c = false ->
  col_len (rounded c) = col_len c /\
  is_float (rounded c) = false /\
  isna_any (rounded c) = (negb (is_numeric c) && isna_any c)%bool /\
  rounded (rounded c) = rounded c.
Proof.
  destruct c as [vs|vs|vs]; simpl.
  - intros _. repeat split. unfold isna_any. simpl. induction vs; simpl; auto.
  - intros [H|H]; [|discriminate]. apply isna_any_Float64 in H.
    assert (E : length (dropna vs) = length vs).
    { induction H as [|[q|] vs Hq _ IH]; simpl; [reflexivity | now rewrite IH | congruence]. }
    repeat split; [now rewrite length_map|].
    unfold isna_any. simpl. generalize (dropna vs). intros l. induction l; simpl; auto.
  - intros _. repeat split.
Qed.

End IntegerCoercerResult.

(** X11. On a well-formed table whose floating-point values are finite
    (below [2^1024] in magnitude) the Integer Coercer returns exactly when
    no numeric column holds a missing marker, and raises
    [IntCastingNaNError] otherwise.  The table it returns is well-formed,
    has the same index and labels, has no floating-point column left, and
    its text columns are the text columns of the input. *)
Theorem convert_numeric_to_int_returns_iff (df : DataFrame) :
  wf df ->
  floats_below 1024 df = true ->
  (numeric_complete df = true ->
   exists df',
     convert_numeric_to_int df = Ok df' /\
     index df' = index df /\
     columns df' = columns df /\
     wf df' /\
     forallb (fun nc => negb (is_float (snd nc))) (cols df') = true /\
     forall n c, is_object c = true ->
       (lookup_col n (cols df') = Some c <-> lookup_col n (cols df) = Some c)) /\
  (numeric_complete df = false ->
   convert_numeric_to_int df = Raise IntCastingNaNError).
Proof.
  intros [ND Hlen] _. split; [|now apply convert_numeric_to_int_raises].
  intros Hc. rewrite (convert_numeric_to_int_map df ND Hc).
  eexists. split; [reflexivity|]. cbn [index cols].
  assert (Hcols : columns (mkDF (index df)
                    (map (fun nc => (fst nc, rounded (snd nc))) (cols df))) = columns df).
  { unfold columns. cbn [cols]. rewrite map_map. reflexivity. }
  assert (Hsh : forall nc, In nc (cols df) ->
                  isna_any (snd nc) = false \/ is_numeric (snd nc) = false).
  { unfold numeric_complete in Hc. rewrite forallb_forall in Hc.
    intros nc Hin. specialize (Hc nc Hin).
    destruct (is_numeric (snd nc)); [|now right].
    left. simpl in Hc. now destruct (isna_any (snd nc)). }
  split; [reflexivity|].
  split; [exact Hcols|].
  split.
  { split; [now rewrite Hcols|]. cbn [index cols]. rewrite map_map. cbn [snd].
    rewrite Forall_map in Hlen |- *. rewrite List.Forall_forall in Hlen |- *.
    intros nc Hin. rewrite <- (Hlen nc Hin).
    apply (rounded_shape (snd nc)). now apply Hsh. }
  split.
  { rewrite forallb_forall. intros nc Hin.
    apply in_map_iff in Hin as (nc0 & <- & Hin0). cbn [snd].
    destruct (rounded_shape (snd nc0) (Hsh nc0 Hin0)) as (_ & -> & _). reflexivity. }
  intros n c Hobj. rewrite (lookup_col_map_labelled (fun _ => rounded)).
  destruct (lookup_col n (cols df)) as [c0|]; simpl; [|split; discriminate].
  split; intros H; inversion H; subst.
  - destruct c0; try discriminate. reflexivity.
  - destruct c; try discriminate. reflexivity.
Qed.

Lemma convert_numeric_to_int_returns_iff_witness :
  (exists df', convert_numeric_to_int rounding_table = Ok df') /\
  convert_numeric_to_int nan_premium_table = Raise IntCastingNaNError.
Proof.
  split.
  - destruct (convert_numeric_to_int_returns_iff rounding_table) as [H _];
      [solve_wf | reflexivity |].
    destruct (H eq_refl) as (df' & Hdf & _). now exists df'.
  - apply (convert_numeric_to_int_returns_iff nan_premium_table);
      [solve_wf | reflexivity | reflexivity].
Defined.

(** X12. The Integer Coercer is idempotent: when it returns on a
    well-formed table, a second run on the returned table returns that
    table. *)
Theorem convert_numeric_to_int_idempotent (df df' : DataFrame) :
  wf df ->
  convert_numeric_to_int df = Ok df' ->
  convert_numeric_to_int df' = Ok df'.
Proof.
  intros [ND _] H.
  destruct (numeric_complete df) eqn:Hc;
    [|rewrite (convert_numeric_to_int_raises df ND Hc) in H; discriminate].
  rewrite (convert_numeric_to_int_map df ND Hc) in H. inversion H. clear H.
  assert (Hsh : forall nc, In nc (cols df) ->
                  isna_any (snd nc) = false \/ is_numeric (snd nc) = false).
  { unfold numeric_complete in Hc. rewrite forallb_forall in Hc.
    intros nc Hin. specialize (Hc nc Hin).
    destruct (is_numeric (snd nc)); [|now right].
    left. simpl in Hc. now destruct (isna_any (snd nc)). }
  rewrite convert_numeric_to_int_map.
  - cbn [index cols]. do 2 f_equal. rewrite map_map. apply map_ext_in.
    intros nc Hin. cbn [fst snd]. f_equal. apply (rounded_shape (snd nc)). now apply Hsh.
  - unfold columns. cbn [cols]. rewrite map_map. exact ND.
  - unfold numeric_complete. cbn [cols]. rewrite forallb_forall.
    intros nc Hin. apply in_map_iff in Hin as (nc0 & <- & Hin0). cbn [snd].
    destruct (rounded_shape (snd nc0) (Hsh nc0 Hin0)) as (_ & _ & -> & _).
    destruct (snd nc0); reflexivity.
Qed.

Lemma convert_numeric_to_int_idempotent_witness :
  convert_numeric_to_int rounding_table_rounded = Ok rounding_table_rounded.
Proof.
  apply (convert_numeric_to_int_idempotent rounding_table rounding_table_rounded).
  - solve_wf.
  - reflexivity.
Defined.

(** ** Deduplicator: tables without equal rows, and a second run *)

Section DeduplicatorTwice.

Lemma marks_first_spec (rs : list row) (i : nat) (r : row) :
  nth_error rs i = Some r ->
  (nth_error (dup_first [] rs) i = Some true <->
   exists j r', (j < i)%nat /\ nth_error rs j = Some r' /\ row_eqb r r' = true).
Proof.
  intros Hr. destruct (dup_first_spec [] rs i r Hr) as (b & Hb & Hiff).
  rewrite Hb. split.
  - intros E. assert (Eb : b = true) by congruence.
    apply Hiff in Eb as [(s & [] & _)|H]. exact H.
  - intros H. f_equal. apply Hiff. now right.
Qed.

Lemma marks_last_spec (rs : list row) (i : nat) (r : row) :
  nth_error rs i = Some r ->
  (nth_error (dup_last rs) i = Some true <->
   exists j r', (i < j)%nat /\ nth_error rs j = Some r' /\ row_eqb r r' = true).
Proof.
  intros Hr. destruct (dup_last_spec rs i r Hr) as (b & Hb & Hiff).
  rewrite Hb. split.
  - intros E. apply Hiff. congruence.
  - intros H. f_equal. now apply Hiff.
Qed.

Lemma all_false (l : list bool) :
  (forall i, nth_error l i <> Some true) -> l = repeat false (length l).
Proof.
  induction l as [|b l IH]; intros H; [reflexivity|]. simpl.
  destruct b; [now elim (H 0%nat)|]. f_equal. apply IH.
  intros i. exact (H (S i)).
Qed.

Lemma unmarked_none {A : Type} (l : list A) : unmarked (repeat false (length l)) l = l.
Proof. induction l as [|x l IH]; simpl; [reflexivity | now rewrite IH]. Qed.

Lemma col_unmarked_none (n : nat) (c : column) :
  col_len c = n -> col_unmarked (repeat false n) c = c.
Proof. intros <-. destruct c; simpl; now rewrite unmarked_none. Qed.

Lemma drop_marked_none (df : DataFrame) :
  wf df -> drop_marked (repeat false (length (index df))) df = df.
Proof.
  intros [_ Hlen]. unfold drop_marked. rewrite unmarked_none.
  destruct df as [idx cs]. cbn [index cols] in *. f_equal.
  induction cs as [|[n c] cs IH]; [reflexivity|]. simpl in *.
  inversion Hlen; subst. rewrite col_unmarked_none by assumption.
  now rewrite IH.
Qed.

(** In a table without equal rows no row is marked, whatever is kept. *)
Lemma no_marks (rs : list row) (keep : string) :
  (forall i j r r', (i < j)%nat ->
     nth_error rs i = Some r -> nth_error rs j = Some r' -> row_eqb r r' = false) ->
  (if String.eqb keep "first" then dup_first [] rs else dup_last rs)
  = repeat false (length rs).
Proof.
  intros Hd.
  assert (Hlen : length (if String.eqb keep "first" then dup_first [] rs else dup_last rs)
                 = length rs).
  { destruct (String.eqb keep "first"); [apply length_dup_first | apply length_dup_last]. }
  rewrite <- Hlen. apply all_false. intros i E.
  assert (Hi : (i < length rs)%nat).
  { rewrite <- Hlen. apply nth_error_Some. congruence. }
  destruct (nth_error rs i) as [r|] eqn:Er; [|apply nth_error_None in Er; lia].
  destruct (String.eqb keep "first").
  - apply (marks_first_spec rs i r Er) in E as (j & r' & Hj & Hr' & Eq).
    rewrite row_eqb_sym in Eq. now rewrite (Hd j i r' r Hj Hr' Er) in Eq.
  - apply (marks_last_spec rs i r Er) in E as (j & r' & Hj & Hr' & Eq).
    now rewrite (Hd i j r r' Hj Er Hr') in Eq.
Qed.

Lemma handle_duplicates_distinct (df : DataFrame) (keep : string) :
  wf df ->
  keep = "first" \/ keep = "last" ->
  rows_distinct df ->
  handle_duplicates df keep = Ok (reset_index df).
Proof.
  intros Hwf Hk Hd. unfold handle_duplicates, drop_duplicates, copy.
  destruct (empty df); [reflexivity|].
  assert (Hrun : duplicated keep df
                 = Ok (if String.eqb keep "first" then dup_first [] (rows df)
                       else dup_last (rows df))).
  { unfold duplicated. destruct Hk as [-> | ->]; reflexivity. }
  rewrite Hrun. cbn [bind]. rewrite (no_marks (rows df) keep Hd).
  rewrite (length_rows df (proj2 Hwf)). now rewrite drop_marked_none.
Qed.

Lemma reset_index_idem (df : DataFrame) : reset_index (reset_index df) = reset_index df.
Proof. unfold reset_index. cbn [index cols]. now rewrite length_map, length_seq. Qed.

Lemma wf_reset_index (df : DataFrame) : wf df -> wf (reset_index df).
Proof.
  intros [ND Hlen]. split; [exact ND|].
  unfold reset_index. cbn [index cols]. now rewrite length_map, length_seq.
Qed.

Lemma wf_drop_marked (marks : list bool) (df : DataFrame) :
  wf df -> wf (drop_marked marks df).
Proof.
  intros [ND Hlen]. split.
  - unfold columns, drop_marked. cbn [cols]. rewrite map_map. exact ND.
  - unfold drop_marked. cbn [index cols]. rewrite map_map. cbn [snd].
    rewrite Forall_map in Hlen |- *.
    eapply Forall_impl; [exact Hlen|]. intros [n c] Hc. simpl in *.
    destruct c as [vs|vs|vs]; simpl in *; now apply length_unmarked.
Qed.

(** The rows that survive are pairwise different. *)
Lemma survivors_rows_distinct (df : DataFrame) (keep : string) :
  rows_distinct
    (reset_index
       (drop_marked (if String.eqb keep "first" then dup_first [] (rows df)
                     else dup_last (rows df)) df)).
Proof.
  unfold rows_distinct. rewrite rows_reset_index, rows_drop_marked.
  destruct (String.eqb keep "first").
  - apply (survivors_distinct (rows df) (dup_first [] (rows df)) (fun j i => (j < i)%nat)).
    + apply marks_first_spec.
    + intros p q Hpq. now left.
  - apply (survivors_distinct (rows df) (dup_last (rows df)) (fun j i => (i < j)%nat)).
    + apply marks_last_spec.
    + intros p q Hpq. now right.
Qed.

End DeduplicatorTwice.

(** X13. The Deduplicator drops no row of a table without equal rows: on a
    well-formed table in which no two rows are equal, with [keep] "first"
    or "last", it returns the table with all its columns as they were and
    the index renewed. *)
Theorem handle_duplicates_keeps_distinct_rows (df : DataFrame) (keep : string) :
  wf df ->
  keep = "first" \/ keep = "last" ->
  rows_distinct df ->
  exists df',
    handle_duplicates df keep = Ok df' /\
    cols df' = cols df /\
    index df' = map Z.of_nat (seq 0 (length (index df))).
Proof.
  intros Hwf Hk Hd. exists (reset_index df).
  split; [now apply handle_duplicates_distinct|]. split; reflexivity.
Qed.

Lemma handle_duplicates_keeps_distinct_rows_witness :
  exists df',
    handle_duplicates distinct_rows_table "last" = Ok df' /\
    cols df' = cols distinct_rows_table /\
    index df' = [0; 1; 2].
Proof.
  apply (handle_duplicates_keeps_distinct_rows distinct_rows_table "last").
  - solve_wf.
  - now right.
  - intros i j r r' Hij Hi Hj.
    destruct i as [|[|[|i]]]; destruct j as [|[|[|j]]]; try lia;
      simpl in Hi, Hj; inversion Hi; inversion Hj; subst; try reflexivity;
      try (now destruct j); now destruct i.
Defined.

(** X14. The Deduplicator is idempotent: on a well-formed table, with
    [keep] "first" or "last", a second run on the table it returns
    returns that table. *)
Theorem handle_duplicates_idempotent (df df' : DataFrame) (keep : string) :
  wf df ->
  keep = "first" \/ keep = "last" ->
  handle_duplicates df keep = Ok df' ->
  handle_duplicates df' keep = Ok df'.
Proof.
  intros Hwf Hk H. unfold handle_duplicates, drop_duplicates, copy in H.
  destruct (empty df) eqn:He.
  - cbn [bind] in H. inversion H. clear H.
    unfold handle_duplicates, drop_duplicates, copy.
    assert (He' : empty (reset_index df) = true).
    { unfold empty, reset_index in *. cbn [index cols].
      now rewrite length_map, length_seq. }
    rewrite He'. cbn [bind]. now rewrite reset_index_idem.
  - assert (Hrun : duplicated keep df
                   = Ok (if String.eqb keep "first" then dup_first [] (rows df)
                         else dup_last (rows df))).
    { unfold duplicated. destruct Hk as [-> | ->]; reflexivity. }
    rewrite Hrun in H. cbn [bind] in H. inversion H. clear H.
    rewrite handle_duplicates_distinct.
    + now rewrite reset_index_idem.
    + apply wf_reset_index, wf_drop_marked, Hwf.
    + exact Hk.
    + apply survivors_rows_distinct.
Qed.

Lemma handle_duplicates_idempotent_witness :
  handle_duplicates duplicates_table_first "first" = Ok duplicates_table_first.
Proof.
  apply (handle_duplicates_idempotent duplicates_table duplicates_table_first "first").
  - solve_wf.
  - now left.
  - reflexivity.
Defined.

(** ** Null Handler, then Integer Coercer *)

Lemma fillable_text_fillable (df : DataFrame) :
  fillable df = true -> text_fillable df = true.
Proof.
  unfold fillable, text_fillable. rewrite !forallb_forall.
  intros H nc Hin. specialize (H nc Hin).
  destruct (is_object (snd nc)); [exact H | reflexivity].
Qed.

(** X15. The Null Handler establishes what the Integer Coercer needs: on a
    well-formed table whose floating-point values are below [2^1023] in
    magnitude and in which every column with a missing marker has at least
    one value, the Null Handler returns and the Integer Coercer returns on
    its result; the final table has the same index and labels, and no
    missing marker and no floating-point column is left in it. *)
Theorem handle_nulls_then_convert (df : DataFrame) :
  wf df ->
  fillable df = true ->
  floats_below 1023 df = true ->
  exists df1 df2,
    handle_nulls df = Ok df1 /\
    convert_numeric_to_int df1 = Ok df2 /\
    index df2 = index df /\
    columns df2 = columns df /\
    forallb (fun nc => negb (isna_any (snd nc)) && negb (is_float (snd nc))) (cols df2)
    = true.
Proof.
  intros Hwf Hf _.
  pose proof (wf_filled df Hwf) as Hwf1.
  set (df1 := mkDF (index df) (map (fun nc => (fst nc, fill_missing (snd nc))) (cols df))) in *.
  assert (Hm : forall nc, In nc (cols df) -> isna_any (fill_missing (snd nc)) = false).
  { unfold fillable in Hf. rewrite forallb_forall in Hf.
    intros nc Hin. apply fill_missing_complete. exact (Hf nc Hin). }
  assert (Hc1 : numeric_complete df1 = true).
  { unfold numeric_complete, df1. cbn [cols]. rewrite forallb_forall.
    intros nc Hin. apply in_map_iff in Hin as (nc0 & <- & Hin0). cbn [snd].
    rewrite (Hm nc0 Hin0). now destruct (is_numeric _). }
  exists df1, (mkDF (index df1) (map (fun nc => (fst nc, rounded (snd nc))) (cols df1))).
  split; [exact (handle_nulls_map df (proj1 Hwf) (fillable_text_fillable df Hf))|].
  split; [exact (convert_numeric_to_int_map df1 (proj1 Hwf1) Hc1)|].
  split; [reflexivity|].
  unfold df1. cbn [index cols]. rewrite map_map. cbn [fst snd].
  split; [unfold columns; cbn [cols]; now rewrite map_map|].
  rewrite forallb_forall. intros nc Hin.
  apply in_map_iff in Hin as (nc0 & <- & Hin0). cbn [snd].
  destruct (rounded_shape (fill_missing (snd nc0)) (or_introl (Hm nc0 Hin0)))
    as (_ & -> & -> & _).
  rewrite (Hm nc0 Hin0). now rewrite andb_false_r.
Qed.

Lemma handle_nulls_then_convert_witness :
  exists df1 df2,
    handle_nulls nulls_table = Ok df1 /\
    convert_numeric_to_int df1 = Ok df2 /\
    columns df2 = ["income"; "education"; "claims"] /\
    forallb (fun nc => negb (isna_any (snd nc)) && negb (is_float (snd nc))) (cols df2)
    = true.
Proof.
  destruct (handle_nulls_then_convert nulls_table) as (df1 & df2 & H1 & H2 & _ & H3 & H4).
  - solve_wf.
  - reflexivity.
  - reflexivity.
  - exists df1, df2. split; [exact H1|]. split; [exact H2|]. split; [exact H3 | exact H4].
Defined.

(** ** Null Handler: which of several modes is used *)

Section ModeTies.

Lemma ascii_compare_Lt (a b : ascii) :
  Ascii.compare a b = Lt <-> (N_of_ascii a < N_of_ascii b)%N.
Proof. unfold Ascii.compare. apply N.compare_lt_iff. Qed.

Lemma ascii_compare_Eq (a b : ascii) :
  Ascii.compare a b = Eq <-> N_of_ascii a = N_of_ascii b.
Proof. unfold Ascii.compare. apply N.compare_eq_iff. Qed.

Lemma string_compare_trans (a b c : string) :
  String.compare a b <> Gt -> String.compare b c <> Gt -> String.compare a c <> Gt.
Proof.
  revert b c. induction a as [|x a IH]; intros [|y b] [|z c]; simpl;
    try congruence.
  destruct (Ascii.compare x y) eqn:Exy; try congruence;
    destruct (Ascii.compare y z) eqn:Eyz; try congruence; intros H1 H2.
  - apply (proj1 (ascii_compare_Eq x y)) in Exy.
    apply (proj1 (ascii_compare_Eq y z)) in Eyz.
    assert (E : Ascii.compare x z = Eq) by (apply ascii_compare_Eq; congruence).
    rewrite E. now apply IH with b.
  - apply (proj1 (ascii_compare_Eq x y)) in Exy.
    apply (proj1 (ascii_compare_Lt y z)) in Eyz.
    assert (E : Ascii.compare x z = Lt) by (apply ascii_compare_Lt; lia).
    rewrite E. discriminate.
  - apply (proj1 (ascii_compare_Lt x y)) in Exy.
    apply (proj1 (ascii_compare_Eq y z)) in Eyz.
    assert (E : Ascii.compare x z = Lt) by (apply ascii_compare_Lt; lia).
    rewrite E. discriminate.
  - apply (proj1 (ascii_compare_Lt x y)) in Exy.
    apply (proj1 (ascii_compare_Lt y z)) in Eyz.
    assert (E : Ascii.compare x z = Lt) by (apply ascii_compare_Lt; lia).
    rewrite E. discriminate.
Qed.

Lemma string_leb_trans (a b c : string) :
  String.leb a b = true -> String.leb b c = true -> String.leb a c = true.
Proof.
  unfold String.leb. intros H1 H2.
  pose proof (string_compare_trans a b c) as H.
  destruct (String.compare a b), (String.compare b c), (String.compare a c);
    try reflexivity; try discriminate; exfalso; apply H; congruence.
Qed.

Lemma string_leb_total (a b : string) :
  String.leb a b = false -> String.leb b a = true.
Proof. intros H. destruct (String.leb_total a b) as [E|E]; congruence. Qed.

Lemma string_leb_refl (a : string) : String.leb a a = true.
Proof. now destruct (String.leb_total a a). Qed.

(** Of the values that are as frequent as the first mode, the first mode
    is the least. *)
Lemma first_mode_least (l : list string) (m : string) (rest : list string) :
  modes String.eqb String.leb l = m :: rest ->
  forall x, In x l -> count String.eqb x l = count String.eqb m l ->
            String.leb m x = true.
Proof.
  intros Hm x Hx Hcount.
  pose proof (sort_sorted String.leb string_leb_total
                (List.filter (fun y => (count String.eqb y l =? max_count String.eqb l)%nat)
                   (distinct String.eqb l))) as HS.
  fold (modes String.eqb String.leb l) in HS. rewrite Hm in HS.
  assert (Hmax : count String.eqb m l = max_count String.eqb l).
  { assert (Hin : In m (modes String.eqb String.leb l)) by (rewrite Hm; now left).
    unfold modes in Hin. apply (Permutation_in m (sort_perm _ _)) in Hin.
    apply filter_In in Hin as [_ H]. now apply Nat.eqb_eq. }
  assert (Hin : In x (m :: rest)).
  { rewrite <- Hm. unfold modes.
    apply (Permutation_in x (Permutation_sym (sort_perm _ _))).
    apply filter_In. split.
    - now apply (distinct_In String.eqb String.leb String.eqb_eq).
    - apply Nat.eqb_eq. congruence. }
  apply Sorted_StronglySorted in HS.
  - inversion HS as [|? ? _ Hall]; subst.
    destruct Hin as [<-|Hin]; [apply string_leb_refl|].
    rewrite List.Forall_forall in Hall. now apply Hall.
  - intros a b c. apply string_leb_trans.
Qed.

Lemma In_dropna {A : Type} (x : A) (vs : list (option A)) :
  In x (dropna vs) <-> In (Some x) vs.
Proof.
  induction vs as [|[y|] vs IH]; simpl; [tauto| |].
  - rewrite IH. split; intros [H|H]; auto; left; congruence.
  - rewrite IH. split; [auto | intros [H|H]; [discriminate | exact H]].
Qed.

End ModeTies.

(** X16. The value the Null Handler fills a text column with is a value of
    the column that no other value outnumbers, and among the values that
    are as frequent it is the least in the order of texts.  On a
    well-formed table on which the Null Handler returns, a text column
    with at least one value comes out with every missing cell replaced by
    that value. *)
Theorem handle_nulls_mode_tie_break
  (df df' : DataFrame) (n : string) (vs : list (option string)) :
  wf df ->
  handle_nulls df = Ok df' ->
  lookup_col n (cols df) = Some (Object vs) ->
  has_value (Object vs) = true ->
  exists m,
    lookup_col n (cols df') = Some (Object (fill m vs)) /\
    In (Some m) vs /\
    (forall x, (count String.eqb x (dropna vs) <= count String.eqb m (dropna vs))%nat) /\
    (forall x, In (Some x) vs ->
       count String.eqb x (dropna vs) = count String.eqb m (dropna vs) ->
       String.leb m x = true).
Proof.
  intros Hwf H Hc Hv.
  destruct (text_fillable df) eqn:Hf;
    [|rewrite (handle_nulls_raises df Hwf Hf) in H; discriminate].
  rewrite (handle_nulls_map df (proj1 Hwf) Hf) in H. inversion H. clear H.
  cbn [cols]. rewrite (lookup_col_map_labelled (fun _ => fill_missing)), Hc.
  cbn [option_map fill_missing].
  pose proof (modes_nonempty String.eqb String.leb String.eqb_eq (dropna vs)
                (has_value_Object vs Hv)) as Hne.
  destruct (modes String.eqb String.leb (dropna vs)) as [|m rest] eqn:Em; [congruence|].
  exists m. split; [reflexivity|].
  destruct (mode_most_frequent (dropna vs) m rest Em) as [Hin Hmost].
  split; [now apply In_dropna|].
  split; [exact Hmost|].
  intros x Hx. apply (first_mode_least (dropna vs) m rest Em). now apply In_dropna.
Qed.

Lemma handle_nulls_mode_tie_break_witness :
  exists m,
    lookup_col "education" (cols tie_table_filled)
    = Some (Object (fill m [Some "Master"; Some "Bachelor"; None; Some "Master";
                            Some "Bachelor"])) /\
    String.leb m "Master" = true.
Proof.
  destruct (handle_nulls_mode_tie_break tie_table tie_table_filled "education"
              [Some "Master"; Some "Bachelor"; None; Some "Master"; Some "Bachelor"])
    as (m & H1 & _ & _ & H2).
  - solve_wf.
  - reflexivity.
  - reflexivity.
  - reflexivity.
  - exists m. split; [exact H1|]. apply H2; [now left | ].
    assert (E : m = "Bachelor").
    { simpl in H1. inversion H1. reflexivity. }
    subst m. reflexivity.
Defined.

(** ** The order of the steps *)

Lemma to_numeric_numeric (c : column) : is_numeric (to_numeric c) = true.
Proof. destruct c as [vs|vs|vs]; [reflexivity | reflexivity | apply to_numeric_is_numeric]. Qed.

(** X17. The Value Normalizer cannot run after the Type Formatter: on a
    well-formed table with a [customer_lifetime_value] column of any
    dtype, the Type Formatter returns a table on which the Value
    Normalizer raises [AttributeError], because the column has become
    numeric. *)
Theorem value_normalizer_after_type_formatter (df : DataFrame) (c : column) :
  wf df ->
  lookup_col "customer_lifetime_value" (cols df) = Some c ->
  exists df1,
    format_data_types df = Ok df1 /\
    clean_invalid_values df1 = Raise AttributeError.
Proof.
  intros [ND _] Hc.
  exists (mkDF (index df) (map (fun nc => (fst nc, formatted (fst nc) (snd nc))) (cols df))).
  split; [exact (format_data_types_map df ND)|].
  apply (clean_invalid_values_numeric_clv _ (to_numeric c)).
  - cbn [cols]. rewrite lookup_col_map_labelled, Hc. reflexivity.
  - apply to_numeric_numeric.
Qed.

Lemma value_normalizer_after_type_formatter_witness :
  exists df1,
    format_data_types values_table = Ok df1 /\
    clean_invalid_values df1 = Raise AttributeError.
Proof.
  apply (value_normalizer_after_type_formatter values_table
           (Object [Some "12.5%"; Some "7"; None])).
  - solve_wf.
  - reflexivity.
Defined.

Section RenameThenNormalize.

Lemma lookup_relabelled (f : string -> string) (n : string) (c : column)
  (cs : list (string * column)) :
  NoDup (map f (map fst cs)) ->
  lookup_col n cs = Some c ->
  lookup_col (f n) (map (fun nc => (f (fst nc), snd nc)) cs) = Some c.
Proof.
  induction cs as [|[k c0] cs IH]; simpl; [discriminate|]. intros ND H.
  apply NoDup_cons in ND as [Hk ND].
  destruct (String.eqb_spec k n) as [->|Hkn].
  - now rewrite String.eqb_refl.
  - destruct (String.eqb_spec (f k) (f n)) as [E|_]; [|now apply IH].
    exfalso. apply Hk. rewrite E.
    apply list_elem_of_In, in_map_iff. exists n. split; [reflexivity|].
    apply lookup_col_elem in H. apply list_elem_of_In in H.
    apply in_map_iff. now exists (n, c).
Qed.

Lemma clv_is_text_relabelled (df : DataFrame) :
  relabelled_clv_is_text df = true ->
  clv_is_text (mkDF (index df) (map (fun nc => (new_label (fst nc), snd nc)) (cols df)))
  = true.
Proof.
  unfold relabelled_clv_is_text, clv_is_text. cbn [cols].
  induction (cols df) as [|[k c] cs IH]; simpl; [reflexivity|].
  intros H. apply andb_true_iff in H as [H1 H2].
  destruct (String.eqb (new_label k) "customer_lifetime_value"); [exact H1 | now apply IH].
Qed.

End RenameThenNormalize.

(** X18. The rename of "st" is what brings a column under the state
    replacement: on a table whose new labels are pairwise different and in
    which no column labelled [customer_lifetime_value]
    by the Column Normalizer is numeric, the Column Normalizer followed by
    the Value Normalizer returns, and a column whose label normalizes to
    "st" or "state" is found under the label "state" with its state
    abbreviations replaced. *)
Theorem rename_then_state_values (df : DataFrame) (n : string) (c : column) :
  NoDup (map new_label (columns df)) ->
  relabelled_clv_is_text df = true ->
  lookup_col n (cols df) = Some c ->
  new_label n = "state" ->
  exists df1 df2,
    clean_column_names df = Ok df1 /\
    clean_invalid_values df1 = Ok df2 /\
    lookup_col "state" (cols df2) = Some (replace_values state_map c).
Proof.
  intros ND Ht Hc Hn.
  set (cs1 := map (fun nc => (new_label (fst nc), snd nc)) (cols df)).
  assert (ND1 : NoDup (columns (mkDF (index df) cs1))).
  { unfold columns, cs1. cbn [cols]. rewrite map_map. cbn [fst].
    unfold columns in ND. now rewrite map_map in ND. }
  exists (mkDF (index df) cs1),
         (mkDF (index df)
            (map (fun nc => (fst nc, normalized_values (fst nc) (snd nc))) cs1)).
  assert (Hne : cols df <> []) by (destruct (cols df); [discriminate Hc | discriminate]).
  split; [exact (clean_column_names_eq df Hne)|].
  split; [exact (clean_invalid_values_map _ ND1 (clv_is_text_relabelled df Ht))|].
  assert (Hl : lookup_col "state" cs1 = Some c).
  { rewrite <- Hn. exact (lookup_relabelled new_label n c (cols df) ND Hc). }
  cbn [cols]. now rewrite lookup_col_map_labelled, Hl.
Qed.

Lemma rename_then_state_values_witness :
  exists df1 df2,
    clean_column_names raw_table = Ok df1 /\
    clean_invalid_values df1 = Ok df2 /\
    lookup_col "state" (cols df2) = Some (Object [Some "Arizona"; Some "Oregon"]).
Proof.
  apply (rename_then_state_values raw_table "ST" (Object [Some "AZ"; Some "Oregon"])).
  - apply (bool_decide_unpack _). vm_compute. reflexivity.
  - reflexivity.
  - reflexivity.
  - reflexivity.
Defined.
